(** * Food-waste sharing server: a shallow embedding of the request handlers

    The server is an Express application whose handlers talk to a
    relational store through Prisma.  The store is modelled as a record
    of tables (lists of rows, in insertion order), Prisma calls as
    operations of a small state-and-exception monad, and each route as a
    function from the store to a response and the next store. *)

From Stdlib Require Import ZArith List String Bool Lia Permutation Sorted DecimalString.
Import ListNotations.
Open Scope string_scope.
Open Scope Z_scope.

(** ** Rows of the tables (migration.sql) *)

Inductive ItemStatus := IN_FRIDGE | AVAILABLE | CLAIMED.
Inductive ClaimStatus := PENDING | ACCEPTED | REJECTED.

Definition ItemStatus_eqb (a b : ItemStatus) : bool :=
  match a, b with
  | IN_FRIDGE, IN_FRIDGE | AVAILABLE, AVAILABLE | CLAIMED, CLAIMED => true
  | _, _ => false
  end.

Record User := mkUser {
  user_id : Z;
  user_name : string;
  user_email : string;
  user_passwordHash : string;
  user_createdAt : Z }.

Record FoodCategory := mkFoodCategory {
  cat_id : Z;
  cat_name : string;
  cat_createdAt : Z }.

Record FoodItem := mkFoodItem {
  item_id : Z;
  item_title : string;
  item_status : ItemStatus;
  item_expiresAt : option Z;
  item_ownerId : Z;
  item_categoryId : option Z;
  item_createdAt : Z }.

Record FriendGroup := mkFriendGroup {
  group_id : Z;
  group_name : string;
  group_ownerId : Z;
  group_createdAt : Z }.

Record GroupMember := mkGroupMember {
  member_id : Z;
  member_groupId : Z;
  member_userId : Z;
  member_tag : option string;
  member_createdAt : Z }.

Record Claim := mkClaim {
  claim_id : Z;
  claim_itemId : Z;
  claim_claimerId : Z;
  claim_status : ClaimStatus;
  claim_createdAt : Z;
  claim_decidedAt : option Z }.

Record GroupShare := mkGroupShare {
  share_id : Z;
  share_itemId : Z;
  share_groupId : Z;
  share_createdAt : Z }.

Record GroupMessage := mkGroupMessage {
  msg_id : Z;
  msg_groupId : Z;
  msg_authorId : Z;
  msg_content : string;
  msg_createdAt : Z }.

Record Donation := mkDonation {
  don_id : Z;
  don_item : string;
  don_quantity : string;
  don_location : string;
  don_createdAt : Z }.

(** The database: one list of rows per table, oldest row first. *)
Record Store := mkStore {
  users : list User;
  foodCategories : list FoodCategory;
  foodItems : list FoodItem;
  friendGroups : list FriendGroup;
  groupMembers : list GroupMember;
  claims : list Claim;
  groupShares : list GroupShare;
  groupMessages : list GroupMessage;
  donations : list Donation }.

Definition empty_store : Store := mkStore [] [] [] [] [] [] [] [] [].

Definition set_users (v : list User) (s : Store) : Store :=
  mkStore v (foodCategories s) (foodItems s) (friendGroups s) (groupMembers s)
          (claims s) (groupShares s) (groupMessages s) (donations s).
Definition set_foodCategories (v : list FoodCategory) (s : Store) : Store :=
  mkStore (users s) v (foodItems s) (friendGroups s) (groupMembers s)
          (claims s) (groupShares s) (groupMessages s) (donations s).
Definition set_foodItems (v : list FoodItem) (s : Store) : Store :=
  mkStore (users s) (foodCategories s) v (friendGroups s) (groupMembers s)
          (claims s) (groupShares s) (groupMessages s) (donations s).
Definition set_friendGroups (v : list FriendGroup) (s : Store) : Store :=
  mkStore (users s) (foodCategories s) (foodItems s) v (groupMembers s)
          (claims s) (groupShares s) (groupMessages s) (donations s).
Definition set_groupMembers (v : list GroupMember) (s : Store) : Store :=
  mkStore (users s) (foodCategories s) (foodItems s) (friendGroups s) v
          (claims s) (groupShares s) (groupMessages s) (donations s).
Definition set_claims (v : list Claim) (s : Store) : Store :=
  mkStore (users s) (foodCategories s) (foodItems s) (friendGroups s) (groupMembers s)
          v (groupShares s) (groupMessages s) (donations s).
Definition set_groupShares (v : list GroupShare) (s : Store) : Store :=
  mkStore (users s) (foodCategories s) (foodItems s) (friendGroups s) (groupMembers s)
          (claims s) v (groupMessages s) (donations s).
Definition set_groupMessages (v : list GroupMessage) (s : Store) : Store :=
  mkStore (users s) (foodCategories s) (foodItems s) (friendGroups s) (groupMembers s)
          (claims s) (groupShares s) v (donations s).
Definition set_donations (v : list Donation) (s : Store) : Store :=
  mkStore (users s) (foodCategories s) (foodItems s) (friendGroups s) (groupMembers s)
          (claims s) (groupShares s) (groupMessages s) v.

Definition with_item_status (st : ItemStatus) (it : FoodItem) : FoodItem :=
  mkFoodItem (item_id it) (item_title it) st (item_expiresAt it)
             (item_ownerId it) (item_categoryId it) (item_createdAt it).

Definition with_claim_decision (st : ClaimStatus) (at_ : Z) (c : Claim) : Claim :=
  mkClaim (claim_id c) (claim_itemId c) (claim_claimerId c) st
          (claim_createdAt c) (Some at_).

(** ** Responses *)

(** The JSON bodies the handlers send. Joined rows ([include]) travel with
    the row they were joined to. *)
Inductive Body :=
| JError (error : string)
| JAuth (token : string) (id : Z) (name email : string)
| JDonation (d : Donation)
| JItemWithCategory (it : FoodItem) (category : option FoodCategory)
| JItem (it : FoodItem)
| JCategories (cs : list FoodCategory)
| JGroup (g : FriendGroup)
| JMember (m : GroupMember) (user : User)
| JClaimWithClaimer (c : Claim) (claimer : User)
| JClaimDecided (c : Claim) (item : FoodItem) (claimer : User)
| JMessages (ms : list (GroupMessage * User))
| JMessage (m : GroupMessage) (author : User)
| JOk.

Record Response := mkResponse { res_status : Z; res_body : Body }.

(** ** Handler monad: store threading, early replies, thrown errors *)

Inductive Exn :=
| RecordNotFound            (* Prisma P2025 *)
| ForeignKeyViolation       (* Prisma P2003 *)
| UniqueViolation           (* Prisma P2002 *)
| ValidationError           (* ill-typed query argument *)
| RequiredRelationMissing   (* a required relation resolved to no row *)
| JwtError.

Inductive outcome (A : Type) :=
| Value (a : A)
| Sent (r : Response)
| Thrown (e : Exn).
Arguments Value {A} a.
Arguments Sent {A} r.
Arguments Thrown {A} e.

Definition Handler (A : Type) : Type := Store -> outcome A * Store.

Definition ret {A} (a : A) : Handler A := fun s => (Value a, s).

Definition bind {A B} (m : Handler A) (k : A -> Handler B) : Handler B :=
  fun s =>
    match m s with
    | (Value a, s') => k a s'
    | (Sent r, s') => (Sent r, s')
    | (Thrown e, s') => (Thrown e, s')
    end.

Definition throw {A} (e : Exn) : Handler A := fun s => (Thrown e, s).

(** [return res.status(code).json(body)] *)
Definition reply {A} (code : Z) (b : Body) : Handler A :=
  fun s => (Sent (mkResponse code b), s).

Definition gets {A} (f : Store -> A) : Handler A := fun s => (Value (f s), s).
Definition modify (f : Store -> Store) : Handler unit := fun s => (Value tt, f s).

Declare Scope handler_scope.
Delimit Scope handler_scope with handler.
Notation "x <- c1 ;; c2" := (bind c1 (fun x => c2))
  (at level 61, c1 at next level, right associativity) : handler_scope.
Notation "c1 ;; c2" := (bind c1 (fun _ => c2))
  (at level 61, right associativity) : handler_scope.
Open Scope handler_scope.

(** [try { body } catch (err) { res.status(500).json({ error: msg }) }]:
    writes made before the throw stay in the store (no transaction). *)
Definition try_catch (msg : string) (body : Handler Response)
  : Store -> Response * Store :=
  fun s =>
    match body s with
    | (Value r, s') => (r, s')
    | (Sent r, s') => (r, s')
    | (Thrown _, s') => (mkResponse 500 (JError msg), s')
    end.

(** ** JavaScript truthiness of request fields *)

(** [!x] for a field that is absent or a string. *)
Definition truthy_str (o : option string) : option string :=
  match o with
  | Some "" => None
  | Some v => Some v
  | None => None
  end.

(** [!x] for a field that is absent or an integer. *)
Definition truthy_num (o : option Z) : option Z :=
  match o with
  | Some v => if v =? 0 then None else Some v
  | None => None
  end.

(** The integers a JS number holds exactly ([Number.isSafeInteger]).
    Each of them fits the 64-bit INTEGER columns of the schema, and
    Prisma takes it as an Int argument.  A number from 2^63 on is refused
    by Prisma before any query is made; the queries below are those of an
    argument Prisma takes, so whatever is stated of an id that matches no
    row is stated of a safe integer. *)
Definition safe_integer (n : Z) : bool := (- 2 ^ 53 <? n) && (n <? 2 ^ 53).
Definition safe_id (o : option Z) : bool :=
  match o with
  | Some n => safe_integer n
  | None => true
  end.

(** ** Prisma operations *)

(** INTEGER PRIMARY KEY AUTOINCREMENT; no row is ever deleted. *)
Definition next_id (ids : list Z) : Z := 1 + fold_right Z.max 0 ids.

Fixpoint update_first {A} (p : A -> bool) (f : A -> A) (l : list A) : list A :=
  match l with
  | [] => []
  | x :: r => if p x then f x :: r else x :: update_first p f r
  end.

Definition lookup_user (id : Z) (s : Store) : option User :=
  find (fun u => user_id u =? id) (users s).
Definition lookup_user_email (email : string) (s : Store) : option User :=
  find (fun u => String.eqb (user_email u) email) (users s).
Definition lookup_item (id : Z) (s : Store) : option FoodItem :=
  find (fun i => item_id i =? id) (foodItems s).
Definition lookup_category (id : Z) (s : Store) : option FoodCategory :=
  find (fun c => cat_id c =? id) (foodCategories s).
Definition lookup_claim (id : Z) (s : Store) : option Claim :=
  find (fun c => claim_id c =? id) (claims s).
Definition lookup_group (id : Z) (s : Store) : option FriendGroup :=
  find (fun g => group_id g =? id) (friendGroups s).

(** [prisma.<model>.findUnique({ where: { id } })] and, for users, [{ where: { email } }];
    the id is one Prisma takes as an argument (see [safe_integer]). *)
Definition user_findUnique_id (id : Z) : Handler (option User) := gets (lookup_user id).
Definition user_findUnique_email (email : string) : Handler (option User) :=
  gets (lookup_user_email email).
Definition foodItem_findUnique (id : Z) : Handler (option FoodItem) := gets (lookup_item id).
Definition foodCategory_findUnique (id : Z) : Handler (option FoodCategory) :=
  gets (lookup_category id).
Definition claim_findUnique (id : Z) : Handler (option Claim) := gets (lookup_claim id).
Definition friendGroup_findUnique (id : Z) : Handler (option FriendGroup) :=
  gets (lookup_group id).

(** A required relation ([include: { x: true }]) that resolves to no row
    makes the query fail. *)
Definition required {A} (o : option A) : Handler A :=
  match o with
  | Some a => ret a
  | None => throw RequiredRelationMissing
  end.

(** [prisma.user.create]: unique index on email. *)
Definition user_create (now : Z) (name email passwordHash : string) : Handler User :=
  existing <- user_findUnique_email email ;;
  match existing with
  | Some _ => throw UniqueViolation
  | None =>
    ids <- gets (fun s => map user_id (users s)) ;;
    let u := mkUser (next_id ids) name email passwordHash now in
    modify (fun s => set_users (users s ++ [u]) s) ;;
    ret u
  end.

Definition donation_create (now : Z) (item quantity location : string) : Handler Donation :=
  ids <- gets (fun s => map don_id (donations s)) ;;
  let d := mkDonation (next_id ids) item quantity location now in
  modify (fun s => set_donations (donations s ++ [d]) s) ;;
  ret d.

(** [prisma.foodItem.create({ data, include: { category: true } })]:
    status defaults to IN_FRIDGE; ownerId and categoryId are foreign keys. *)
Definition foodItem_create (now : Z) (title : string) (categoryId : option Z)
    (expiresAt : option Z) (ownerId : Z) : Handler (FoodItem * option FoodCategory) :=
  owner <- user_findUnique_id ownerId ;;
  match owner with
  | None => throw ForeignKeyViolation
  | Some _ =>
    category <- match categoryId with
                | None => ret None
                | Some cid =>
                  c <- foodCategory_findUnique cid ;;
                  match c with
                  | None => throw ForeignKeyViolation
                  | Some c => ret (Some c)
                  end
                end ;;
    ids <- gets (fun s => map item_id (foodItems s)) ;;
    let it := mkFoodItem (next_id ids) title IN_FRIDGE expiresAt ownerId categoryId now in
    modify (fun s => set_foodItems (foodItems s ++ [it]) s) ;;
    ret (it, category)
  end.

(** The compound key [id_ownerId]. *)
Definition owned_item (id ownerId : Z) (i : FoodItem) : bool :=
  (item_id i =? id) && (item_ownerId i =? ownerId).

(** [prisma.foodItem.update({ where: { id_ownerId: { id, ownerId } }, data: { status } })] *)
Definition foodItem_update_id_ownerId (id ownerId : Z) (st : ItemStatus) : Handler FoodItem :=
  let p := owned_item id ownerId in
  found <- gets (fun s => find p (foodItems s)) ;;
  match found with
  | None => throw RecordNotFound
  | Some it =>
    modify (fun s => set_foodItems (update_first p (with_item_status st) (foodItems s)) s) ;;
    ret (with_item_status st it)
  end.

(** [prisma.foodItem.update({ where: { id }, data: { status } })] *)
Definition foodItem_update_id (id : Z) (st : ItemStatus) : Handler FoodItem :=
  let p := fun i => item_id i =? id in
  found <- foodItem_findUnique id ;;
  match found with
  | None => throw RecordNotFound
  | Some it =>
    modify (fun s => set_foodItems (update_first p (with_item_status st) (foodItems s)) s) ;;
    ret (with_item_status st it)
  end.

(** [prisma.foodCategory.findMany({ where: { name: { in: names } } })] *)
Definition foodCategory_findMany_name_in (names : list string) : Handler (list FoodCategory) :=
  gets (fun s => filter (fun c => existsb (String.eqb (cat_name c)) names) (foodCategories s)).

Fixpoint fresh_categories (now : Z) (id : Z) (names : list string) : list FoodCategory :=
  match names with
  | [] => []
  | n :: r => mkFoodCategory id n now :: fresh_categories now (id + 1) r
  end.

Fixpoint has_dup (names : list string) : bool :=
  match names with
  | [] => false
  | n :: r => existsb (String.eqb n) r || has_dup r
  end.

(** [prisma.foodCategory.createMany({ data })]: one statement, unique
    index on name; either every row is inserted or none. *)
Definition foodCategory_createMany (now : Z) (names : list string) : Handler unit :=
  clash <- gets (fun s =>
    existsb (fun n => existsb (fun c => String.eqb (cat_name c) n) (foodCategories s)) names) ;;
  if clash || has_dup names then throw UniqueViolation
  else
    ids <- gets (fun s => map cat_id (foodCategories s)) ;;
    modify (fun s =>
      set_foodCategories (foodCategories s ++ fresh_categories now (next_id ids) names) s).

(** [prisma.friendGroup.create]: ownerId is a foreign key. *)
Definition friendGroup_create (now : Z) (name : string) (ownerId : Z) : Handler FriendGroup :=
  owner <- user_findUnique_id ownerId ;;
  match owner with
  | None => throw ForeignKeyViolation
  | Some _ =>
    ids <- gets (fun s => map group_id (friendGroups s)) ;;
    let g := mkFriendGroup (next_id ids) name ownerId now in
    modify (fun s => set_friendGroups (friendGroups s ++ [g]) s) ;;
    ret g
  end.

(** [prisma.friendGroup.findFirst({ where: { id, ownerId } })] *)
Definition friendGroup_findFirst_id_ownerId (id ownerId : Z) : Handler (option FriendGroup) :=
  gets (fun s =>
    find (fun g => (group_id g =? id) && (group_ownerId g =? ownerId)) (friendGroups s)).

(** [prisma.friendGroup.findUnique({ where: { id }, include: { members: true } })] *)
Definition friendGroup_findUnique_include_members (id : Z)
  : Handler (option (FriendGroup * list GroupMember)) :=
  g <- friendGroup_findUnique id ;;
  match g with
  | None => ret None
  | Some g =>
    ms <- gets (fun s => filter (fun m => member_groupId m =? group_id g) (groupMembers s)) ;;
    ret (Some (g, ms))
  end.

(** [prisma.groupMember.findFirst({ where: { groupId, userId } })] *)
Definition groupMember_findFirst (groupId userId : Z) : Handler (option GroupMember) :=
  gets (fun s =>
    find (fun m => (member_groupId m =? groupId) && (member_userId m =? userId))
         (groupMembers s)).

(** [prisma.groupMember.create({ data, include: { user: true } })] *)
Definition groupMember_create (now : Z) (groupId userId : Z) (tag : option string)
  : Handler (GroupMember * User) :=
  g <- friendGroup_findUnique groupId ;;
  u <- user_findUnique_id userId ;;
  match g, u with
  | Some _, Some u =>
    ids <- gets (fun s => map member_id (groupMembers s)) ;;
    let m := mkGroupMember (next_id ids) groupId userId tag now in
    modify (fun s => set_groupMembers (groupMembers s ++ [m]) s) ;;
    ret (m, u)
  | _, _ => throw ForeignKeyViolation
  end.

(** [prisma.claim.create({ data: { itemId, claimerId }, include: { claimer: true } })]:
    status defaults to PENDING, decidedAt to NULL. *)
Definition claim_create (now : Z) (itemId claimerId : Z) : Handler (Claim * User) :=
  it <- foodItem_findUnique itemId ;;
  u <- user_findUnique_id claimerId ;;
  match it, u with
  | Some _, Some u =>
    ids <- gets (fun s => map claim_id (claims s)) ;;
    let c := mkClaim (next_id ids) itemId claimerId PENDING now None in
    modify (fun s => set_claims (claims s ++ [c]) s) ;;
    ret (c, u)
  | _, _ => throw ForeignKeyViolation
  end.

(** [prisma.claim.findUnique({ where: { id }, include: { item: true } })] *)
Definition claim_findUnique_include_item (id : Z) : Handler (option (Claim * FoodItem)) :=
  c <- claim_findUnique id ;;
  match c with
  | None => ret None
  | Some c =>
    it <- foodItem_findUnique (claim_itemId c) ;;
    it <- required it ;;
    ret (Some (c, it))
  end.

(** [prisma.claim.update({ where: { id }, data: { status, decidedAt },
                          include: { item: true, claimer: true } })] *)
Definition claim_update_decision (id : Z) (st : ClaimStatus) (decidedAt : Z)
  : Handler (Claim * FoodItem * User) :=
  let p := fun c => claim_id c =? id in
  found <- claim_findUnique id ;;
  match found with
  | None => throw RecordNotFound
  | Some c =>
    modify (fun s => set_claims (update_first p (with_claim_decision st decidedAt) (claims s)) s) ;;
    let c' := with_claim_decision st decidedAt c in
    it <- foodItem_findUnique (claim_itemId c') ;;
    it <- required it ;;
    u <- user_findUnique_id (claim_claimerId c') ;;
    u <- required u ;;
    ret (c', it, u)
  end.

Definition shares_key (itemId groupId : Z) (sh : GroupShare) : bool :=
  (share_itemId sh =? itemId) && (share_groupId sh =? groupId).

(** [prisma.groupShare.upsert({ where: { itemId_groupId: { itemId, groupId } },
                                update: {}, create: { itemId, groupId } })] *)
Definition groupShare_upsert (now : Z) (itemId groupId : Z) : Handler GroupShare :=
  found <- gets (fun s => find (shares_key itemId groupId) (groupShares s)) ;;
  match found with
  | Some sh => ret sh
  | None =>
    it <- foodItem_findUnique itemId ;;
    g <- friendGroup_findUnique groupId ;;
    match it, g with
    | Some _, Some _ =>
      ids <- gets (fun s => map share_id (groupShares s)) ;;
      let sh := mkGroupShare (next_id ids) itemId groupId now in
      modify (fun s => set_groupShares (groupShares s ++ [sh]) s) ;;
      ret sh
    | _, _ => throw ForeignKeyViolation
    end
  end.

(** [orderBy]: rows that compare equal keep their insertion order. *)
Fixpoint insert_by {A} (le : A -> A -> bool) (x : A) (l : list A) : list A :=
  match l with
  | [] => [x]
  | y :: r => if le x y then x :: l else y :: insert_by le x r
  end.

Definition sort_by {A} (le : A -> A -> bool) (l : list A) : list A :=
  fold_right (insert_by le) [] l.

(** [orderBy: { createdAt: 'asc' }] on messages *)
Definition createdAt_asc (a b : GroupMessage) : bool :=
  msg_createdAt a <=? msg_createdAt b.

(** [orderBy: { name: 'asc' }] on categories (binary collation) *)
Definition name_asc (a b : FoodCategory) : bool :=
  String.leb (cat_name a) (cat_name b).

Fixpoint join_authors (us : list User) (ms : list GroupMessage)
  : option (list (GroupMessage * User)) :=
  match ms with
  | [] => Some []
  | m :: r =>
    match find (fun u => user_id u =? msg_authorId m) us, join_authors us r with
    | Some u, Some r' => Some ((m, u) :: r')
    | _, _ => None
    end
  end.

(** [prisma.groupMessage.findMany({ where: { groupId }, include: { author: true },
                                    orderBy: { createdAt: 'asc' }, take })] *)
Definition groupMessage_findMany (groupId : Z) (take : nat)
  : Handler (list (GroupMessage * User)) :=
  rows <- gets (fun s =>
    firstn take (sort_by createdAt_asc
                   (filter (fun m => msg_groupId m =? groupId) (groupMessages s)))) ;;
  us <- gets users ;;
  required (join_authors us rows).

(** [prisma.groupMessage.create({ data, include: { author: true } })] *)
Definition groupMessage_create (now : Z) (groupId authorId : Z) (content : string)
  : Handler (GroupMessage * User) :=
  g <- friendGroup_findUnique groupId ;;
  u <- user_findUnique_id authorId ;;
  match g, u with
  | Some _, Some u =>
    ids <- gets (fun s => map msg_id (groupMessages s)) ;;
    let m := mkGroupMessage (next_id ids) groupId authorId content now in
    modify (fun s => set_groupMessages (groupMessages s ++ [m]) s) ;;
    ret (m, u)
  | _, _ => throw ForeignKeyViolation
  end.

(** ** Route handlers

    Each handler takes [req.user] as set by the authentication middleware,
    the clock reading [now] used for [new Date()] and column defaults, and
    the request fields it reads.  Route parameters are the integers
    [Number(req.params.id)] yields; integer body fields are [None] when
    absent. *)

Definition send (code : Z) (b : Body) : Store -> Response * Store :=
  fun s => (mkResponse code b, s).

Definition defaults : list string :=
  ["Lactate"; "Legume"; "Fructe"; "Carne"; "Conserve"; "BÄƒuturi"].

Definition ensureCategories (now : Z) : Handler unit :=
  existing <- foodCategory_findMany_name_in defaults ;;
  if Nat.eqb (List.length existing) (List.length defaults) then ret tt
  else
    let toCreate :=
      filter (fun n => negb (existsb (fun c => String.eqb (cat_name c) n) existing))
             defaults in
    if (0 <? List.length toCreate)%nat then foodCategory_createMany now toCreate
    else ret tt.

(** POST /api/donations *)
Definition createDonation (now : Z) (item quantity location : option string)
  : Store -> Response * Store :=
  match truthy_str item, truthy_str quantity, truthy_str location with
  | Some item, Some quantity, Some location =>
    try_catch "Failed to create donation" (
      donation <- donation_create now item quantity location ;;
      ret (mkResponse 201 (JDonation donation)))
  | _, _, _ => send 400 (JError "item, quantity, and location are required")
  end.

(** What [expiresAt ? new Date(expiresAt) : null] evaluates to. *)
Inductive DateInput := NoDate | ValidDate (t : Z) | InvalidDate.

(** POST /api/items *)
Definition createItem (now : Z) (user : User) (title : option string)
    (categoryId : option Z) (expiresAt : DateInput) : Store -> Response * Store :=
  match truthy_str title with
  | None => send 400 (JError "title is required")
  | Some title =>
    try_catch "Failed to create item" (
      ensureCategories now ;;
      expires <- match expiresAt with
                 | NoDate => ret None
                 | ValidDate t => ret (Some t)
                 | InvalidDate => throw ValidationError
                 end ;;
      item <- foodItem_create now title (truthy_num categoryId) expires (user_id user) ;;
      ret (mkResponse 201 (JItemWithCategory (fst item) (snd item))))
  end.

(** [['IN_FRIDGE', 'AVAILABLE', 'CLAIMED'].includes(status)] *)
Definition parse_status (status : option string) : option ItemStatus :=
  match status with
  | None => None
  | Some v =>
    if String.eqb v "IN_FRIDGE" then Some IN_FRIDGE
    else if String.eqb v "AVAILABLE" then Some AVAILABLE
    else if String.eqb v "CLAIMED" then Some CLAIMED
    else None
  end.

(** PATCH /api/items/:id/status *)
Definition setItemStatus (user : User) (id : Z) (status : option string)
  : Store -> Response * Store :=
  match parse_status status with
  | None => send 400 (JError "invalid status")
  | Some st =>
    try_catch "Failed to update item" (
      updated <- foodItem_update_id_ownerId id (user_id user) st ;;
      ret (mkResponse 200 (JItem updated)))
  end.

(** GET /api/categories *)
Definition listCategories (now : Z) : Store -> Response * Store :=
  try_catch "Failed to fetch categories" (
    ensureCategories now ;;
    categories <- gets (fun s => sort_by name_asc (foodCategories s)) ;;
    ret (mkResponse 200 (JCategories categories))).

(** POST /api/groups *)
Definition createGroup (now : Z) (user : User) (name : option string)
  : Store -> Response * Store :=
  match truthy_str name with
  | None => send 400 (JError "name required")
  | Some name =>
    try_catch "Failed to create group" (
      group <- friendGroup_create now name (user_id user) ;;
      ret (mkResponse 201 (JGroup group)))
  end.

(** POST /api/groups/:id/members *)
Definition addMember (now : Z) (owner : User) (groupId : Z) (userId : option Z)
    (tag : option string) : Store -> Response * Store :=
  match truthy_num userId with
  | None => send 400 (JError "userId required")
  | Some userId =>
    try_catch "Failed to add member" (
      group <- friendGroup_findFirst_id_ownerId groupId (user_id owner) ;;
      match group with
      | None => reply 404 (JError "group not found")
      | Some _ =>
        friend <- user_findUnique_id userId ;;
        match friend with
        | None => reply 404 (JError "user not found")
        | Some friend =>
          existingMember <- groupMember_findFirst groupId (user_id friend) ;;
          match existingMember with
          | Some _ => reply 409 (JError "User already in group")
          | None =>
            member <- groupMember_create now groupId (user_id friend) (truthy_str tag) ;;
            ret (mkResponse 201 (JMember (fst member) (snd member)))
          end
        end
      end)
  end.

(** POST /api/claims *)
Definition createClaim (now : Z) (user : User) (itemId : option Z)
  : Store -> Response * Store :=
  match truthy_num itemId with
  | None => send 400 (JError "itemId required")
  | Some itemId =>
    try_catch "Failed to create claim" (
      item <- foodItem_findUnique itemId ;;
      match item with
      | None => reply 400 (JError "Item not available")
      | Some item =>
        if negb (ItemStatus_eqb (item_status item) AVAILABLE)
        then reply 400 (JError "Item not available")
        else if item_ownerId item =? user_id user
        then reply 400 (JError "Cannot claim own item")
        else
          claim <- claim_create now itemId (user_id user) ;;
          ret (mkResponse 201 (JClaimWithClaimer (fst claim) (snd claim)))
      end)
  end.

(** [['ACCEPTED', 'REJECTED'].includes(decision)] *)
Definition parse_decision (decision : option string) : option ClaimStatus :=
  match decision with
  | None => None
  | Some v =>
    if String.eqb v "ACCEPTED" then Some ACCEPTED
    else if String.eqb v "REJECTED" then Some REJECTED
    else None
  end.

(** POST /api/claims/:id/decision *)
Definition decideClaim (now : Z) (user : User) (id : Z) (decision : option string)
  : Store -> Response * Store :=
  match parse_decision decision with
  | None => send 400 (JError "decision must be ACCEPTED or REJECTED")
  | Some d =>
    try_catch "Failed to update claim" (
      claim <- claim_findUnique_include_item id ;;
      match claim with
      | None => reply 403 (JError "Not allowed")
      | Some (claim, item) =>
        if negb (item_ownerId item =? user_id user)
        then reply 403 (JError "Not allowed")
        else
          updated <- claim_update_decision id d now ;;
          match d with
          | ACCEPTED => _ <- foodItem_update_id (claim_itemId claim) CLAIMED ;; ret tt
          | _ => ret tt
          end ;;
          let '(c, it, u) := updated in
          ret (mkResponse 200 (JClaimDecided c it u))
      end)
  end.

(** [group.ownerId === user.id], [group.members.some(m => m.userId === user.id)] *)
Definition isOwner (g : FriendGroup) (user : User) : bool :=
  group_ownerId g =? user_id user.
Definition isMember (ms : list GroupMember) (user : User) : bool :=
  existsb (fun m => member_userId m =? user_id user) ms.

(** GET /api/groups/:id/messages *)
Definition listMessages (user : User) (id : Z) : Store -> Response * Store :=
  try_catch "Failed to fetch messages" (
    group <- friendGroup_findUnique_include_members id ;;
    match group with
    | None => reply 404 (JError "group not found")
    | Some (g, ms) =>
      if negb (isOwner g user) && negb (isMember ms user)
      then reply 403 (JError "Not allowed")
      else
        messages <- groupMessage_findMany id 200 ;;
        ret (mkResponse 200 (JMessages messages))
    end).

(** POST /api/groups/:id/share *)
Definition shareItemToGroup (now : Z) (user : User) (id : Z) (itemId : option Z)
  : Store -> Response * Store :=
  match truthy_num itemId with
  | None => send 400 (JError "itemId required")
  | Some itemId =>
    try_catch "Failed to share item" (
      group <- friendGroup_findUnique_include_members id ;;
      match group with
      | None => reply 404 (JError "group not found")
      | Some (g, ms) =>
        if negb (isOwner g user) && negb (isMember ms user)
        then reply 403 (JError "Not allowed")
        else
          item <- foodItem_findUnique itemId ;;
          match item with
          | None => reply 403 (JError "You can share only your own items")
          | Some item =>
            if negb (item_ownerId item =? user_id user)
            then reply 403 (JError "You can share only your own items")
            else
              groupShare_upsert now itemId id ;;
              ret (mkResponse 201 JOk)
          end
      end)
  end.

(** ** Authentication and the routing table *)

(** What [jwt.verify(token, JWT_SECRET)] does: it returns the payload
    or throws. *)
Inductive JwtResult :=
| JwtPayload (userId : option Z) (email : string)
| JsonWebTokenError
| TokenExpiredError.

Definition unauthorized : Response := mkResponse 401 (JError "Unauthorized").

(** [auth.startsWith('Bearer ') ? auth.slice(7) : null],
    with [auth = req.headers.authorization || ''] *)
Definition bearer_token (authorization : option string) : option string :=
  let auth := match authorization with Some a => a | None => "" end in
  if String.prefix "Bearer " auth
  then Some (String.substring 7 (String.length auth - 7) auth)
  else None.

Inductive AuthResult :=
| Next (user : User)        (* req.user = user; next() *)
| Denied (r : Response).

Inductive Request :=
| PostRegister (name email password : option string) (passwordHash : string)
| PostDonation (item quantity location : option string)
| GetCategories
| PostItem (authorization : option string) (title : option string)
           (categoryId : option Z) (expiresAt : DateInput)
| PatchItemStatus (authorization : option string) (id : Z) (status : option string)
| PostGroup (authorization : option string) (name : option string)
| PostMember (authorization : option string) (id : Z) (userId : option Z)
             (tag : option string)
| PostClaim (authorization : option string) (itemId : option Z)
| PostDecision (authorization : option string) (id : Z) (decision : option string)
| GetMessages (authorization : option string) (id : Z)
| PostMessage (authorization : option string) (id : Z) (content : option string)
| PostShare (authorization : option string) (id : Z) (itemId : option Z).

Section Server.

(** The libraries the server calls: the jsonwebtoken package, evaluated
    at the time of the call, and [String.prototype.trim]. *)
Variable jwt_verify : Z -> string -> JwtResult.
Variable jwt_sign : Z -> Z -> string -> string.
Variable trim : string -> string.

Definition authMiddleware (now : Z) (authorization : option string) (s : Store)
  : AuthResult :=
  match truthy_str (bearer_token authorization) with
  | None => Denied unauthorized
  | Some token =>
    let body : Handler User :=
      payload <- match jwt_verify now token with
                 | JwtPayload userId _ => ret userId
                 | JsonWebTokenError | TokenExpiredError => throw JwtError
                 end ;;
      userId <- match payload with
                | Some userId => ret userId
                | None => throw ValidationError
                end ;;
      user <- user_findUnique_id userId ;;
      match user with
      | None => reply 401 (JError "Unauthorized")
      | Some user => ret user
      end in
    match body s with
    | (Value user, _) => Next user
    | (Sent r, _) => Denied r
    | (Thrown _, _) => Denied unauthorized
    end
  end.

(** [app.METHOD(path, authMiddleware, handler)] *)
Definition authenticated (now : Z) (authorization : option string)
    (handler : User -> Store -> Response * Store) : Store -> Response * Store :=
  fun s =>
    match authMiddleware now authorization s with
    | Next user => handler user s
    | Denied r => (r, s)
    end.

(** POST /api/auth/register; [passwordHash] is what [bcrypt.hash(password, 10)]
    returned for this call. *)
Definition register (now : Z) (name email password : option string)
    (passwordHash : string) : Store -> Response * Store :=
  match truthy_str name, truthy_str email, truthy_str password with
  | Some name, Some email, Some _ =>
    try_catch "Failed to register" (
      existing <- user_findUnique_email email ;;
      match existing with
      | Some _ => reply 409 (JError "Email already registered")
      | None =>
        user <- user_create now name email passwordHash ;;
        let token := jwt_sign now (user_id user) (user_email user) in
        ret (mkResponse 201 (JAuth token (user_id user) (user_name user) (user_email user)))
      end)
  | _, _, _ => send 400 (JError "name, email, password required")
  end.

(** POST /api/groups/:id/messages *)
Definition postMessage (now : Z) (user : User) (id : Z) (content : option string)
  : Store -> Response * Store :=
  match truthy_str content with
  | None => send 400 (JError "content required")
  | Some content =>
    match truthy_str (Some (trim content)) with
    | None => send 400 (JError "content required")
    | Some trimmed =>
      try_catch "Failed to post message" (
        group <- friendGroup_findUnique_include_members id ;;
        match group with
        | None => reply 404 (JError "group not found")
        | Some (g, ms) =>
          if negb (isOwner g user) && negb (isMember ms user)
          then reply 403 (JError "Not allowed")
          else
            message <- groupMessage_create now id (user_id user) trimmed ;;
            ret (mkResponse 201 (JMessage (fst message) (snd message)))
        end)
    end
  end.

(** The routes that write to the store, and the message listing.  The
    other routes (login, /api/me, the remaining GET listings, the share
    stub, the static fallback) issue find queries only. *)
Definition api (now : Z) (req : Request) : Store -> Response * Store :=
  match req with
  | PostRegister name email password passwordHash =>
      register now name email password passwordHash
  | PostDonation item quantity location => createDonation now item quantity location
  | GetCategories => listCategories now
  | PostItem a title categoryId expiresAt =>
      authenticated now a (fun user => createItem now user title categoryId expiresAt)
  | PatchItemStatus a id status =>
      authenticated now a (fun user => setItemStatus user id status)
  | PostGroup a name => authenticated now a (fun user => createGroup now user name)
  | PostMember a id userId tag =>
      authenticated now a (fun user => addMember now user id userId tag)
  | PostClaim a itemId => authenticated now a (fun user => createClaim now user itemId)
  | PostDecision a id decision =>
      authenticated now a (fun user => decideClaim now user id decision)
  | GetMessages a id => authenticated now a (fun user => listMessages user id)
  | PostMessage a id content =>
      authenticated now a (fun user => postMessage now user id content)
  | PostShare a id itemId =>
      authenticated now a (fun user => shareItemToGroup now user id itemId)
  end.

(** Stores the server can be in: the empty database, then any sequence
    of requests. *)
Inductive reachable : Store -> Prop :=
| reachable_init : reachable empty_store
| reachable_step s now req : reachable s -> reachable (snd (api now req s)).

End Server.

(** ** Properties of stores used in the statements *)

Definition has_user (s : Store) (id : Z) : bool :=
  existsb (fun u => user_id u =? id) (users s).
Definition has_item (s : Store) (id : Z) : bool :=
  existsb (fun i => item_id i =? id) (foodItems s).

(** The foreign keys of claims and messages resolve, and item ids are
    the positive numbers AUTOINCREMENT hands out. *)
Definition store_ok (s : Store) : bool :=
  forallb (fun c => has_item s (claim_itemId c) && has_user s (claim_claimerId c)) (claims s)
  && forallb (fun m => has_user s (msg_authorId m)) (groupMessages s)
  && forallb (fun i => 0 <? item_id i) (foodItems s).

(** Number of GroupShare rows for a pair (itemId, groupId). *)
Definition count_shares (itemId groupId : Z) (s : Store) : nat :=
  List.length (filter (shares_key itemId groupId) (groupShares s)).

(** The item a claim request names, if any. *)
Definition requested_item (itemId : option Z) (s : Store) : option FoodItem :=
  match itemId with
  | Some i => lookup_item i s
  | None => None
  end.

(** The group a caller may act in: it exists and the caller is its owner
    or one of its members. *)
Definition may_access (user : User) (id : Z) (s : Store) : bool :=
  match lookup_group id s with
  | None => false
  | Some g =>
    isOwner g user
    || isMember (filter (fun m => member_groupId m =? group_id g) (groupMembers s)) user
  end.

(** The messages of a group, oldest first. *)
Definition group_messages_asc (id : Z) (s : Store) : list GroupMessage :=
  sort_by createdAt_asc (filter (fun m => msg_groupId m =? id) (groupMessages s)).

(** A handler leaves [R] between the store before and after. *)
Definition preserves {A} (R : Store -> Store -> Prop) (m : Handler A) : Prop :=
  forall s, R s (snd (m s)).

(** Relations that hold across any sequence of store operations. *)
Class Frame (R : Store -> Store -> Prop) : Prop := {
  frame_refl : forall s, R s s;
  frame_trans : forall a b c, R a b -> R b c -> R a c }.

Definition same_items (s s' : Store) : Prop := foodItems s' = foodItems s.
Definition same_claims (s s' : Store) : Prop := claims s' = claims s.
Definition keeps_ok (s s' : Store) : Prop := store_ok s = true -> store_ok s' = true.

(** The unique index on GroupShare (itemId, groupId). *)
Definition shares_unique (s : Store) : Prop :=
  forall itemId groupId, (count_shares itemId groupId s <= 1)%nat.
Definition keeps_unique (s s' : Store) : Prop := shares_unique s -> shares_unique s'.

(** What a request may do to an item row: leave it, or give it the
    status its owner asked for, or mark it CLAIMED when its owner accepts
    a claim on it. *)
Definition item_change (jwt_verify : Z -> string -> JwtResult) (now : Z) (req : Request)
    (s : Store) (it it' : FoodItem) : Prop :=
  it' = it
  \/ (exists a status st user,
        req = PatchItemStatus a (item_id it) status
        /\ parse_status status = Some st
        /\ authMiddleware jwt_verify now a s = Next user
        /\ item_ownerId it = user_id user
        /\ it' = with_item_status st it)
  \/ (exists a id user c,
        req = PostDecision a id (Some "ACCEPTED")
        /\ authMiddleware jwt_verify now a s = Next user
        /\ lookup_claim id s = Some c
        /\ claim_itemId c = item_id it
        /\ item_ownerId it = user_id user
        /\ it' = with_item_status CLAIMED it).

(** What a request may do to a claim row: leave it, or record the
    decision of the owner of the claimed item, stamped with the time of
    the request. *)
Definition claim_change (jwt_verify : Z -> string -> JwtResult) (now : Z) (req : Request)
    (s : Store) (c c' : Claim) : Prop :=
  c' = c
  \/ (exists a decision d user it,
        req = PostDecision a (claim_id c) decision
        /\ parse_decision decision = Some d
        /\ authMiddleware jwt_verify now a s = Next user
        /\ lookup_item (claim_itemId c) s = Some it
        /\ item_ownerId it = user_id user
        /\ c' = with_claim_decision d now c).

(** ** A concrete deployment used for examples *)

Definition demo_verify (now : Z) (token : string) : JwtResult :=
  if String.eqb token "alice-token" then JwtPayload (Some 1) "alice@example.com"
  else if String.eqb token "bob-token" then JwtPayload (Some 2) "bob@example.com"
  else if String.eqb token "old-token" then TokenExpiredError
  else JsonWebTokenError.

Definition demo_sign (now : Z) (userId : Z) (email : string) : string :=
  if userId =? 1 then "alice-token" else if userId =? 2 then "bob-token" else "other-token".

Definition demo_trim (v : string) : string := v.

Definition demo_api := api demo_verify demo_sign demo_trim.

Definition run (reqs : list (Z * Request)) (s : Store) : Store :=
  fold_left (fun s r => snd (demo_api (fst r) (snd r) s)) reqs s.

Definition as_alice : option string := Some "Bearer alice-token".
Definition as_bob : option string := Some "Bearer bob-token".

Definition alice : User := mkUser 1 "Alice" "alice@example.com" "$2a$10$a" 1.
Definition bob : User := mkUser 2 "Bob" "bob@example.com" "$2a$10$b" 2.

(** Alice and Bob register; Alice stores milk and offers it; Bob claims
    it; Alice accepts. *)
Definition listed : Store :=
  run [ (1, PostRegister (Some "Alice") (Some "alice@example.com") (Some "pw-a") "$2a$10$a");
        (2, PostRegister (Some "Bob") (Some "bob@example.com") (Some "pw-b") "$2a$10$b");
        (3, PostItem as_alice (Some "Milk") None NoDate);
        (4, PatchItemStatus as_alice 1 (Some "AVAILABLE")) ]
      empty_store.
Definition offered : Store := run [(5, PostClaim as_bob (Some 1))] listed.
Definition accepted : Store := run [(6, PostDecision as_alice 1 (Some "ACCEPTED"))] offered.

(** Alice opens a group and posts [n] messages, one per tick from 10. *)
Definition chat (n : nat) : Store :=
  run ((1, PostRegister (Some "Alice") (Some "alice@example.com") (Some "pw-a") "$2a$10$a")
       :: (2, PostGroup as_alice (Some "Flat 4"))
       :: map (fun k => (Z.of_nat k, PostMessage as_alice 1 (Some "hello"))) (seq 10 n))
      empty_store.

(** The store after the claim row and, on acceptance, the item row were written. *)
Definition decided (d : ClaimStatus) (now id : Z) (c : Claim) (s : Store) : Store :=
  let s1 := set_claims
              (update_first (fun c => claim_id c =? id) (with_claim_decision d now) (claims s)) s in
  match d with
  | ACCEPTED =>
    set_foodItems
      (update_first (fun i => item_id i =? claim_itemId c) (with_item_status CLAIMED)
                    (foodItems s)) s1
  | _ => s1
  end.

(** The item row embedded in a claim-decision response. *)
Definition embedded_item (b : Body) : option FoodItem :=
  match b with
  | JClaimDecided _ it _ => Some it
  | _ => None
  end.

Definition milk : FoodItem := mkFoodItem 1 "Milk" AVAILABLE None 1 None 3.
Definition milk_claim : Claim := mkClaim 1 1 2 PENDING 5 None.

(** The store after a share request by an entitled caller. *)
Definition shared (now itemId groupId : Z) (s : Store) : Store :=
  match find (shares_key itemId groupId) (groupShares s) with
  | Some _ => s
  | None =>
    set_groupShares
      (groupShares s
       ++ [mkGroupShare (next_id (map share_id (groupShares s))) itemId groupId now]) s
  end.

(** Alice's group "Flat 4" with Bob as a member; Alice owns the milk. *)
Definition flat : Store :=
  run [ (7, PostGroup as_alice (Some "Flat 4"));
        (8, PostMember as_alice 1 (Some 2) None) ]
      offered.

(** The message rows a listing response carries. *)
Definition returned_messages (b : Body) : list GroupMessage :=
  match b with
  | JMessages ms => map fst ms
  | _ => []
  end.

(** What the specification asks of the listing: the [n] most recent
    messages of the group, oldest of them first. *)
Definition spec_most_recent (n : nat) (id : Z) (s : Store) : list GroupMessage :=
  let l := group_messages_asc id s in
  skipn (List.length l - n) l.

(** ** Routes that only read the store *)

(** The JSON bodies of the listing routes. *)
Inductive Payload :=
| PDonations (rows : list Donation)
| PItems (rows : list (FoodItem * option FoodCategory * list Claim))
| PExpiring (rows : list FoodItem)
| PItemsOwned (rows : list (FoodItem * User * option FoodCategory))
| PClaimsForOwner (rows : list (Claim * User * FoodItem))
| PClaimsMine (rows : list (Claim * FoodItem))
| PGroup (g : FriendGroup) (members : list (GroupMember * User)) (owner : User)
| PGroups (rows : list (FriendGroup * list (GroupMember * User) * User)).

(** What a listing route sends: an error reply, or [res.json(payload)]. *)
Inductive Reply :=
| Refused (r : Response)
| Listed (p : Payload).

(** [try { ... res.json(rows) } catch (err) { res.status(500).json({ error: msg }) }] *)
Definition try_catch_json (msg : string) (body : Handler Payload)
  : Store -> Reply * Store :=
  fun s =>
    match body s with
    | (Value p, s') => (Listed p, s')
    | (Sent r, s') => (Refused r, s')
    | (Thrown _, s') => (Refused (mkResponse 500 (JError msg)), s')
    end.

(** [orderBy: { createdAt: 'desc' }] *)
Definition donation_desc (a b : Donation) : bool := don_createdAt b <=? don_createdAt a.
Definition item_desc (a b : FoodItem) : bool := item_createdAt b <=? item_createdAt a.
Definition claim_desc (a b : Claim) : bool := claim_createdAt b <=? claim_createdAt a.
Definition share_desc (a b : GroupShare) : bool := share_createdAt b <=? share_createdAt a.
Definition group_desc (a b : FriendGroup) : bool := group_createdAt b <=? group_createdAt a.

(** [orderBy: { expiresAt: 'asc' }]; NULL sorts first. *)
Definition expiresAt_asc (a b : FoodItem) : bool :=
  match item_expiresAt a, item_expiresAt b with
  | Some x, Some y => x <=? y
  | None, _ => true
  | Some _, None => false
  end.

(** Rows with a required relation joined; no row for it fails the query. *)
Fixpoint join_required {A B} (f : A -> option B) (l : list A) : option (list (A * B)) :=
  match l with
  | [] => Some []
  | a :: r =>
    match f a, join_required f r with
    | Some b, Some r' => Some ((a, b) :: r')
    | _, _ => None
    end
  end.

(** [include: { category: true }], an optional relation. *)
Definition category_of (s : Store) (it : FoodItem) : option FoodCategory :=
  match item_categoryId it with
  | Some cid => lookup_category cid s
  | None => None
  end.

(** [include: { owner: true, category: true }] on item rows. *)
Definition with_owner_category (rows : list FoodItem)
  : Handler (list (FoodItem * User * option FoodCategory)) :=
  joined <- gets (fun s => join_required (fun it => lookup_user (item_ownerId it) s) rows) ;;
  joined <- required joined ;;
  gets (fun s => map (fun r => (fst r, snd r, category_of s (fst r))) joined).

(** [prisma.donation.findMany({ orderBy: { createdAt: 'desc' } })] *)
Definition donation_findMany : Handler (list Donation) :=
  gets (fun s => sort_by donation_desc (donations s)).

(** [prisma.foodItem.findMany({ where: { ownerId }, include: { category: true, claims: true },
                                orderBy: { createdAt: 'desc' } })] *)
Definition foodItem_findMany_owner (ownerId : Z)
  : Handler (list (FoodItem * option FoodCategory * list Claim)) :=
  gets (fun s =>
    map (fun it => (it, category_of s it,
                    filter (fun c => claim_itemId c =? item_id it) (claims s)))
        (sort_by item_desc (filter (fun it => item_ownerId it =? ownerId) (foodItems s)))).

(** The [where] clause of the expiring listing. *)
Definition expiring (ownerId until : Z) (it : FoodItem) : bool :=
  (item_ownerId it =? ownerId)
  && match item_expiresAt it with
     | Some e => e <=? until
     | None => false
     end
  && ItemStatus_eqb (item_status it) IN_FRIDGE.

(** [prisma.foodItem.findMany({ where: { ownerId, expiresAt: { lte: until }, status: 'IN_FRIDGE' },
                                orderBy: { expiresAt: 'asc' } })];
    an invalid Date is rejected. *)
Definition foodItem_findMany_expiring (ownerId : Z) (until : option Z)
  : Handler (list FoodItem) :=
  match until with
  | None => throw ValidationError
  | Some until =>
    gets (fun s => sort_by expiresAt_asc (filter (expiring ownerId until) (foodItems s)))
  end.

(** The [where] clause of the claim pool. *)
Definition claimable_by (userId : Z) (it : FoodItem) : bool :=
  ItemStatus_eqb (item_status it) AVAILABLE && negb (item_ownerId it =? userId).

(** [prisma.foodItem.findMany({ where: { status: 'AVAILABLE', ownerId: { not: userId } },
                                include: { owner: true, category: true },
                                orderBy: { createdAt: 'desc' } })] *)
Definition foodItem_findMany_available (userId : Z)
  : Handler (list (FoodItem * User * option FoodCategory)) :=
  rows <- gets (fun s => sort_by item_desc (filter (claimable_by userId) (foodItems s))) ;;
  with_owner_category rows.

(** The [where: { item: { ownerId } }] clause on claims. *)
Definition claim_on_item_of (s : Store) (ownerId : Z) (c : Claim) : bool :=
  match lookup_item (claim_itemId c) s with
  | Some it => item_ownerId it =? ownerId
  | None => false
  end.

(** [prisma.claim.findMany({ where: { item: { ownerId } }, include: { claimer: true, item: true },
                             orderBy: { createdAt: 'desc' } })] *)
Definition claim_findMany_for_owner (ownerId : Z) : Handler (list (Claim * User * FoodItem)) :=
  rows <- gets (fun s => sort_by claim_desc (filter (claim_on_item_of s ownerId) (claims s))) ;;
  claimers <- gets (fun s => join_required (fun c => lookup_user (claim_claimerId c) s) rows) ;;
  claimers <- required claimers ;;
  items <- gets (fun s => join_required (fun r => lookup_item (claim_itemId (fst r)) s) claimers) ;;
  items <- required items ;;
  ret (map (fun r => (fst (fst r), snd (fst r), snd r)) items).

(** [prisma.claim.findMany({ where: { claimerId }, include: { item: true },
                             orderBy: { createdAt: 'desc' } })] *)
Definition claim_findMany_mine (claimerId : Z) : Handler (list (Claim * FoodItem)) :=
  rows <- gets (fun s => sort_by claim_desc (filter (fun c => claim_claimerId c =? claimerId)
                                                    (claims s))) ;;
  items <- gets (fun s => join_required (fun c => lookup_item (claim_itemId c) s) rows) ;;
  required items.

(** [prisma.friendGroup.findUnique({ where: { id },
                                     include: { members: { include: { user: true } }, owner: true } })] *)
Definition friendGroup_findUnique_full (id : Z)
  : Handler (option (FriendGroup * list (GroupMember * User) * User)) :=
  g <- friendGroup_findUnique id ;;
  match g with
  | None => ret None
  | Some g =>
    ms <- gets (fun s => filter (fun m => member_groupId m =? group_id g) (groupMembers s)) ;;
    ms <- gets (fun s => join_required (fun m => lookup_user (member_userId m) s) ms) ;;
    ms <- required ms ;;
    owner <- user_findUnique_id (group_ownerId g) ;;
    owner <- required owner ;;
    ret (Some (g, ms, owner))
  end.

(** [prisma.groupShare.findMany({ where: { groupId },
                                  include: { item: { include: { owner: true, category: true } } },
                                  orderBy: { createdAt: 'desc' } })], then [shares.map((s) => s.item)] *)
Definition groupShare_findMany_items (groupId : Z)
  : Handler (list (FoodItem * User * option FoodCategory)) :=
  shares <- gets (fun s => sort_by share_desc (filter (fun sh => share_groupId sh =? groupId)
                                                      (groupShares s))) ;;
  items <- gets (fun s => join_required (fun sh => lookup_item (share_itemId sh) s) shares) ;;
  items <- required items ;;
  with_owner_category (map snd items).

(** [include: { members: { include: { user: true } }, owner: true }] for one group. *)
Definition group_full (s : Store) (g : FriendGroup)
  : option (FriendGroup * list (GroupMember * User) * User) :=
  match join_required (fun m => lookup_user (member_userId m) s)
                      (filter (fun m => member_groupId m =? group_id g) (groupMembers s)),
        lookup_user (group_ownerId g) s with
  | Some ms, Some owner => Some (g, ms, owner)
  | _, _ => None
  end.

(** [prisma.friendGroup.findMany({
       where: { OR: [{ ownerId: userId }, { members: { some: { userId } } }] },
       include: { members: { include: { user: true } }, owner: true },
       orderBy: { createdAt: 'desc' } })] *)
Definition friendGroup_findMany_mine (userId : Z)
  : Handler (list (FriendGroup * list (GroupMember * User) * User)) :=
  groups <- gets (fun s =>
    sort_by group_desc
      (filter (fun g =>
                 (group_ownerId g =? userId)
                 || existsb (fun m => (member_groupId m =? group_id g)
                                      && (member_userId m =? userId))
                            (groupMembers s))
              (friendGroups s))) ;;
  rows <- gets (fun s => join_required (group_full s) groups) ;;
  rows <- required rows ;;
  ret (map snd rows).

(** GET /api/donations *)
Definition listDonations : Store -> Reply * Store :=
  try_catch_json "Failed to fetch donations" (
    donations <- donation_findMany ;;
    ret (PDonations donations)).

(** GET /api/items *)
Definition listItems (user : User) : Store -> Reply * Store :=
  try_catch_json "Failed to fetch items" (
    items <- foodItem_findMany_owner (user_id user) ;;
    ret (PItems items)).

(** GET /api/items/expiring; [until] is the Date the handler computed
    from the clock and the [days] query parameter, [None] when that Date
    is invalid. *)
Definition listExpiring (user : User) (until : option Z) : Store -> Reply * Store :=
  try_catch_json "Failed to fetch expiring items" (
    items <- foodItem_findMany_expiring (user_id user) until ;;
    ret (PExpiring items)).

(** GET /api/items/available *)
Definition listAvailable (user : User) : Store -> Reply * Store :=
  try_catch_json "Failed to fetch available items" (
    items <- foodItem_findMany_available (user_id user) ;;
    ret (PItemsOwned items)).

(** GET /api/claims/for-owner *)
Definition listOwnerClaims (user : User) : Store -> Reply * Store :=
  try_catch_json "Failed to fetch claims" (
    claims <- claim_findMany_for_owner (user_id user) ;;
    ret (PClaimsForOwner claims)).

(** GET /api/claims/mine *)
Definition listMyClaims (user : User) : Store -> Reply * Store :=
  try_catch_json "Failed to fetch claims" (
    claims <- claim_findMany_mine (user_id user) ;;
    ret (PClaimsMine claims)).

(** GET /api/groups/:id *)
Definition getGroup (user : User) (id : Z) : Store -> Reply * Store :=
  try_catch_json "Failed to fetch group" (
    group <- friendGroup_findUnique_full id ;;
    match group with
    | None => reply 404 (JError "group not found")
    | Some (g, ms, owner) =>
      if negb (isOwner g user) && negb (isMember (map fst ms) user)
      then reply 403 (JError "Not allowed")
      else ret (PGroup g ms owner)
    end).

(** GET /api/groups/:id/items *)
Definition listGroupItems (user : User) (id : Z) : Store -> Reply * Store :=
  try_catch_json "Failed to fetch group items" (
    group <- friendGroup_findUnique_include_members id ;;
    match group with
    | None => reply 404 (JError "group not found")
    | Some (g, ms) =>
      if negb (isOwner g user) && negb (isMember ms user)
      then reply 403 (JError "Not allowed")
      else
        items <- groupShare_findMany_items id ;;
        ret (PItemsOwned items)
    end).

(** GET /api/groups *)
Definition listGroups (user : User) : Store -> Reply * Store :=
  try_catch_json "Failed to fetch groups" (
    groups <- friendGroup_findMany_mine (user_id user) ;;
    ret (PGroups groups)).

Section Login.

(** [bcrypt.compare(password, hash)] and [jwt.sign]. *)
Variable bcrypt_compare : string -> string -> bool.
Variable jwt_sign : Z -> Z -> string -> string.

(** POST /api/auth/login *)
Definition login (now : Z) (email password : option string) : Store -> Response * Store :=
  match truthy_str email, truthy_str password with
  | Some email, Some password =>
    try_catch "Failed to login" (
      user <- user_findUnique_email email ;;
      match user with
      | None => reply 401 (JError "Invalid credentials")
      | Some user =>
        if negb (bcrypt_compare password (user_passwordHash user))
        then reply 401 (JError "Invalid credentials")
        else
          let token := jwt_sign now (user_id user) (user_email user) in
          ret (mkResponse 200 (JAuth token (user_id user) (user_name user) (user_email user)))
      end)
  | _, _ => send 400 (JError "email and password required")
  end.

End Login.

(** ** Further properties of stores *)

Fixpoint distinct (l : list Z) : bool :=
  match l with
  | [] => true
  | x :: r => negb (existsb (Z.eqb x) r) && distinct r
  end.

(** The primary keys AUTOINCREMENT hands out never repeat. *)
Definition ids_distinct (s : Store) : bool :=
  distinct (map user_id (users s))
  && distinct (map item_id (foodItems s))
  && distinct (map claim_id (claims s))
  && distinct (map group_id (friendGroups s)).
Definition keeps_distinct (s s' : Store) : Prop :=
  ids_distinct s = true -> ids_distinct s' = true.

Definition has_category (s : Store) (id : Z) : bool :=
  existsb (fun c => cat_id c =? id) (foodCategories s).
Definition has_group (s : Store) (id : Z) : bool :=
  existsb (fun g => group_id g =? id) (friendGroups s).

(** The foreign keys of items, groups, members and shares resolve. *)
Definition joins_ok (s : Store) : bool :=
  forallb (fun i => has_user s (item_ownerId i)
                    && match item_categoryId i with
                       | Some c => has_category s c
                       | None => true
                       end) (foodItems s)
  && forallb (fun g => has_user s (group_ownerId g)) (friendGroups s)
  && forallb (fun m => has_user s (member_userId m) && has_group s (member_groupId m))
             (groupMembers s)
  && forallb (fun sh => has_item s (share_itemId sh) && has_group s (share_groupId sh))
             (groupShares s).
Definition keeps_joins (s s' : Store) : Prop := joins_ok s = true -> joins_ok s' = true.

(** The unique indexes on User.email and FoodCategory.name. *)
Definition emails_distinct (s : Store) : bool := negb (has_dup (map user_email (users s))).
Definition names_distinct (s : Store) : bool :=
  negb (has_dup (map cat_name (foodCategories s))).
Definition keeps_emails (s s' : Store) : Prop :=
  emails_distinct s = true -> emails_distinct s' = true.
Definition keeps_names (s s' : Store) : Prop :=
  names_distinct s = true -> names_distinct s' = true.

(** Number of membership rows of a user in a group. *)
Definition count_members (groupId userId : Z) (s : Store) : nat :=
  List.length (filter (fun m => (member_groupId m =? groupId) && (member_userId m =? userId))
                      (groupMembers s)).
Definition members_unique (s : Store) : Prop :=
  forall groupId userId, (count_members groupId userId s <= 1)%nat.
Definition keeps_members (s s' : Store) : Prop := members_unique s -> members_unique s'.

(** [l'] keeps the rows of [l] in place, each related by [K], and may
    add rows after them. *)
Definition extends {A} (K : A -> A -> Prop) (l l' : list A) : Prop :=
  exists rows added, l' = (rows ++ added)%list /\ Forall2 K l rows.

(** An item row keeps everything but its status; a claim row keeps
    everything but its status and decidedAt. *)
Definition item_kept (a b : FoodItem) : Prop := b = with_item_status (item_status b) a.
Definition claim_kept (a b : Claim) : Prop :=
  claim_id b = claim_id a /\ claim_itemId b = claim_itemId a
  /\ claim_claimerId b = claim_claimerId a /\ claim_createdAt b = claim_createdAt a.

(** No row is removed; rows other than items and claims never change. *)
Definition grows (s s' : Store) : Prop :=
  extends eq (users s) (users s')
  /\ extends eq (foodCategories s) (foodCategories s')
  /\ extends item_kept (foodItems s) (foodItems s')
  /\ extends eq (friendGroups s) (friendGroups s')
  /\ extends eq (groupMembers s) (groupMembers s')
  /\ extends claim_kept (claims s) (claims s')
  /\ extends eq (groupShares s) (groupShares s')
  /\ extends eq (groupMessages s) (groupMessages s')
  /\ extends eq (donations s) (donations s').

(** The rows a listing reply carries. *)
Definition listed_items (r : Reply) : list FoodItem :=
  match r with
  | Listed (PItems rows) => map (fun r => fst (fst r)) rows
  | Listed (PExpiring rows) => rows
  | Listed (PItemsOwned rows) => map (fun r => fst (fst r)) rows
  | _ => []
  end.
Definition listed_claims (r : Reply) : list Claim :=
  match r with
  | Listed (PClaimsForOwner rows) => map (fun r => fst (fst r)) rows
  | Listed (PClaimsMine rows) => map fst rows
  | _ => []
  end.
Definition listed_groups (r : Reply) : list FriendGroup :=
  match r with
  | Listed (PGroups rows) => map (fun r => fst (fst r)) rows
  | _ => []
  end.
Definition is_listed (r : Reply) : bool :=
  match r with
  | Listed _ => true
  | Refused _ => false
  end.

(** The store after a sequence of requests, each with its clock reading. *)
Definition serve (jwt_verify : Z -> string -> JwtResult) (jwt_sign : Z -> Z -> string -> string)
    (trim : string -> string) (reqs : list (Z * Request)) (s : Store) : Store :=
  fold_left (fun s r => snd (api jwt_verify jwt_sign trim (fst r) (snd r) s)) reqs s.

(** Bob claims the milk a second time. *)
Definition claimed_twice : Store := run [(6, PostClaim as_bob (Some 1))] offered.

(** A user who is in no group. *)
Definition carol_row : User := mkUser 3 "Carol" "carol@example.com" "$2a$10$c" 9.

(** A signer and verifier that keep the clock, for examples: the token
    is [<issued at>.<userId>.<email>], and it is accepted for seven days
    ([expiresIn: '7d'], the clock counting seconds). *)
Definition seven_days : Z := 7 * 24 * 60 * 60.

Definition dated_sign (now userId : Z) (email : string) : string :=
  NilZero.string_of_int (Z.to_int now) ++ "."
  ++ NilZero.string_of_int (Z.to_int userId) ++ "." ++ email.

(** The text before the first dot and the text after it. *)
Definition cut_at_dot (v : string) : option (string * string) :=
  match String.index 0 "." v with
  | Some n => Some (String.substring 0 n v,
                    String.substring (S n) (String.length v - S n) v)
  | None => None
  end.

Definition number_of (v : string) : option Z :=
  option_map Z.of_int (NilZero.int_of_string v).

Definition dated_verify (now : Z) (token : string) : JwtResult :=
  match cut_at_dot token with
  | Some (issued, rest) =>
    match cut_at_dot rest with
    | Some (userId, email) =>
      match number_of issued, number_of userId with
      | Some t, Some i =>
        if now <? t + seven_days then JwtPayload (Some i) email else TokenExpiredError
      | _, _ => JsonWebTokenError
      end
    | None => JsonWebTokenError
    end
  | None => JsonWebTokenError
  end.

(** * Lemmas *)

(** ** Rows found and rows updated *)

Section UpdateFirst.
Context {A : Type} (p : A -> bool) (f : A -> A).

Lemma find_update_first (l : list A) (x : A) :
  find p l = Some x -> p (f x) = true ->
  find p (update_first p f l) = Some (f x).
Proof.
  induction l as [|a l IH]; simpl; [discriminate|].
  destruct (p a) eqn:Hpa; intros Hfind Hfx.
  - injection Hfind as ->. simpl. now rewrite Hfx.
  - simpl. rewrite Hpa. auto.
Qed.

(** Only the row that [find] returns changes, and it changes by [f]. *)
Lemma update_first_rows (l : list A) (x : A) :
  find p l = Some x ->
  Forall2 (fun a b => b = a \/ (a = x /\ b = f a)) l (update_first p f l).
Proof.
  induction l as [|a l IH]; simpl; [discriminate|].
  destruct (p a) eqn:Hpa; intros Hfind.
  - injection Hfind as ->. constructor; [now right|].
    clear. induction l; constructor; auto.
  - constructor; [now left|auto].
Qed.

End UpdateFirst.

Lemma Forall2_same {A} (R : A -> A -> Prop) (l : list A) :
  (forall a, R a a) -> Forall2 R l l.
Proof. intros H. induction l; constructor; auto. Qed.

Lemma Forall2_weaken {A B} (R R' : A -> B -> Prop) l l' :
  (forall a b, R a b -> R' a b) -> Forall2 R l l' -> Forall2 R' l l'.
Proof. intros H HF. induction HF; constructor; auto. Qed.

Lemma existsb_find {A} (p : A -> bool) (l : list A) :
  existsb p l = true -> exists x, find p l = Some x.
Proof.
  induction l as [|a l IH]; simpl; [discriminate|].
  destruct (p a); simpl; eauto.
Qed.

Lemma find_existsb {A} (p : A -> bool) (l : list A) (x : A) :
  find p l = Some x -> existsb p l = true.
Proof.
  induction l as [|a l IH]; simpl; [discriminate|].
  destruct (p a); simpl; auto.
Qed.

Lemma existsb_app_l {A} (p : A -> bool) (l l' : list A) :
  existsb p l = true -> existsb p (l ++ l') = true.
Proof. intros H. rewrite existsb_app, H. reflexivity. Qed.

Lemma find_app_none {A} (p : A -> bool) (l l' : list A) :
  find p l = None -> find p (l ++ l') = find p l'.
Proof.
  induction l as [|a l IH]; simpl; [reflexivity|].
  destruct (p a); [discriminate|auto].
Qed.

Lemma find_none_filter {A} (p : A -> bool) (l : list A) :
  find p l = None -> filter p l = [].
Proof.
  induction l as [|a l IH]; simpl; [reflexivity|].
  destruct (p a); [discriminate|auto].
Qed.

Lemma find_some_filter {A} (p : A -> bool) (l : list A) (x : A) :
  find p l = Some x -> (1 <= List.length (filter p l))%nat.
Proof.
  induction l as [|a l IH]; simpl; [discriminate|].
  destruct (p a); simpl; [lia|auto].
Qed.

Lemma lookup_user_id id s u : lookup_user id s = Some u -> user_id u = id.
Proof. intros H. apply find_some in H. lia. Qed.

Lemma lookup_item_id id s it : lookup_item id s = Some it -> item_id it = id.
Proof. intros H. apply find_some in H. lia. Qed.

Lemma lookup_claim_id id s c : lookup_claim id s = Some c -> claim_id c = id.
Proof. intros H. apply find_some in H. lia. Qed.

Lemma lookup_user_self id s u : lookup_user id s = Some u -> lookup_user (user_id u) s = Some u.
Proof. intros H. now rewrite (lookup_user_id _ _ _ H). Qed.

(** ** Deciding a claim *)

Lemma store_ok_claimer s id c :
  store_ok s = true -> lookup_claim id s = Some c ->
  exists u, lookup_user (claim_claimerId c) s = Some u.
Proof.
  unfold store_ok. intros Hok Hc.
  apply andb_prop in Hok as [Hok _]. apply andb_prop in Hok as [Hok _].
  rewrite forallb_forall in Hok.
  apply find_some in Hc as [Hin _]. apply Hok in Hin.
  apply andb_prop in Hin as [_ Hu]. now apply existsb_find in Hu.
Qed.

Lemma decideClaim_by_owner now user id decision d c it u s :
  parse_decision decision = Some d ->
  lookup_claim id s = Some c ->
  lookup_item (claim_itemId c) s = Some it ->
  lookup_user (claim_claimerId c) s = Some u ->
  item_ownerId it = user_id user ->
  decideClaim now user id decision s =
    (mkResponse 200 (JClaimDecided (with_claim_decision d now c) it u), decided d now id c s).
Proof.
  intros Hd Hc Hit Hu Hown.
  assert (Hd' : d = ACCEPTED \/ d = REJECTED).
  { unfold parse_decision in Hd. destruct decision as [v|]; [|discriminate].
    destruct (String.eqb v "ACCEPTED"); [injection Hd as <-; auto|].
    destruct (String.eqb v "REJECTED"); [injection Hd as <-; auto|discriminate]. }
  unfold decideClaim. rewrite Hd.
  unfold try_catch, claim_findUnique_include_item, claim_update_decision,
    foodItem_update_id, claim_findUnique, foodItem_findUnique, user_findUnique_id,
    required, bind, gets, modify, ret, reply, throw.
  simpl. rewrite Hc. simpl. rewrite Hit. simpl.
  rewrite Hown, Z.eqb_refl. simpl. rewrite Hc. simpl.
  change (lookup_item (claim_itemId c) (set_claims ?v s))
    with (lookup_item (claim_itemId c) s).
  rewrite Hit. simpl.
  change (lookup_user (claim_claimerId c) (set_claims ?v s))
    with (lookup_user (claim_claimerId c) s).
  rewrite Hu. simpl.
  destruct Hd' as [-> | ->]; [|reflexivity].
  simpl.
  change (lookup_item (claim_itemId c) (set_claims ?v s))
    with (lookup_item (claim_itemId c) s).
  rewrite Hit. reflexivity.
Qed.

Lemma decideClaim_not_owner now user id decision d c it s :
  parse_decision decision = Some d ->
  lookup_claim id s = Some c ->
  lookup_item (claim_itemId c) s = Some it ->
  item_ownerId it <> user_id user ->
  decideClaim now user id decision s = (mkResponse 403 (JError "Not allowed"), s).
Proof.
  intros Hd Hc Hit Hown.
  unfold decideClaim. rewrite Hd.
  unfold try_catch, claim_findUnique_include_item, claim_findUnique, foodItem_findUnique,
    required, bind, gets, ret, reply.
  simpl. rewrite Hc. simpl. rewrite Hit. simpl.
  apply Z.eqb_neq in Hown. rewrite Hown. reflexivity.
Qed.

(** C1: when the caller owns the claimed item, deciding ACCEPTED marks
    the claim ACCEPTED with decidedAt set and marks the item CLAIMED;
    deciding REJECTED marks the claim REJECTED with decidedAt set and
    writes nothing but that claim row, so the item keeps its status; a
    caller who does not own the item gets 403 for either decision and
    the store stays as it was. *)
Theorem decideClaim_transitions now user id c it s :
  store_ok s = true ->
  lookup_claim id s = Some c ->
  lookup_item (claim_itemId c) s = Some it ->
  (item_ownerId it = user_id user ->
     (exists r s' c' it',
        decideClaim now user id (Some "ACCEPTED") s = (r, s')
        /\ res_status r = 200
        /\ lookup_claim id s' = Some c'
        /\ claim_status c' = ACCEPTED /\ claim_decidedAt c' = Some now
        /\ lookup_item (claim_itemId c) s' = Some it'
        /\ item_status it' = CLAIMED)
     /\
     (exists r s' c',
        decideClaim now user id (Some "REJECTED") s = (r, s')
        /\ res_status r = 200
        /\ lookup_claim id s' = Some c'
        /\ claim_status c' = REJECTED /\ claim_decidedAt c' = Some now
        /\ s' = set_claims (claims s') s
        /\ Forall2 (fun a b => b = a \/ (a = c /\ b = with_claim_decision REJECTED now a))
                   (claims s) (claims s')
        /\ lookup_item (claim_itemId c) s' = Some it))
  /\
  (item_ownerId it <> user_id user ->
     forall decision, In decision ["ACCEPTED"; "REJECTED"] ->
       decideClaim now user id (Some decision) s
       = (mkResponse 403 (JError "Not allowed"), s)).
Proof.
  intros Hok Hc Hit.
  destruct (store_ok_claimer _ _ _ Hok Hc) as [u Hu].
  assert (Hfc : forall d,
             lookup_claim id (decided d now id c s) = Some (with_claim_decision d now c)).
  { intros d. unfold lookup_claim.
    replace (claims (decided d now id c s))
      with (update_first (fun c => claim_id c =? id) (with_claim_decision d now) (claims s))
      by (destruct d; reflexivity).
    apply find_update_first; [exact Hc|].
    simpl. apply Z.eqb_eq. now apply lookup_claim_id in Hc. }
  split.
  - intros Hown. split.
    + exists (mkResponse 200 (JClaimDecided (with_claim_decision ACCEPTED now c) it u)),
        (decided ACCEPTED now id c s), (with_claim_decision ACCEPTED now c),
        (with_item_status CLAIMED it).
      split; [now apply decideClaim_by_owner|].
      repeat split; [apply Hfc|].
      unfold lookup_item, decided. simpl.
      apply find_update_first; [exact Hit|].
      simpl. apply Z.eqb_eq. now apply lookup_item_id in Hit.
    + exists (mkResponse 200 (JClaimDecided (with_claim_decision REJECTED now c) it u)),
        (decided REJECTED now id c s), (with_claim_decision REJECTED now c).
      split; [now apply decideClaim_by_owner|].
      repeat split; [apply Hfc| |exact Hit].
      simpl. now apply update_first_rows.
  - intros Hown decision [<- | [<- | []]].
    + now apply (decideClaim_not_owner now user id _ ACCEPTED c it s).
    + now apply (decideClaim_not_owner now user id _ REJECTED c it s).
Qed.

Lemma decideClaim_transitions_witness :
  (exists r s',
     decideClaim 6 alice 1 (Some "REJECTED") offered = (r, s')
     /\ lookup_item 1 s' = Some milk)
  /\ decideClaim 6 bob 1 (Some "ACCEPTED") offered
     = (mkResponse 403 (JError "Not allowed"), offered).
Proof.
  assert (Hok : store_ok offered = true) by (vm_compute; reflexivity).
  assert (Hc : lookup_claim 1 offered = Some milk_claim) by (vm_compute; reflexivity).
  assert (Hit : lookup_item (claim_itemId milk_claim) offered = Some milk)
    by (vm_compute; reflexivity).
  split.
  - destruct (decideClaim_transitions 6 alice 1 milk_claim milk offered Hok Hc Hit)
      as [Howner _].
    destruct (Howner eq_refl) as [_ (r & s' & c' & Hrun & _ & _ & _ & _ & _ & _ & Hitem)].
    exists r, s'. split; [exact Hrun|exact Hitem].
  - destruct (decideClaim_transitions 6 bob 1 milk_claim milk offered Hok Hc Hit)
      as [_ Hother].
    apply Hother; [vm_compute; discriminate|simpl; auto].
Defined.

(** C10: when the owner accepts a claim, the item embedded in the
    response is the row as it was before the acceptance (so it still
    says AVAILABLE when the item was AVAILABLE), while the store already
    holds the item as CLAIMED: the claim row and its joined item are
    read for the response before the item row is written. *)
Theorem decideClaim_response_item_stale now user id c it s :
  store_ok s = true ->
  lookup_claim id s = Some c ->
  lookup_item (claim_itemId c) s = Some it ->
  item_ownerId it = user_id user ->
  exists r s',
    decideClaim now user id (Some "ACCEPTED") s = (r, s')
    /\ res_status r = 200
    /\ embedded_item (res_body r) = Some it
    /\ (item_status it = AVAILABLE ->
        option_map item_status (embedded_item (res_body r)) = Some AVAILABLE)
    /\ option_map item_status (lookup_item (claim_itemId c) s') = Some CLAIMED.
Proof.
  intros Hok Hc Hit Hown.
  destruct (store_ok_claimer _ _ _ Hok Hc) as [u Hu].
  exists (mkResponse 200 (JClaimDecided (with_claim_decision ACCEPTED now c) it u)),
    (decided ACCEPTED now id c s).
  split; [now apply decideClaim_by_owner|].
  repeat split.
  - simpl. now intros ->.
  - unfold lookup_item, decided. simpl.
    erewrite find_update_first; [reflexivity|exact Hit|].
    simpl. apply Z.eqb_eq. now apply lookup_item_id in Hit.
Qed.

Lemma decideClaim_response_item_stale_witness :
  exists r s',
    decideClaim 6 alice 1 (Some "ACCEPTED") offered = (r, s')
    /\ option_map item_status (embedded_item (res_body r)) = Some AVAILABLE
    /\ option_map item_status (lookup_item 1 s') = Some CLAIMED.
Proof.
  assert (Hok : store_ok offered = true) by (vm_compute; reflexivity).
  assert (Hc : lookup_claim 1 offered = Some milk_claim) by (vm_compute; reflexivity).
  assert (Hit : lookup_item (claim_itemId milk_claim) offered = Some milk)
    by (vm_compute; reflexivity).
  destruct (decideClaim_response_item_stale 6 alice 1 milk_claim milk offered
              Hok Hc Hit eq_refl) as (r & s' & Hrun & _ & _ & Hav & Hst).
  exists r, s'. repeat split; [exact Hrun|apply Hav; reflexivity|exact Hst].
Defined.

(** ** Setting an item's status *)

Lemma setItemStatus_run user id status st s :
  parse_status status = Some st ->
  setItemStatus user id status s =
    match find (owned_item id (user_id user)) (foodItems s) with
    | None => (mkResponse 500 (JError "Failed to update item"), s)
    | Some it =>
      (mkResponse 200 (JItem (with_item_status st it)),
       set_foodItems (update_first (owned_item id (user_id user)) (with_item_status st)
                                   (foodItems s)) s)
    end.
Proof.
  intros Hst. unfold setItemStatus. rewrite Hst.
  unfold try_catch, foodItem_update_id_ownerId, bind, gets, modify, ret, throw.
  simpl. now destruct (find _ (foodItems s)).
Qed.

(** C2, as the specification states it, fails: Bob asks to change the
    status of item 1, which exists and belongs to Alice; the update
    finds no row under the compound key, Prisma throws, and the handler's
    catch answers 500, not 404. *)
Lemma setItemStatus_not_owner_counterexample :
  lookup_item 1 offered = Some milk
  /\ item_ownerId milk <> user_id bob
  /\ setItemStatus bob 1 (Some "AVAILABLE") offered
     = (mkResponse 500 (JError "Failed to update item"), offered)
  /\ res_status (fst (setItemStatus bob 1 (Some "AVAILABLE") offered)) <> 404.
Proof.
  repeat split; try (vm_compute; reflexivity); vm_compute; discriminate.
Qed.

(** C2 (amended): with a valid status, a request for an item that is
    not the caller's is answered 500 "Failed to update item" and leaves
    the store as it was, whether or not the id exists for another owner;
    otherwise exactly the row with the given id and the caller's ownerId
    gets the new status and is returned with 200. *)
Theorem setItemStatus_scoped user id status st s :
  parse_status status = Some st ->
  (find (owned_item id (user_id user)) (foodItems s) = None ->
     setItemStatus user id status s
     = (mkResponse 500 (JError "Failed to update item"), s))
  /\
  (forall it, find (owned_item id (user_id user)) (foodItems s) = Some it ->
     item_id it = id /\ item_ownerId it = user_id user
     /\ exists s',
         setItemStatus user id status s
         = (mkResponse 200 (JItem (with_item_status st it)), s')
         /\ s' = set_foodItems (foodItems s') s
         /\ Forall2 (fun a b => b = a \/ (a = it /\ b = with_item_status st a))
                    (foodItems s) (foodItems s')).
Proof.
  intros Hst. rewrite (setItemStatus_run user id status st s Hst).
  split.
  - now intros ->.
  - intros it Hfind. rewrite Hfind.
    pose proof (find_some _ _ Hfind) as [_ Hp].
    unfold owned_item in Hp. apply andb_prop in Hp as [Hid Hown].
    apply Z.eqb_eq in Hid, Hown.
    repeat split; auto.
    eexists. split; [reflexivity|]. split; [reflexivity|].
    simpl. now apply update_first_rows.
Qed.

Lemma setItemStatus_scoped_witness :
  setItemStatus bob 1 (Some "CLAIMED") offered
  = (mkResponse 500 (JError "Failed to update item"), offered).
Proof.
  assert (Hst : parse_status (Some "CLAIMED") = Some CLAIMED) by reflexivity.
  destruct (setItemStatus_scoped bob 1 (Some "CLAIMED") CLAIMED offered Hst) as [Hnone _].
  apply Hnone. vm_compute. reflexivity.
Defined.

(** ** Creating a claim *)

Lemma store_ok_item_pos s i it :
  store_ok s = true -> lookup_item i s = Some it -> 0 < i.
Proof.
  unfold store_ok. intros Hok Hit.
  apply andb_prop in Hok as [_ Hpos]. rewrite forallb_forall in Hpos.
  pose proof (lookup_item_id _ _ _ Hit) as <-.
  apply find_some in Hit as [Hin _]. apply Hpos in Hin. lia.
Qed.

Lemma truthy_num_pos i : i <> 0 -> truthy_num (Some i) = Some i.
Proof. intros H. unfold truthy_num. apply Z.eqb_neq in H. now rewrite H. Qed.

Lemma ItemStatus_eqb_eq a b : ItemStatus_eqb a b = true <-> a = b.
Proof. destruct a, b; simpl; split; congruence. Qed.

(** The claim row a successful request inserts. *)
Lemma createClaim_cases now user itemId s :
  createClaim now user itemId s =
    match truthy_num itemId with
    | None => (mkResponse 400 (JError "itemId required"), s)
    | Some i =>
      match lookup_item i s with
      | None => (mkResponse 400 (JError "Item not available"), s)
      | Some it =>
        if negb (ItemStatus_eqb (item_status it) AVAILABLE)
        then (mkResponse 400 (JError "Item not available"), s)
        else if item_ownerId it =? user_id user
        then (mkResponse 400 (JError "Cannot claim own item"), s)
        else
          match lookup_user (user_id user) s with
          | None => (mkResponse 500 (JError "Failed to create claim"), s)
          | Some u =>
            let c := mkClaim (next_id (map claim_id (claims s))) i (user_id user)
                             PENDING now None in
            (mkResponse 201 (JClaimWithClaimer c u), set_claims (claims s ++ [c]) s)
          end
      end
    end.
Proof.
  unfold createClaim. destruct (truthy_num itemId) as [i|]; [|reflexivity].
  unfold try_catch, claim_create, foodItem_findUnique, user_findUnique_id,
    bind, gets, modify, ret, reply, throw.
  simpl. destruct (lookup_item i s) as [it|] eqn:Hit; [|reflexivity]. simpl.
  destruct (negb (ItemStatus_eqb (item_status it) AVAILABLE)); [reflexivity|].
  destruct (item_ownerId it =? user_id user); [reflexivity|].
  simpl. rewrite Hit. now destruct (lookup_user (user_id user) s).
Qed.

(** C4: a claim request is answered 400 and changes nothing when the
    item does not exist (for an item id that is a safe integer, which
    Prisma takes as an argument), when its status is not AVAILABLE, and
    when the caller owns it; no failing request changes the store;
    otherwise a PENDING claim by the caller is inserted and returned,
    with the claimer joined, under 201. *)
Theorem createClaim_spec now user itemId s :
  (forall it,
     (requested_item itemId s = None /\ safe_id itemId = true)
     \/ (requested_item itemId s = Some it /\ item_status it <> AVAILABLE)
     \/ (requested_item itemId s = Some it /\ item_ownerId it = user_id user) ->
     res_status (fst (createClaim now user itemId s)) = 400
     /\ snd (createClaim now user itemId s) = s)
  /\
  (res_status (fst (createClaim now user itemId s)) <> 201 ->
     snd (createClaim now user itemId s) = s)
  /\
  (forall it,
     store_ok s = true ->
     lookup_user (user_id user) s = Some user ->
     requested_item itemId s = Some it ->
     item_status it = AVAILABLE ->
     item_ownerId it <> user_id user ->
     exists c,
       createClaim now user itemId s
       = (mkResponse 201 (JClaimWithClaimer c user), set_claims (claims s ++ [c]) s)
       /\ claim_status c = PENDING /\ claim_decidedAt c = None
       /\ claim_itemId c = item_id it /\ claim_claimerId c = user_id user).
Proof.
  rewrite createClaim_cases. split; [|split].
  - intros it H. destruct itemId as [i|]; simpl; [|auto].
    unfold requested_item in H.
    destruct (i =? 0); [auto|].
    destruct H as [[H _] | [[H Hst] | [H Hown]]]; rewrite H; [auto| |].
    + destruct (ItemStatus_eqb (item_status it) AVAILABLE) eqn:E; simpl; [|auto].
      apply ItemStatus_eqb_eq in E. contradiction.
    + destruct (negb (ItemStatus_eqb (item_status it) AVAILABLE)); [auto|].
      apply Z.eqb_eq in Hown. rewrite Hown. auto.
  - destruct (truthy_num itemId) as [i|]; [|reflexivity].
    destruct (lookup_item i s) as [it|]; [|reflexivity].
    destruct (negb (ItemStatus_eqb (item_status it) AVAILABLE)); [reflexivity|].
    destruct (item_ownerId it =? user_id user); [reflexivity|].
    destruct (lookup_user (user_id user) s); [|reflexivity].
    simpl. congruence.
  - intros it Hok Hu Hreq Hst Hown.
    destruct itemId as [i|]; [|discriminate]. simpl in Hreq.
    pose proof (store_ok_item_pos _ _ _ Hok Hreq) as Hpos.
    rewrite truthy_num_pos by lia. rewrite Hreq, Hst. simpl.
    apply Z.eqb_neq in Hown. rewrite Hown, Hu.
    eexists. split; [reflexivity|]. simpl.
    pose proof (lookup_item_id _ _ _ Hreq). auto.
Qed.

Lemma createClaim_spec_witness :
  (exists c,
     createClaim 5 bob (Some 1) listed
     = (mkResponse 201 (JClaimWithClaimer c bob), set_claims (claims listed ++ [c]) listed)
     /\ claim_status c = PENDING)
  /\ res_status (fst (createClaim 5 bob (Some 7) listed)) = 400
  /\ snd (createClaim 5 bob (Some 7) listed) = listed.
Proof.
  split.
  - destruct (createClaim_spec 5 bob (Some 1) listed) as (_ & _ & Hcreate).
    destruct (Hcreate milk) as (c & Hrun & Hst & _);
      try (vm_compute; reflexivity); [vm_compute; discriminate|].
    exists c. split; [exact Hrun|exact Hst].
  - destruct (createClaim_spec 5 bob (Some 7) listed) as (Hbad & _).
    apply (Hbad milk). left. split; vm_compute; reflexivity.
Defined.

(** ** Sharing an item to a group *)

Lemma shareItemToGroup_cases now user id itemId s :
  shareItemToGroup now user id itemId s =
    match truthy_num itemId with
    | None => (mkResponse 400 (JError "itemId required"), s)
    | Some i =>
      match lookup_group id s with
      | None => (mkResponse 404 (JError "group not found"), s)
      | Some _ =>
        if negb (may_access user id s)
        then (mkResponse 403 (JError "Not allowed"), s)
        else
          match lookup_item i s with
          | None => (mkResponse 403 (JError "You can share only your own items"), s)
          | Some it =>
            if negb (item_ownerId it =? user_id user)
            then (mkResponse 403 (JError "You can share only your own items"), s)
            else (mkResponse 201 JOk, shared now i id s)
          end
      end
    end.
Proof.
  unfold shareItemToGroup, may_access.
  destruct (truthy_num itemId) as [i|]; [|reflexivity].
  unfold try_catch, friendGroup_findUnique_include_members, groupShare_upsert,
    friendGroup_findUnique, foodItem_findUnique, bind, gets, modify, ret, reply, throw.
  simpl. destruct (lookup_group id s) as [g|] eqn:Hg; [|reflexivity]. simpl.
  rewrite negb_orb.
  destruct (negb (isOwner g user) && negb (isMember _ user)); [reflexivity|].
  simpl. destruct (lookup_item i s) as [it|] eqn:Hit; [|reflexivity]. simpl.
  destruct (negb (item_ownerId it =? user_id user)); [reflexivity|].
  unfold shared. simpl.
  destruct (find (shares_key i id) (groupShares s)); [reflexivity|].
  simpl. rewrite Hit, Hg. reflexivity.
Qed.

Lemma shared_found now itemId groupId s :
  exists sh, find (shares_key itemId groupId) (groupShares (shared now itemId groupId s)) = Some sh.
Proof.
  unfold shared.
  destruct (find (shares_key itemId groupId) (groupShares s)) as [sh|] eqn:Hf.
  - now exists sh.
  - simpl. rewrite find_app_none by exact Hf. simpl.
    unfold shares_key at 1. simpl. rewrite !Z.eqb_refl. simpl. eauto.
Qed.

Lemma shared_count now itemId groupId s :
  (count_shares itemId groupId s <= 1)%nat ->
  count_shares itemId groupId (shared now itemId groupId s) = 1%nat.
Proof.
  unfold count_shares, shared. intros Hle.
  destruct (find (shares_key itemId groupId) (groupShares s)) as [sh|] eqn:Hf.
  - apply find_some_filter in Hf. lia.
  - simpl. rewrite filter_app, (find_none_filter _ _ Hf). simpl.
    unfold shares_key at 1. simpl. now rewrite !Z.eqb_refl.
Qed.

Lemma shared_frame now itemId groupId s :
  users (shared now itemId groupId s) = users s
  /\ foodItems (shared now itemId groupId s) = foodItems s
  /\ friendGroups (shared now itemId groupId s) = friendGroups s
  /\ groupMembers (shared now itemId groupId s) = groupMembers s.
Proof.
  unfold shared. now destruct (find _ (groupShares s)).
Qed.

(** C5: a share request succeeds only for a caller who is the group's
    owner or a member and who owns the item; a caller with access to the
    group who does not own the item gets 403 and nothing is stored; and
    an entitled caller's request succeeds every time: the second request
    with the same item and group changes nothing, and one GroupShare row
    stands for the pair. *)
Theorem shareItemToGroup_spec now now' user id itemId s :
  store_ok s = true ->
  (count_shares itemId id s <= 1)%nat ->
  (res_status (fst (shareItemToGroup now user id (Some itemId) s)) = 201 ->
     may_access user id s = true
     /\ exists it, lookup_item itemId s = Some it /\ item_ownerId it = user_id user)
  /\
  (forall it,
     may_access user id s = true ->
     lookup_item itemId s = Some it ->
     item_ownerId it <> user_id user ->
     shareItemToGroup now user id (Some itemId) s
     = (mkResponse 403 (JError "You can share only your own items"), s))
  /\
  (forall it,
     may_access user id s = true ->
     lookup_item itemId s = Some it ->
     item_ownerId it = user_id user ->
     exists s1,
       shareItemToGroup now user id (Some itemId) s = (mkResponse 201 JOk, s1)
       /\ shareItemToGroup now' user id (Some itemId) s1 = (mkResponse 201 JOk, s1)
       /\ count_shares itemId id s1 = 1%nat).
Proof.
  intros Hok Hcount.
  assert (Hgroup : forall s0, may_access user id s0 = true ->
                              exists g, lookup_group id s0 = Some g).
  { intros s0. unfold may_access. destruct (lookup_group id s0); [eauto|discriminate]. }
  split; [|split].
  - rewrite shareItemToGroup_cases.
    destruct (truthy_num (Some itemId)) as [i|] eqn:Hi; [|simpl; discriminate].
    assert (i = itemId) as ->.
    { unfold truthy_num in Hi. destruct (itemId =? 0); congruence. }
    destruct (lookup_group id s); [|simpl; discriminate].
    destruct (may_access user id s); [|simpl; discriminate].
    destruct (lookup_item itemId s) as [it|]; [|simpl; discriminate].
    destruct (item_ownerId it =? user_id user) eqn:Hown; [|simpl; discriminate].
    intros _. split; [reflexivity|]. exists it. split; [reflexivity|].
    now apply Z.eqb_eq.
  - intros it Hacc Hit Hown.
    rewrite shareItemToGroup_cases.
    pose proof (store_ok_item_pos _ _ _ Hok Hit).
    rewrite truthy_num_pos by lia.
    destruct (Hgroup s Hacc) as [g ->]. rewrite Hacc, Hit.
    apply Z.eqb_neq in Hown. now rewrite Hown.
  - intros it Hacc Hit Hown.
    pose proof (store_ok_item_pos _ _ _ Hok Hit).
    exists (shared now itemId id s).
    destruct (shared_frame now itemId id s) as (Hu & Hi & Hg & Hm).
    assert (Hacc' : may_access user id (shared now itemId id s) = true).
    { unfold may_access, lookup_group in *. now rewrite Hg, Hm. }
    assert (Hit' : lookup_item itemId (shared now itemId id s) = Some it).
    { unfold lookup_item in *. now rewrite Hi. }
    apply Z.eqb_eq in Hown.
    split; [|split].
    + rewrite shareItemToGroup_cases, truthy_num_pos by lia.
      destruct (Hgroup s Hacc) as [g ->]. now rewrite Hacc, Hit, Hown.
    + rewrite shareItemToGroup_cases, truthy_num_pos by lia.
      destruct (Hgroup _ Hacc') as [g ->]. rewrite Hacc', Hit', Hown. simpl.
      f_equal. unfold shared at 1.
      now destruct (shared_found now itemId id s) as [sh ->].
    + now apply shared_count.
Qed.

Lemma shareItemToGroup_spec_witness :
  shareItemToGroup 9 bob 1 (Some 1) flat
  = (mkResponse 403 (JError "You can share only your own items"), flat)
  /\ exists s1,
       shareItemToGroup 9 alice 1 (Some 1) flat = (mkResponse 201 JOk, s1)
       /\ shareItemToGroup 10 alice 1 (Some 1) s1 = (mkResponse 201 JOk, s1)
       /\ count_shares 1 1 s1 = 1%nat.
Proof.
  assert (Hok : store_ok flat = true) by (vm_compute; reflexivity).
  assert (Hcount : (count_shares 1 1 flat <= 1)%nat) by (vm_compute; lia).
  split.
  - destruct (shareItemToGroup_spec 9 10 bob 1 1 flat Hok Hcount) as (_ & Hforeign & _).
    apply (Hforeign milk); [vm_compute; reflexivity|vm_compute; reflexivity|].
    vm_compute. discriminate.
  - destruct (shareItemToGroup_spec 9 10 alice 1 1 flat Hok Hcount) as (_ & _ & Htwice).
    apply (Htwice milk); vm_compute; reflexivity.
Defined.

(** ** Authentication *)

Section AuthFacts.
Variable jwt_verify : Z -> string -> JwtResult.

Lemma authMiddleware_cases now authorization s :
  authMiddleware jwt_verify now authorization s =
    match truthy_str (bearer_token authorization) with
    | None => Denied unauthorized
    | Some token =>
      match jwt_verify now token with
      | JwtPayload (Some userId) _ =>
        match lookup_user userId s with
        | Some user => Next user
        | None => Denied unauthorized
        end
      | _ => Denied unauthorized
      end
    end.
Proof.
  unfold authMiddleware.
  destruct (truthy_str (bearer_token authorization)) as [token|]; [|reflexivity].
  unfold user_findUnique_id, bind, gets, ret, reply, throw.
  destruct (jwt_verify now token) as [[userId|] email| |]; try reflexivity.
  simpl. now destruct (lookup_user userId s).
Qed.

(** C8: the middleware answers 401 when no bearer token is sent, when
    the token is invalid, when it is expired, and when its user id
    resolves to no user in the store; in every other case it attaches
    the user found in the store and the handler runs on the same store.
    A rejected request reaches no handler and changes nothing. *)
Theorem authMiddleware_spec now authorization s
    (handler : User -> Store -> Response * Store) :
  (truthy_str (bearer_token authorization) = None ->
     authMiddleware jwt_verify now authorization s = Denied unauthorized)
  /\
  (forall token,
     truthy_str (bearer_token authorization) = Some token ->
     (jwt_verify now token = JsonWebTokenError ->
        authMiddleware jwt_verify now authorization s = Denied unauthorized)
     /\ (jwt_verify now token = TokenExpiredError ->
           authMiddleware jwt_verify now authorization s = Denied unauthorized)
     /\ (forall userId email,
           jwt_verify now token = JwtPayload (Some userId) email ->
           lookup_user userId s = None ->
           authMiddleware jwt_verify now authorization s = Denied unauthorized)
     /\ (forall userId email user,
           jwt_verify now token = JwtPayload (Some userId) email ->
           lookup_user userId s = Some user ->
           authMiddleware jwt_verify now authorization s = Next user
           /\ authenticated jwt_verify now authorization handler s = handler user s))
  /\
  (forall r,
     authMiddleware jwt_verify now authorization s = Denied r ->
     r = unauthorized /\ res_status r = 401
     /\ authenticated jwt_verify now authorization handler s = (r, s))
  /\
  (forall user,
     authMiddleware jwt_verify now authorization s = Next user ->
     lookup_user (user_id user) s = Some user
     /\ exists token email,
          truthy_str (bearer_token authorization) = Some token
          /\ jwt_verify now token = JwtPayload (Some (user_id user)) email).
Proof.
  unfold authenticated. rewrite authMiddleware_cases.
  split; [|split; [|split]].
  - now intros ->.
  - intros token ->. split; [|split; [|split]].
    + now intros ->.
    + now intros ->.
    + intros userId email -> Hu. now rewrite Hu.
    + intros userId email user -> Hu. now rewrite Hu.
  - intros r H.
    assert (r = unauthorized) as ->.
    { destruct (truthy_str (bearer_token authorization)) as [token|]; [|congruence].
      destruct (jwt_verify now token) as [[userId|] email| |]; try congruence.
      destruct (lookup_user userId s); congruence. }
    rewrite H. auto.
  - intros user H.
    destruct (truthy_str (bearer_token authorization)) as [token|]; [|discriminate].
    destruct (jwt_verify now token) as [[userId|] email| |] eqn:Hv; try discriminate.
    destruct (lookup_user userId s) as [u|] eqn:Hu; [|discriminate].
    injection H as ->.
    pose proof (lookup_user_id _ _ _ Hu) as Hid. rewrite Hid.
    split; [exact Hu|]. exists token, email. now rewrite <- Hid in Hv |- *.
Qed.

End AuthFacts.

Lemma authMiddleware_spec_witness :
  authMiddleware demo_verify 9 None offered = Denied unauthorized
  /\ authMiddleware demo_verify 9 (Some "Bearer old-token") offered = Denied unauthorized
  /\ authMiddleware demo_verify 9 as_alice empty_store = Denied unauthorized
  /\ authMiddleware demo_verify 9 as_alice offered = Next alice.
Proof.
  pose proof (authMiddleware_spec demo_verify 9 None offered (fun _ s => (unauthorized, s)))
    as (Habsent & _).
  pose proof (authMiddleware_spec demo_verify 9 (Some "Bearer old-token") offered
                (fun _ s => (unauthorized, s))) as (_ & Hold & _).
  pose proof (authMiddleware_spec demo_verify 9 as_alice empty_store
                (fun _ s => (unauthorized, s))) as (_ & Hgone & _).
  pose proof (authMiddleware_spec demo_verify 9 as_alice offered
                (fun _ s => (unauthorized, s))) as (_ & Hlive & _).
  split; [apply Habsent; reflexivity|].
  split; [apply (Hold "old-token"); reflexivity|].
  split.
  - destruct (Hgone "alice-token" eq_refl) as (_ & _ & Hmissing & _).
    apply (Hmissing 1 "alice@example.com"); reflexivity.
  - destruct (Hlive "alice-token" eq_refl) as (_ & _ & _ & Hfound).
    apply (Hfound 1 "alice@example.com" alice); vm_compute; reflexivity.
Defined.

(** ** Creating an item *)

Lemma has_dup_filter (f : string -> bool) (l : list string) :
  has_dup l = false -> has_dup (filter f l) = false.
Proof.
  induction l as [|n l IH]; simpl; [reflexivity|].
  intros H. apply orb_false_elim in H as [Hn Hl].
  destruct (f n); simpl; [|auto].
  rewrite IH by exact Hl. rewrite orb_false_r.
  destruct (existsb (String.eqb n) (filter f l)) eqn:E; [|reflexivity].
  apply existsb_exists in E as (m & Hin & Hm).
  apply filter_In in Hin as [Hin _].
  assert (existsb (String.eqb n) l = true) by (apply existsb_exists; eauto).
  congruence.
Qed.

(** The names still to create clash with no stored category. *)
Lemma missing_names_fresh (cats : list FoodCategory) (names : list string) :
  let existing := filter (fun c => existsb (String.eqb (cat_name c)) names) cats in
  let toCreate :=
    filter (fun n => negb (existsb (fun c => String.eqb (cat_name c) n) existing)) names in
  existsb (fun n => existsb (fun c => String.eqb (cat_name c) n) cats) toCreate = false.
Proof.
  intros existing toCreate.
  destruct (existsb _ toCreate) eqn:E; [|reflexivity].
  apply existsb_exists in E as (n & Hn & Hc).
  apply existsb_exists in Hc as (c & Hc & Hcn).
  apply filter_In in Hn as [Hn Hfresh].
  assert (Hex : existsb (fun c => String.eqb (cat_name c) n) existing = true).
  { apply existsb_exists. exists c. split; [|exact Hcn].
    apply filter_In. split; [exact Hc|].
    apply existsb_exists. exists n. auto. }
  rewrite Hex in Hfresh. discriminate.
Qed.

(** Seeding never fails and writes nothing but category rows. *)
Lemma ensureCategories_run now s :
  exists s1,
    ensureCategories now s = (Value tt, s1)
    /\ users s1 = users s /\ foodItems s1 = foodItems s /\ claims s1 = claims s
    /\ groupMessages s1 = groupMessages s.
Proof.
  unfold ensureCategories.
  assert (Hnodup : has_dup defaults = false) by (vm_compute; reflexivity).
  revert Hnodup. generalize defaults as names. intros names Hnodup.
  unfold foodCategory_findMany_name_in, foodCategory_createMany,
    bind, gets, modify, ret, throw.
  simpl.
  destruct (Nat.eqb _ _); [exists s; auto|].
  destruct (0 <? _)%nat; [|exists s; auto].
  simpl. rewrite missing_names_fresh.
  rewrite has_dup_filter by exact Hnodup. simpl.
  eexists. split; [reflexivity|]. auto.
Qed.

Lemma createItem_cases now user title categoryId expiresAt s :
  exists s1,
    ensureCategories now s = (Value tt, s1) /\
    createItem now user title categoryId expiresAt s =
      match truthy_str title with
      | None => (mkResponse 400 (JError "title is required"), s)
      | Some t =>
        let failed := (mkResponse 500 (JError "Failed to create item"), s1) in
        let created expires category :=
          let it := mkFoodItem (next_id (map item_id (foodItems s1))) t IN_FRIDGE expires
                               (user_id user) (truthy_num categoryId) now in
          (mkResponse 201 (JItemWithCategory it category),
           set_foodItems (foodItems s1 ++ [it]) s1) in
        let stored expires :=
          match lookup_user (user_id user) s1 with
          | None => failed
          | Some _ =>
            match truthy_num categoryId with
            | None => created expires None
            | Some cid =>
              match lookup_category cid s1 with
              | None => failed
              | Some c => created expires (Some c)
              end
            end
          end in
        match expiresAt with
        | NoDate => stored None
        | ValidDate e => stored (Some e)
        | InvalidDate => failed
        end
      end.
Proof.
  destruct (ensureCategories_run now s) as (s1 & Hrun & _).
  exists s1. split; [exact Hrun|].
  unfold createItem. destruct (truthy_str title) as [t|]; [|reflexivity].
  unfold try_catch. unfold bind at 1. rewrite Hrun.
  unfold foodItem_create, user_findUnique_id, foodCategory_findUnique,
    bind, gets, modify, ret, throw.
  destruct expiresAt; simpl; try reflexivity;
    (destruct (lookup_user (user_id user) s1); [|reflexivity]);
    (destruct (truthy_num categoryId) as [cid|]; [|reflexivity]);
    simpl; now destruct (lookup_category cid s1).
Qed.

(** C9: an item request without a title is answered 400; a created item
    (201) is stored with status IN_FRIDGE for the caller, and its
    categoryId is null or the id of a category in the store, which is the
    category joined in the response; a request that is not answered 201
    stores no item, so an unknown categoryId is never stored; and a
    titled request by a stored user, without category and with no
    invalid date, is answered 201. *)
Theorem createItem_spec now user title categoryId expiresAt s :
  let r := fst (createItem now user title categoryId expiresAt s) in
  let s' := snd (createItem now user title categoryId expiresAt s) in
  (truthy_str title = None ->
     r = mkResponse 400 (JError "title is required") /\ s' = s)
  /\
  (res_status r = 201 ->
     exists it cat,
       r = mkResponse 201 (JItemWithCategory it cat)
       /\ foodItems s' = (foodItems s ++ [it])%list
       /\ item_status it = IN_FRIDGE
       /\ item_ownerId it = user_id user
       /\ item_categoryId it = truthy_num categoryId
       /\ match item_categoryId it with
          | None => cat = None
          | Some cid => exists c, lookup_category cid s' = Some c /\ cat = Some c
          end)
  /\
  (res_status r <> 201 -> foodItems s' = foodItems s)
  /\
  (forall t u,
     truthy_str title = Some t ->
     lookup_user (user_id user) s = Some u ->
     expiresAt <> InvalidDate ->
     truthy_num categoryId = None ->
     res_status r = 201).
Proof.
  destruct (createItem_cases now user title categoryId expiresAt s) as (s1 & Hens & ->).
  destruct (ensureCategories_run now s) as (s1' & Hens' & Husers & Hitems & _).
  rewrite Hens in Hens'. injection Hens' as <-.
  assert (Hlu : lookup_user (user_id user) s1 = lookup_user (user_id user) s).
  { unfold lookup_user. now rewrite Husers. }
  cbv zeta. split; [|split; [|split]].
  - now intros ->.
  - destruct (truthy_str title) as [t|]; [|simpl; discriminate].
    assert (Hgoal : forall expires,
      let it := mkFoodItem (next_id (map item_id (foodItems s1))) t IN_FRIDGE expires
                           (user_id user) (truthy_num categoryId) now in
      forall category,
        match truthy_num categoryId with
        | None => category = None
        | Some cid => exists c, lookup_category cid s1 = Some c /\ category = Some c
        end ->
        exists it0 cat,
          mkResponse 201 (JItemWithCategory it category)
          = mkResponse 201 (JItemWithCategory it0 cat)
          /\ (foodItems s1 ++ [it] = foodItems s ++ [it0])%list
          /\ item_status it0 = IN_FRIDGE
          /\ item_ownerId it0 = user_id user
          /\ item_categoryId it0 = truthy_num categoryId
          /\ match item_categoryId it0 with
             | None => cat = None
             | Some cid =>
               exists c,
                 lookup_category cid (set_foodItems (foodItems s1 ++ [it]) s1) = Some c
                 /\ cat = Some c
             end).
    { intros expires it category Hcat. exists it, category.
      rewrite Hitems. repeat split. exact Hcat. }
    destruct expiresAt; simpl; try discriminate;
      (destruct (lookup_user (user_id user) s1); [|simpl; discriminate]);
      (destruct (truthy_num categoryId) as [cid|] eqn:Hcid;
       [destruct (lookup_category cid s1) as [c|] eqn:Hc; [|simpl; discriminate]|]);
      intros _; simpl;
      match goal with
      | |- context [mkFoodItem _ _ _ ?e _ _ _] => specialize (Hgoal e)
      end;
      apply Hgoal; eauto.
  - destruct (truthy_str title) as [t|]; [|reflexivity].
    destruct expiresAt; simpl; try (intros _; exact Hitems);
      (destruct (lookup_user (user_id user) s1); [|intros _; exact Hitems]);
      (destruct (truthy_num categoryId) as [cid|];
       [destruct (lookup_category cid s1); [|intros _; exact Hitems]|]);
      simpl; congruence.
  - intros t u -> Hu Hdate ->. rewrite Hlu, Hu.
    destruct expiresAt; [reflexivity|reflexivity|congruence].
Qed.

Lemma createItem_spec_witness :
  createItem 3 alice (Some "") (Some 2) NoDate empty_store
  = (mkResponse 400 (JError "title is required"), empty_store)
  /\ res_status (fst (createItem 9 bob (Some "Bread") None (ValidDate 20) offered)) = 201.
Proof.
  split.
  - pose proof (createItem_spec 3 alice (Some "") (Some 2) NoDate empty_store)
      as (Hempty & _).
    destruct (Hempty eq_refl) as [Hr Hs].
    rewrite (surjective_pairing (createItem 3 alice (Some "") (Some 2) NoDate empty_store)).
    now rewrite Hr, Hs.
  - pose proof (createItem_spec 9 bob (Some "Bread") None (ValidDate 20) offered)
      as (_ & _ & _ & Hgood).
    apply (Hgood "Bread" bob); [reflexivity|vm_compute; reflexivity|discriminate|reflexivity].
Defined.

(** ** Listing messages *)

Section SortBy.
Context {A : Type} (le : A -> A -> bool).
Hypothesis le_total : forall a b, le a b = false -> le b a = true.
Hypothesis le_trans : forall a b c, le a b = true -> le b c = true -> le a c = true.

Lemma insert_by_perm x l : Permutation (insert_by le x l) (x :: l).
Proof.
  induction l as [|y r IH]; simpl; [reflexivity|].
  destruct (le x y); [reflexivity|].
  rewrite IH. apply perm_swap.
Qed.

Lemma sort_by_perm l : Permutation (sort_by le l) l.
Proof.
  induction l as [|x l IH]; simpl; [reflexivity|].
  rewrite insert_by_perm. now constructor.
Qed.

Lemma insert_by_sorted x l :
  StronglySorted (fun a b => le a b = true) l ->
  StronglySorted (fun a b => le a b = true) (insert_by le x l).
Proof.
  induction 1 as [|y r Hr IH Hy]; simpl.
  - repeat constructor.
  - destruct (le x y) eqn:Hxy.
    + constructor; [now constructor|].
      constructor; [exact Hxy|].
      rewrite Forall_forall in *. intros z Hz. eauto.
    + constructor; [exact IH|].
      rewrite Forall_forall in *. intros z Hz.
      apply (Permutation_in _ (insert_by_perm x r)) in Hz as [<- | Hz]; auto.
Qed.

Lemma sort_by_sorted l : StronglySorted (fun a b => le a b = true) (sort_by le l).
Proof.
  induction l as [|x l IH]; simpl; [constructor|].
  now apply insert_by_sorted.
Qed.

End SortBy.

Lemma StronglySorted_app_le {A} (R : A -> A -> Prop) (l1 l2 : list A) :
  StronglySorted R (l1 ++ l2) -> forall a b, In a l1 -> In b l2 -> R a b.
Proof.
  induction l1 as [|x l1 IH]; simpl; intros H a b Ha Hb; [contradiction|].
  inversion H as [|? ? Hss Hall]; subst.
  destruct Ha as [<- | Ha]; [|eauto].
  rewrite Forall_forall in Hall. apply Hall, in_or_app. now right.
Qed.

Lemma firstn_In {A} (n : nat) (l : list A) (x : A) : In x (firstn n l) -> In x l.
Proof.
  intros H. rewrite <- (firstn_skipn n l). apply in_or_app. now left.
Qed.

Lemma StronglySorted_firstn {A} (R : A -> A -> Prop) (n : nat) (l : list A) :
  StronglySorted R l -> StronglySorted R (firstn n l).
Proof.
  revert l. induction n as [|n IH]; intros l H; simpl; [constructor|].
  destruct H as [|x l Hss Hall]; constructor; [auto|].
  rewrite Forall_forall in *. intros y Hy. apply Hall. eapply firstn_In; eauto.
Qed.

Lemma createdAt_asc_sorted l :
  StronglySorted (fun a b => msg_createdAt a <= msg_createdAt b)
                 (sort_by createdAt_asc l).
Proof.
  assert (H : StronglySorted (fun a b => createdAt_asc a b = true) (sort_by createdAt_asc l)).
  { apply sort_by_sorted; unfold createdAt_asc; intros; lia. }
  induction H as [|x r Hr IH Hx]; constructor; [exact IH|].
  eapply Forall_impl; [|exact Hx]. unfold createdAt_asc. intros; lia.
Qed.

Lemma group_messages_asc_In id s m :
  In m (group_messages_asc id s) <-> In m (groupMessages s) /\ msg_groupId m = id.
Proof.
  unfold group_messages_asc. split.
  - intros H. apply (Permutation_in _ (sort_by_perm _ _)) in H.
    apply filter_In in H as [H1 H2]. split; [exact H1|lia].
  - intros [H1 H2].
    apply (Permutation_in _ (Permutation_sym (sort_by_perm _ _))).
    apply filter_In. split; [exact H1|lia].
Qed.

Lemma join_authors_some us rows :
  (forall m, In m rows -> existsb (fun u => user_id u =? msg_authorId m) us = true) ->
  exists ms,
    join_authors us rows = Some ms
    /\ map fst ms = rows
    /\ Forall (fun p => find (fun u => user_id u =? msg_authorId (fst p)) us = Some (snd p)) ms.
Proof.
  induction rows as [|m r IH]; simpl; intros H.
  - exists []. auto.
  - destruct (existsb_find _ _ (H m (or_introl eq_refl))) as [u Hu].
    destruct IH as (ms & Hms & Hmap & Hall); [auto|].
    exists ((m, u) :: ms). rewrite Hu, Hms. simpl. rewrite Hmap. auto.
Qed.

Lemma store_ok_author s m :
  store_ok s = true -> In m (groupMessages s) -> has_user s (msg_authorId m) = true.
Proof.
  unfold store_ok. intros Hok Hin.
  apply andb_prop in Hok as [Hok _]. apply andb_prop in Hok as [_ Hok].
  rewrite forallb_forall in Hok. auto.
Qed.

Lemma listMessages_run user id s :
  store_ok s = true ->
  may_access user id s = true ->
  exists ms,
    listMessages user id s = (mkResponse 200 (JMessages ms), s)
    /\ map fst ms = firstn 200 (group_messages_asc id s)
    /\ Forall (fun p => lookup_user (msg_authorId (fst p)) s = Some (snd p)) ms.
Proof.
  intros Hok Hacc.
  destruct (join_authors_some (users s) (firstn 200 (group_messages_asc id s)))
    as (ms & Hjoin & Hmap & Hall).
  { intros m Hm. apply firstn_In in Hm. apply group_messages_asc_In in Hm as [Hm _].
    now apply store_ok_author. }
  exists ms. split; [|split; assumption].
  assert (Hfind : groupMessage_findMany id 200 s = (Value ms, s)).
  { unfold groupMessage_findMany, required, bind, gets, ret, throw.
    cbv beta iota. fold (group_messages_asc id s). now rewrite Hjoin. }
  unfold listMessages, may_access in *.
  unfold try_catch, friendGroup_findUnique_include_members, friendGroup_findUnique,
    bind, gets, ret, reply.
  cbv beta iota. destruct (lookup_group id s) as [g|]; [|discriminate].
  cbv beta iota. rewrite <- negb_orb, Hacc. cbv beta iota.
  change (negb true) with false. cbv beta iota.
  now rewrite Hfind.
Qed.

(** C7, as the specification states it, fails: Alice's group holds 201
    messages, posted at ticks 10 to 210.  The listing returns the
    messages of ticks 10 to 209, the oldest 200; the 200 most recent are
    those of ticks 11 to 210, and the newest message is not returned. *)
Lemma listMessages_most_recent_counterexample :
  let r := fst (listMessages alice 1 (chat 201)) in
  may_access alice 1 (chat 201) = true
  /\ List.length (group_messages_asc 1 (chat 201)) = 201%nat
  /\ res_status r = 200
  /\ map msg_createdAt (returned_messages (res_body r)) = map Z.of_nat (seq 10 200)
  /\ map msg_createdAt (spec_most_recent 200 1 (chat 201)) = map Z.of_nat (seq 11 200)
  /\ returned_messages (res_body r) <> spec_most_recent 200 1 (chat 201).
Proof.
  cbv zeta.
  repeat split; try (vm_compute; reflexivity).
  intros H. apply (f_equal (map msg_createdAt)) in H.
  vm_compute in H. discriminate.
Qed.

(** C7 (amended): for a caller who is the group's owner or a member, the
    listing returns the first 200 messages of the group in ascending
    creation order, that is the 200 oldest when more exist: never more
    than 200 entries, ordered ascending by creation time, each with its
    author joined, and every message of the group that is left out was
    created no earlier than every message returned. *)
Theorem listMessages_oldest_first user id s :
  store_ok s = true ->
  may_access user id s = true ->
  exists ms,
    listMessages user id s = (mkResponse 200 (JMessages ms), s)
    /\ map fst ms = firstn 200 (group_messages_asc id s)
    /\ List.length ms = Nat.min 200 (List.length (group_messages_asc id s))
    /\ (List.length ms <= 200)%nat
    /\ StronglySorted (fun a b => msg_createdAt a <= msg_createdAt b) (map fst ms)
    /\ (forall m, In m (map fst ms) -> In m (groupMessages s) /\ msg_groupId m = id)
    /\ (forall m m',
          In m (map fst ms) ->
          In m' (groupMessages s) -> msg_groupId m' = id -> ~ In m' (map fst ms) ->
          msg_createdAt m <= msg_createdAt m')
    /\ Forall (fun p => lookup_user (msg_authorId (fst p)) s = Some (snd p)) ms.
Proof.
  intros Hok Hacc.
  destruct (listMessages_run user id s Hok Hacc) as (ms & Hrun & Hmap & Hall).
  exists ms. split; [exact Hrun|]. split; [exact Hmap|].
  assert (Hlen : List.length ms = Nat.min 200 (List.length (group_messages_asc id s))).
  { rewrite <- (length_map fst ms), Hmap. apply length_firstn. }
  split; [exact Hlen|]. split; [lia|].
  rewrite Hmap.
  pose proof (createdAt_asc_sorted
                (filter (fun m => msg_groupId m =? id) (groupMessages s))) as Hsorted.
  fold (group_messages_asc id s) in Hsorted.
  split; [now apply StronglySorted_firstn|].
  split; [intros m Hm; apply firstn_In in Hm; now apply group_messages_asc_In|].
  split; [|exact Hall].
  intros m m' Hm Hin Hgrp Hout.
  assert (Hm' : In m' (group_messages_asc id s)) by now apply group_messages_asc_In.
  rewrite <- (firstn_skipn 200 (group_messages_asc id s)) in Hm', Hsorted.
  apply in_app_or in Hm' as [Hm' | Hm']; [contradiction|].
  exact (StronglySorted_app_le _ _ _ Hsorted m m' Hm Hm').
Qed.

Lemma listMessages_oldest_first_witness :
  exists ms,
    listMessages alice 1 (chat 201) = (mkResponse 200 (JMessages ms), chat 201)
    /\ List.length ms = 200%nat.
Proof.
  assert (Hok : store_ok (chat 201) = true) by (vm_compute; reflexivity).
  assert (Hacc : may_access alice 1 (chat 201) = true) by (vm_compute; reflexivity).
  destruct (listMessages_oldest_first alice 1 (chat 201) Hok Hacc)
    as (ms & Hrun & _ & Hlen & _).
  exists ms. split; [exact Hrun|]. rewrite Hlen. vm_compute. reflexivity.
Defined.

(** ** What the operations leave alone *)

#[global] Instance same_items_frame : Frame same_items.
Proof. split; unfold same_items; congruence. Qed.

#[global] Instance same_claims_frame : Frame same_claims.
Proof. split; unfold same_claims; congruence. Qed.

#[global] Instance keeps_ok_frame : Frame keeps_ok.
Proof. split; unfold keeps_ok; auto. Qed.

Section Preserves.
Context (R : Store -> Store -> Prop) `{Frame R}.

Lemma preserves_ret {A} (a : A) : preserves R (ret a).
Proof. intros s. apply frame_refl. Qed.

Lemma preserves_throw {A} (e : Exn) : preserves R (@throw A e).
Proof. intros s. apply frame_refl. Qed.

Lemma preserves_reply {A} (code : Z) (b : Body) : preserves R (@reply A code b).
Proof. intros s. apply frame_refl. Qed.

Lemma preserves_gets {A} (f : Store -> A) : preserves R (gets f).
Proof. intros s. apply frame_refl. Qed.

Lemma preserves_required {A} (o : option A) : preserves R (required o).
Proof. destruct o; intros s; apply frame_refl. Qed.

Lemma preserves_modify (f : Store -> Store) :
  (forall s, R s (f s)) -> preserves R (modify f).
Proof. intros Hf s. apply Hf. Qed.

Lemma preserves_bind {A B} (m : Handler A) (k : A -> Handler B) :
  preserves R m -> (forall a, preserves R (k a)) -> preserves R (bind m k).
Proof.
  intros Hm Hk s. unfold bind.
  specialize (Hm s). destruct (m s) as [[a|r|e] s1]; simpl in *; [|exact Hm|exact Hm].
  eapply frame_trans; [exact Hm|apply Hk].
Qed.

Lemma preserves_try_catch (msg : string) (body : Handler Response) :
  preserves R body -> forall s, R s (snd (try_catch msg body s)).
Proof.
  intros Hb s. unfold try_catch. specialize (Hb s).
  now destruct (body s) as [[a|r|e] s1].
Qed.

Lemma preserves_send (code : Z) (b : Body) : forall s, R s (snd (send code b s)).
Proof. intros s. apply frame_refl. Qed.

Lemma preserves_authenticated jwt_verify now authorization handler :
  (forall user s, R s (snd (handler user s))) ->
  forall s, R s (snd (authenticated jwt_verify now authorization handler s)).
Proof.
  intros Hh s. unfold authenticated.
  destruct (authMiddleware jwt_verify now authorization s); [apply Hh|apply frame_refl].
Qed.

End Preserves.

Create HintDb reads.
Create HintDb writes.
Create HintDb frames.

#[global] Hint Unfold user_findUnique_id user_findUnique_email foodItem_findUnique
  foodCategory_findUnique claim_findUnique friendGroup_findUnique
  friendGroup_findFirst_id_ownerId friendGroup_findUnique_include_members
  groupMember_findFirst foodCategory_findMany_name_in groupMessage_findMany : reads.

#[global] Hint Unfold user_create donation_create foodItem_create foodItem_update_id_ownerId
  foodItem_update_id foodCategory_createMany friendGroup_create groupMember_create
  claim_create claim_findUnique_include_item claim_update_decision groupShare_upsert
  groupMessage_create ensureCategories : writes.

(** One step of a frame proof: split the handler along its binds and
    branches; operations registered in [frames] are taken as they are. *)
Ltac frame_step :=
  first
    [ solve [auto with frames]
    | lazymatch goal with
      | |- preserves ?R (ret _) => apply (preserves_ret R)
      | |- preserves ?R (throw _) => apply (preserves_throw R)
      | |- preserves ?R (reply _ _) => apply (preserves_reply R)
      | |- preserves ?R (gets _) => apply (preserves_gets R)
      | |- preserves ?R (required _) => apply (preserves_required R)
      | |- preserves ?R (bind _ _) => apply (preserves_bind R); [|intros]
      | |- preserves _ (match ?x with _ => _ end) => destruct x
      | |- preserves _ (if ?x then _ else _) => destruct x
      | |- preserves _ (let (_, _) := ?x in _) => destruct x
      end ].

Ltac frame_body := autounfold with reads; repeat frame_step.

(** A handler: validation outside the try block, then the body. *)
Ltac frame_handler :=
  intros;
  repeat match goal with
         | |- _ _ (snd (match ?x with _ => _ end _)) => destruct x
         end;
  lazymatch goal with
  | |- ?R _ (snd _) => first [ apply (preserves_send R) | apply (preserves_try_catch R) ]
  end;
  frame_body.

(** Writes to other tables leave the items and the claims as they are. *)
Ltac frame_write :=
  autounfold with writes; autounfold with reads;
  repeat first
    [ frame_step
    | lazymatch goal with
      | |- preserves ?R (modify _) => apply (preserves_modify R); intros; reflexivity
      end ].

Lemma createDonation_same now item quantity location s :
  same_items s (snd (createDonation now item quantity location s))
  /\ same_claims s (snd (createDonation now item quantity location s)).
Proof. split; unfold createDonation; frame_handler; frame_write. Qed.

Lemma listCategories_same now s :
  same_items s (snd (listCategories now s)) /\ same_claims s (snd (listCategories now s)).
Proof. split; unfold listCategories; frame_handler; frame_write. Qed.

Lemma createGroup_same now user name s :
  same_items s (snd (createGroup now user name s))
  /\ same_claims s (snd (createGroup now user name s)).
Proof. split; unfold createGroup; frame_handler; frame_write. Qed.

Lemma addMember_same now owner groupId userId tag s :
  same_items s (snd (addMember now owner groupId userId tag s))
  /\ same_claims s (snd (addMember now owner groupId userId tag s)).
Proof. split; unfold addMember; frame_handler; frame_write. Qed.

Lemma listMessages_same user id s :
  same_items s (snd (listMessages user id s)) /\ same_claims s (snd (listMessages user id s)).
Proof. split; unfold listMessages; frame_handler; frame_write. Qed.

Lemma shareItemToGroup_same now user id itemId s :
  same_items s (snd (shareItemToGroup now user id itemId s))
  /\ same_claims s (snd (shareItemToGroup now user id itemId s)).
Proof. split; unfold shareItemToGroup; frame_handler; frame_write. Qed.

Lemma register_same jwt_sign now name email password passwordHash s :
  same_items s (snd (register jwt_sign now name email password passwordHash s))
  /\ same_claims s (snd (register jwt_sign now name email password passwordHash s)).
Proof. split; unfold register; frame_handler; frame_write. Qed.

Lemma postMessage_same trim now user id content s :
  same_items s (snd (postMessage trim now user id content s))
  /\ same_claims s (snd (postMessage trim now user id content s)).
Proof. split; unfold postMessage; frame_handler; frame_write. Qed.

Lemma createClaim_same_items now user itemId s :
  same_items s (snd (createClaim now user itemId s)).
Proof. unfold createClaim; frame_handler; frame_write. Qed.

Lemma createItem_same_claims now user title categoryId expiresAt s :
  same_claims s (snd (createItem now user title categoryId expiresAt s)).
Proof. unfold createItem; frame_handler; frame_write. Qed.

Lemma setItemStatus_same_claims user id status s :
  same_claims s (snd (setItemStatus user id status s)).
Proof. unfold setItemStatus; frame_handler; frame_write. Qed.

(** ** Every way a request changes item and claim rows *)

Lemma decideClaim_cases now user id decision s :
  decideClaim now user id decision s =
    match parse_decision decision with
    | None => (mkResponse 400 (JError "decision must be ACCEPTED or REJECTED"), s)
    | Some d =>
      match lookup_claim id s with
      | None => (mkResponse 403 (JError "Not allowed"), s)
      | Some c =>
        match lookup_item (claim_itemId c) s with
        | None => (mkResponse 500 (JError "Failed to update claim"), s)
        | Some it =>
          if negb (item_ownerId it =? user_id user)
          then (mkResponse 403 (JError "Not allowed"), s)
          else
            match lookup_user (claim_claimerId c) s with
            | None =>
              (mkResponse 500 (JError "Failed to update claim"),
               set_claims (update_first (fun c => claim_id c =? id)
                                        (with_claim_decision d now) (claims s)) s)
            | Some u =>
              (mkResponse 200 (JClaimDecided (with_claim_decision d now c) it u),
               decided d now id c s)
            end
        end
      end
    end.
Proof.
  destruct (parse_decision decision) as [d|] eqn:Hd;
    [|unfold decideClaim; now rewrite Hd].
  destruct (lookup_claim id s) as [c|] eqn:Hc.
  2:{ unfold decideClaim. rewrite Hd.
      unfold try_catch, claim_findUnique_include_item, claim_findUnique, bind, gets, ret, reply.
      simpl. now rewrite Hc. }
  destruct (lookup_item (claim_itemId c) s) as [it|] eqn:Hit.
  2:{ unfold decideClaim. rewrite Hd.
      unfold try_catch, claim_findUnique_include_item, claim_findUnique, foodItem_findUnique,
        required, bind, gets, ret, reply, throw.
      simpl. rewrite Hc. simpl. now rewrite Hit. }
  destruct (item_ownerId it =? user_id user) eqn:Hown; simpl.
  2:{ apply Z.eqb_neq in Hown. eapply decideClaim_not_owner; eauto. }
  apply Z.eqb_eq in Hown.
  destruct (lookup_user (claim_claimerId c) s) as [u|] eqn:Hu.
  { eapply decideClaim_by_owner; eauto. }
  unfold decideClaim. rewrite Hd.
  unfold try_catch, claim_findUnique_include_item, claim_update_decision,
    claim_findUnique, foodItem_findUnique, user_findUnique_id,
    required, bind, gets, modify, ret, reply, throw.
  simpl. rewrite Hc. simpl. rewrite Hit. simpl.
  rewrite Hown, Z.eqb_refl. simpl. rewrite Hc. simpl.
  change (lookup_item (claim_itemId c) (set_claims ?v s))
    with (lookup_item (claim_itemId c) s).
  rewrite Hit. simpl.
  change (lookup_user (claim_claimerId c) (set_claims ?v s))
    with (lookup_user (claim_claimerId c) s).
  now rewrite Hu.
Qed.

Lemma parse_decision_accepted decision :
  parse_decision decision = Some ACCEPTED -> decision = Some "ACCEPTED".
Proof.
  unfold parse_decision. destruct decision as [v|]; [|discriminate].
  destruct (String.eqb_spec v "ACCEPTED") as [->|_]; [reflexivity|].
  destruct (String.eqb v "REJECTED"); discriminate.
Qed.

Lemma createItem_appends now user title categoryId expiresAt s :
  exists added,
    foodItems (snd (createItem now user title categoryId expiresAt s))
    = (foodItems s ++ added)%list
    /\ Forall (fun it => item_status it = IN_FRIDGE) added.
Proof.
  destruct (createItem_cases now user title categoryId expiresAt s) as (s1 & Hens & ->).
  destruct (ensureCategories_run now s) as (s1' & Hens' & _ & Hitems & _).
  rewrite Hens in Hens'. injection Hens' as <-.
  assert (Hnone : exists added,
             foodItems s1 = (foodItems s ++ added)%list
             /\ Forall (fun it => item_status it = IN_FRIDGE) added).
  { exists []. now rewrite app_nil_r. }
  destruct (truthy_str title) as [t|]; [|exists []; now rewrite app_nil_r].
  destruct expiresAt; simpl; try exact Hnone;
    (destruct (lookup_user (user_id user) s1); [|exact Hnone]);
    (destruct (truthy_num categoryId) as [cid|];
     [destruct (lookup_category cid s1); [|exact Hnone]|]);
    simpl; rewrite Hitems; eexists; (split; [reflexivity|]); repeat constructor.
Qed.

Lemma reachable_run reqs s :
  reachable demo_verify demo_sign demo_trim s ->
  reachable demo_verify demo_sign demo_trim (run reqs s).
Proof.
  revert s. induction reqs as [|[now req] reqs IH]; intros s Hs; [exact Hs|].
  simpl. apply IH. now constructor.
Qed.

Section Transitions.
Variable jwt_verify : Z -> string -> JwtResult.
Variable jwt_sign : Z -> Z -> string -> string.
Variable trim : string -> string.

Lemma api_same_items now req s :
  match req with
  | PostItem _ _ _ _ | PatchItemStatus _ _ _ | PostDecision _ _ _ => True
  | _ => same_items s (snd (api jwt_verify jwt_sign trim now req s))
  end.
Proof.
  destruct req; simpl; try exact I;
    try (apply (preserves_authenticated same_items); intros).
  - apply register_same.
  - apply createDonation_same.
  - apply listCategories_same.
  - apply createGroup_same.
  - apply addMember_same.
  - apply createClaim_same_items.
  - apply listMessages_same.
  - apply postMessage_same.
  - apply shareItemToGroup_same.
Qed.

Lemma api_same_claims now req s :
  match req with
  | PostClaim _ _ | PostDecision _ _ _ => True
  | _ => same_claims s (snd (api jwt_verify jwt_sign trim now req s))
  end.
Proof.
  destruct req; simpl; try exact I;
    try (apply (preserves_authenticated same_claims); intros).
  - apply register_same.
  - apply createDonation_same.
  - apply listCategories_same.
  - apply createItem_same_claims.
  - apply setItemStatus_same_claims.
  - apply createGroup_same.
  - apply addMember_same.
  - apply listMessages_same.
  - apply postMessage_same.
  - apply shareItemToGroup_same.
Qed.

End Transitions.

(** C3, as the specification states it, fails.  In the store reached
    when Alice has accepted Bob's claim the milk is CLAIMED, and Alice's
    status request puts it back to IN_FRIDGE; and a fresh item, IN_FRIDGE
    and never offered, is set to CLAIMED by its owner's status request. *)
Lemma item_status_counterexample :
  reachable demo_verify demo_sign demo_trim accepted
  /\ option_map item_status (lookup_item 1 accepted) = Some CLAIMED
  /\ option_map item_status
       (lookup_item 1 (snd (demo_api 7 (PatchItemStatus as_alice 1 (Some "IN_FRIDGE"))
                                     accepted)))
     = Some IN_FRIDGE
  /\ (let fresh := snd (demo_api 9 (PostItem as_bob (Some "Bread") None NoDate) accepted) in
      option_map item_status (lookup_item 2 fresh) = Some IN_FRIDGE
      /\ option_map item_status
           (lookup_item 2 (snd (demo_api 10 (PatchItemStatus as_bob 2 (Some "CLAIMED")) fresh)))
         = Some CLAIMED).
Proof.
  split; [repeat apply reachable_run; constructor|].
  repeat split; vm_compute; reflexivity.
Qed.

(** C6, as the specification states it, fails.  Alice accepted Bob's
    claim at tick 6; her second decision at tick 8 turns the same claim
    to REJECTED and moves decidedAt to 8. *)
Lemma claim_redecided_counterexample :
  reachable demo_verify demo_sign demo_trim accepted
  /\ lookup_claim 1 accepted = Some (mkClaim 1 1 2 ACCEPTED 5 (Some 6))
  /\ lookup_claim 1 (snd (demo_api 8 (PostDecision as_alice 1 (Some "REJECTED")) accepted))
     = Some (mkClaim 1 1 2 REJECTED 5 (Some 8)).
Proof.
  split; [repeat apply reachable_run; constructor|].
  split; vm_compute; reflexivity.
Qed.

Section Changes.
Variable jwt_verify : Z -> string -> JwtResult.
Variable jwt_sign : Z -> Z -> string -> string.
Variable trim : string -> string.

(** C3 (amended): in every store, a request keeps every item row in
    place and changes an item's status only in two ways: a status
    request by the item's owner sets the status to whichever of the
    three values was asked for, whatever the status was; and an
    accepted claim decision by the item's owner sets it to CLAIMED,
    whatever the status was.  Rows that a request adds start as
    IN_FRIDGE. *)
Theorem item_status_changes now req s :
  exists rows added,
    foodItems (snd (api jwt_verify jwt_sign trim now req s)) = (rows ++ added)%list
    /\ Forall2 (item_change jwt_verify now req s) (foodItems s) rows
    /\ Forall (fun it => item_status it = IN_FRIDGE) added.
Proof.
  assert (Hsame : forall s', same_items s s' ->
            exists rows added,
              foodItems s' = (rows ++ added)%list
              /\ Forall2 (item_change jwt_verify now req s) (foodItems s) rows
              /\ Forall (fun it => item_status it = IN_FRIDGE) added).
  { intros s' ->. exists (foodItems s), []. rewrite app_nil_r.
    repeat split; [|constructor]. apply Forall2_same. now left. }
  pose proof (api_same_items jwt_verify jwt_sign trim now req s) as Hframe.
  destruct req; try (apply Hsame; exact Hframe); clear Hframe; simpl; unfold authenticated.
  - (* POST /api/items *)
    destruct (authMiddleware jwt_verify now authorization s) as [user|r];
      [|apply Hsame; reflexivity].
    destruct (createItem_appends now user title categoryId expiresAt s)
      as (added & -> & Hadded).
    exists (foodItems s), added. repeat split; [|exact Hadded].
    apply Forall2_same. now left.
  - (* PATCH /api/items/:id/status *)
    destruct (authMiddleware jwt_verify now authorization s) as [user|r] eqn:Hauth;
      [|apply Hsame; reflexivity].
    destruct (parse_status status) as [st|] eqn:Hst.
    2:{ unfold setItemStatus. rewrite Hst. apply Hsame. reflexivity. }
    rewrite (setItemStatus_run user id status st s Hst).
    destruct (find (owned_item id (user_id user)) (foodItems s)) as [it|] eqn:Hfind;
      [|apply Hsame; reflexivity].
    eexists _, []. simpl. rewrite app_nil_r.
    split; [reflexivity|]. split; [|constructor].
    eapply Forall2_weaken; [|apply update_first_rows; exact Hfind].
    intros a b [-> | [-> ->]]; [now left|]. right; left.
    pose proof (find_some _ _ Hfind) as [_ Hp].
    unfold owned_item in Hp. apply andb_prop in Hp as [Hid Hown].
    apply Z.eqb_eq in Hid, Hown. subst id.
    exists authorization, status, st, user. auto.
  - (* POST /api/claims/:id/decision *)
    destruct (authMiddleware jwt_verify now authorization s) as [user|r] eqn:Hauth;
      [|apply Hsame; reflexivity].
    rewrite decideClaim_cases.
    destruct (parse_decision decision) as [d|] eqn:Hd; [|apply Hsame; reflexivity].
    destruct (lookup_claim id s) as [c|] eqn:Hc; [|apply Hsame; reflexivity].
    destruct (lookup_item (claim_itemId c) s) as [it|] eqn:Hit;
      [|apply Hsame; reflexivity].
    destruct (item_ownerId it =? user_id user) eqn:Hown; simpl;
      [|apply Hsame; reflexivity].
    destruct (lookup_user (claim_claimerId c) s); [|apply Hsame; reflexivity].
    destruct d; try (apply Hsame; reflexivity).
    apply parse_decision_accepted in Hd. subst decision.
    eexists _, []. simpl. rewrite app_nil_r.
    split; [reflexivity|]. split; [|constructor].
    eapply Forall2_weaken; [|apply update_first_rows; exact Hit].
    intros a b [-> | [-> ->]]; [now left|]. right; right.
    exists authorization, id, user, c.
    apply Z.eqb_eq in Hown. pose proof (lookup_item_id _ _ _ Hit). auto 10.
Qed.

(** C6 (amended): in every store, a request keeps every claim row in
    place and changes a claim only through a decision by the owner of
    the claimed item, which sets the status to the decision and
    decidedAt to the time of the request, whether the claim was PENDING
    or already decided; no other request changes a claim's status or
    decidedAt.  Claims that a request adds are PENDING with decidedAt
    null. *)
Theorem claim_decision_changes now req s :
  exists rows added,
    claims (snd (api jwt_verify jwt_sign trim now req s)) = (rows ++ added)%list
    /\ Forall2 (claim_change jwt_verify now req s) (claims s) rows
    /\ Forall (fun c => claim_status c = PENDING /\ claim_decidedAt c = None) added.
Proof.
  assert (Hsame : forall s', same_claims s s' ->
            exists rows added,
              claims s' = (rows ++ added)%list
              /\ Forall2 (claim_change jwt_verify now req s) (claims s) rows
              /\ Forall (fun c => claim_status c = PENDING /\ claim_decidedAt c = None)
                        added).
  { intros s' ->. exists (claims s), []. rewrite app_nil_r.
    repeat split; [|constructor]. apply Forall2_same. now left. }
  pose proof (api_same_claims jwt_verify jwt_sign trim now req s) as Hframe.
  destruct req; try (apply Hsame; exact Hframe); clear Hframe; simpl; unfold authenticated.
  - (* POST /api/claims *)
    destruct (authMiddleware jwt_verify now authorization s) as [user|r];
      [|apply Hsame; reflexivity].
    rewrite createClaim_cases.
    destruct (truthy_num itemId) as [i|]; [|apply Hsame; reflexivity].
    destruct (lookup_item i s) as [it|]; [|apply Hsame; reflexivity].
    destruct (negb (ItemStatus_eqb (item_status it) AVAILABLE));
      [apply Hsame; reflexivity|].
    destruct (item_ownerId it =? user_id user); [apply Hsame; reflexivity|].
    destruct (lookup_user (user_id user) s); [|apply Hsame; reflexivity].
    eexists (claims s), [_]. simpl. split; [reflexivity|].
    split; [apply Forall2_same; now left|]. repeat constructor.
  - (* POST /api/claims/:id/decision *)
    destruct (authMiddleware jwt_verify now authorization s) as [user|r] eqn:Hauth;
      [|apply Hsame; reflexivity].
    rewrite decideClaim_cases.
    destruct (parse_decision decision) as [d|] eqn:Hd; [|apply Hsame; reflexivity].
    destruct (lookup_claim id s) as [c|] eqn:Hc; [|apply Hsame; reflexivity].
    destruct (lookup_item (claim_itemId c) s) as [it|] eqn:Hit;
      [|apply Hsame; reflexivity].
    destruct (item_ownerId it =? user_id user) eqn:Hown; simpl;
      [|apply Hsame; reflexivity].
    assert (Hrows : Forall2 (claim_change jwt_verify now (PostDecision authorization id decision) s)
                            (claims s)
                            (update_first (fun c => claim_id c =? id)
                                          (with_claim_decision d now) (claims s))).
    { eapply Forall2_weaken; [|apply update_first_rows; exact Hc].
      intros a b [-> | [-> ->]]; [now left|]. right.
      apply Z.eqb_eq in Hown. pose proof (lookup_claim_id _ _ _ Hc). subst id.
      exists authorization, decision, d, user, it. auto 10. }
    destruct (lookup_user (claim_claimerId c) s).
    + eexists _, []. rewrite app_nil_r. split; [|split; [exact Hrows|constructor]].
      now destruct d.
    + eexists _, []. rewrite app_nil_r. split; [|split; [exact Hrows|constructor]].
      reflexivity.
Qed.

End Changes.

(** ** The foreign keys hold in every reachable store *)

Lemma update_first_In {A} (p : A -> bool) (f : A -> A) (l : list A) (x : A) :
  In x (update_first p f l) -> In x l \/ exists y, In y l /\ x = f y.
Proof.
  induction l as [|a l IH]; simpl; [tauto|].
  destruct (p a); simpl.
  - intros [<- | H]; [right; eauto|auto].
  - intros [<- | H]; [auto|]. destruct (IH H) as [H' | (y & Hy & ->)]; eauto.
Qed.

Lemma update_first_existsb {A} (p q : A -> bool) (f : A -> A) (l : list A) :
  (forall a, q (f a) = q a) -> existsb q (update_first p f l) = existsb q l.
Proof.
  intros Hq. induction l as [|a l IH]; simpl; [reflexivity|].
  destruct (p a); simpl; [now rewrite Hq|now rewrite IH].
Qed.

Lemma next_id_pos ids : 0 < next_id ids.
Proof.
  unfold next_id. assert (0 <= fold_right Z.max 0 ids); [|lia].
  induction ids; simpl; lia.
Qed.

Lemma store_ok_step s s' :
  store_ok s = true ->
  (forall id, has_user s id = true -> has_user s' id = true) ->
  (forall id, has_item s id = true -> has_item s' id = true) ->
  (forall c, In c (claims s') ->
     (exists c0, In c0 (claims s) /\ claim_itemId c = claim_itemId c0
                 /\ claim_claimerId c = claim_claimerId c0)
     \/ (has_item s' (claim_itemId c) = true /\ has_user s' (claim_claimerId c) = true)) ->
  (forall m, In m (groupMessages s') ->
     In m (groupMessages s) \/ has_user s' (msg_authorId m) = true) ->
  (forall i, In i (foodItems s') ->
     0 < item_id i \/ exists i0, In i0 (foodItems s) /\ item_id i = item_id i0) ->
  store_ok s' = true.
Proof.
  unfold store_ok. intros Hok Hu Hi Hc Hm Hp.
  apply andb_prop in Hok as [Hok Hpos]. apply andb_prop in Hok as [Hcl Hms].
  rewrite forallb_forall in Hcl, Hms, Hpos.
  rewrite !andb_true_iff, !forallb_forall. repeat split.
  - intros c Hin. destruct (Hc c Hin) as [(c0 & Hin0 & -> & ->) | [H1 H2]].
    + apply Hcl in Hin0. apply andb_prop in Hin0 as [H1 H2].
      now rewrite (Hi _ H1), (Hu _ H2).
    + now rewrite H1, H2.
  - intros m Hin. destruct (Hm m Hin) as [Hin0 | H]; auto.
  - intros i Hin. destruct (Hp i Hin) as [H | (i0 & Hin0 & Heq)]; [lia|].
    rewrite Heq. auto.
Qed.

Ltac ok_run :=
  intros s; autounfold with writes; autounfold with reads;
  unfold required, bind, gets, modify, ret, throw; simpl;
  repeat match goal with
         | |- keeps_ok _ (snd (match ?x with _ => _ end _)) => destruct x eqn:?; simpl
         | |- keeps_ok _ (snd (match ?x with _ => _ end)) => destruct x eqn:?; simpl
         end;
  try (intros Hok; exact Hok).

(** The obligations of [store_ok_step] for the tables a write leaves alone. *)
Ltac ok_step s :=
  intros Hok; apply (store_ok_step s);
  [ exact Hok
  | try (intros ? Hsame; exact Hsame)
  | try (intros ? Hsame; exact Hsame)
  | try (simpl; intros ? ?; left; solve [eauto])
  | try (simpl; intros ? ?; left; assumption)
  | try (simpl; intros ? ?; right; solve [eauto]) ].

Lemma user_create_ok now name email passwordHash :
  preserves keeps_ok (user_create now name email passwordHash).
Proof.
  ok_run. ok_step s.
  intros id. unfold has_user. simpl. apply existsb_app_l.
Qed.

Lemma foodItem_create_ok now title categoryId expiresAt ownerId :
  preserves keeps_ok (foodItem_create now title categoryId expiresAt ownerId).
Proof.
  intros s.
  unfold foodItem_create, user_findUnique_id, foodCategory_findUnique,
    bind, gets, modify, ret, throw.
  simpl. destruct (lookup_user ownerId s); simpl; [|exact (fun Hok => Hok)].
  destruct categoryId as [cid|]; simpl;
    [destruct (lookup_category cid s); simpl; [|exact (fun Hok => Hok)]|];
    (ok_step s;
     [ intros id; unfold has_item; simpl; apply existsb_app_l
     | simpl; intros i Hin; apply in_app_or in Hin as [Hin | [<- | []]];
       [right; eauto|left; apply next_id_pos] ]).
Qed.

Lemma foodItem_update_items_ok s p st :
  keeps_ok s (set_foodItems (update_first p (with_item_status st) (foodItems s)) s).
Proof.
  ok_step s.
  - intros id. unfold has_item. simpl. now rewrite update_first_existsb.
  - simpl. intros i Hin. right.
    apply update_first_In in Hin as [Hin | (y & Hy & ->)]; eauto.
Qed.

Lemma foodItem_update_id_ownerId_ok id ownerId st :
  preserves keeps_ok (foodItem_update_id_ownerId id ownerId st).
Proof. ok_run. apply foodItem_update_items_ok. Qed.

Lemma foodItem_update_id_ok id st : preserves keeps_ok (foodItem_update_id id st).
Proof. ok_run. apply foodItem_update_items_ok. Qed.

Lemma claim_create_ok now itemId claimerId :
  preserves keeps_ok (claim_create now itemId claimerId).
Proof.
  ok_run. ok_step s.
  simpl. intros c Hin. apply in_app_or in Hin as [Hin | [<- | []]]; [left; eauto|].
  right. simpl. split; eapply find_existsb; eauto.
Qed.

Lemma claim_update_decision_ok id st decidedAt :
  preserves keeps_ok (claim_update_decision id st decidedAt).
Proof.
  unfold claim_update_decision. autounfold with reads.
  repeat first
    [ frame_step
    | lazymatch goal with
      | |- preserves ?R (modify _) => apply (preserves_modify R)
      end ].
  intros s. ok_step s.
  simpl. intros c0 Hin. left.
  apply update_first_In in Hin as [Hin | (y & Hy & ->)]; eauto.
Qed.

Lemma groupMessage_create_ok now groupId authorId content :
  preserves keeps_ok (groupMessage_create now groupId authorId content).
Proof.
  ok_run. ok_step s.
  simpl. intros m Hin. apply in_app_or in Hin as [Hin | [<- | []]]; [auto|].
  right. simpl. eapply find_existsb; eauto.
Qed.

#[global] Hint Resolve user_create_ok foodItem_create_ok foodItem_update_id_ownerId_ok
  foodItem_update_id_ok claim_create_ok claim_update_decision_ok groupMessage_create_ok
  : frames.

(** Handlers: the registered writes keep the store well-formed, the
    other writes do not touch what [store_ok] reads. *)
Ltac frame_ok :=
  frame_handler;
  autounfold with writes; autounfold with reads;
  repeat first
    [ frame_step
    | lazymatch goal with
      | |- preserves ?R (modify _) => apply (preserves_modify R); intros ? Hok; exact Hok
      end ].

Section Reachable.
Variable jwt_verify : Z -> string -> JwtResult.
Variable jwt_sign : Z -> Z -> string -> string.
Variable trim : string -> string.

Lemma api_keeps_ok now req s :
  keeps_ok s (snd (api jwt_verify jwt_sign trim now req s)).
Proof.
  destruct req; simpl;
    try (apply (preserves_authenticated keeps_ok); intros).
  - unfold register. frame_ok.
  - unfold createDonation. frame_ok.
  - unfold listCategories. frame_ok.
  - unfold createItem. frame_ok.
  - unfold setItemStatus. frame_ok.
  - unfold createGroup. frame_ok.
  - unfold addMember. frame_ok.
  - unfold createClaim. frame_ok.
  - unfold decideClaim. frame_ok.
  - unfold listMessages. frame_ok.
  - unfold postMessage. frame_ok.
  - unfold shareItemToGroup. frame_ok.
Qed.

(** Every store the server reaches satisfies [store_ok]. *)
Lemma reachable_store_ok s :
  reachable jwt_verify jwt_sign trim s -> store_ok s = true.
Proof.
  induction 1 as [|s now req Hs IH]; [reflexivity|].
  now apply api_keeps_ok.
Qed.

(** The middleware hands the handlers a user row of the store. *)
Lemma authMiddleware_user now authorization s user :
  authMiddleware jwt_verify now authorization s = Next user ->
  lookup_user (user_id user) s = Some user.
Proof.
  rewrite authMiddleware_cases.
  destruct (truthy_str (bearer_token authorization)) as [token|]; [|discriminate].
  destruct (jwt_verify now token) as [[userId|] email| |]; try discriminate.
  destruct (lookup_user userId s) as [u|] eqn:Hu; [|discriminate].
  intros H. injection H as <-. eapply lookup_user_self; eauto.
Qed.

End Reachable.

(** ** The unique index on shares holds in every reachable store *)

#[global] Instance keeps_unique_frame : Frame keeps_unique.
Proof. split; unfold keeps_unique; auto. Qed.

Lemma groupShare_upsert_unique now itemId groupId :
  preserves keeps_unique (groupShare_upsert now itemId groupId).
Proof.
  intros s. unfold groupShare_upsert, foodItem_findUnique, friendGroup_findUnique,
    bind, gets, modify, ret, throw.
  simpl. destruct (find (shares_key itemId groupId) (groupShares s)) eqn:Hfind;
    simpl; [exact (fun H => H)|].
  destruct (lookup_item itemId s); simpl; [|exact (fun H => H)].
  destruct (lookup_group groupId s); simpl; [|exact (fun H => H)].
  intros Huniq i g. unfold count_shares. simpl.
  rewrite filter_app, length_app. simpl.
  destruct (shares_key i g _) eqn:Hkey; simpl.
  - unfold shares_key in Hkey. simpl in Hkey.
    apply andb_prop in Hkey as [Hi Hg]. apply Z.eqb_eq in Hi, Hg. subst i g.
    rewrite (find_none_filter _ _ Hfind). simpl. lia.
  - specialize (Huniq i g). unfold count_shares in Huniq. lia.
Qed.

#[global] Hint Resolve groupShare_upsert_unique : frames.

Section ReachableShares.
Variable jwt_verify : Z -> string -> JwtResult.
Variable jwt_sign : Z -> Z -> string -> string.
Variable trim : string -> string.

Lemma api_keeps_unique now req s :
  keeps_unique s (snd (api jwt_verify jwt_sign trim now req s)).
Proof.
  destruct req; simpl;
    try (apply (preserves_authenticated keeps_unique); intros).
  - unfold register. frame_ok.
  - unfold createDonation. frame_ok.
  - unfold listCategories. frame_ok.
  - unfold createItem. frame_ok.
  - unfold setItemStatus. frame_ok.
  - unfold createGroup. frame_ok.
  - unfold addMember. frame_ok.
  - unfold createClaim. frame_ok.
  - unfold decideClaim. frame_ok.
  - unfold listMessages. frame_ok.
  - unfold postMessage. frame_ok.
  - unfold shareItemToGroup. frame_ok.
Qed.

(** No reachable store holds two shares of one item to one group. *)
Lemma reachable_shares_unique s :
  reachable jwt_verify jwt_sign trim s -> shares_unique s.
Proof.
  induction 1 as [|s now req Hs IH]; [intros i g; unfold count_shares; simpl; lia|].
  now apply api_keeps_unique.
Qed.

End ReachableShares.

(** * Further properties of the server *)

(** ** Fresh keys, joins and orderings *)

Lemma next_id_above ids x : In x ids -> x < next_id ids.
Proof.
  unfold next_id. induction ids as [|a ids IH]; cbn [fold_right In]; [contradiction|].
  intros [-> | H]; [lia|]. specialize (IH H). lia.
Qed.

Lemma find_fresh {A} (key : A -> Z) (l : list A) :
  find (fun a => key a =? next_id (map key l)) l = None.
Proof.
  destruct (find _ l) as [a|] eqn:Hf; [|reflexivity].
  apply find_some in Hf as [Hin Heq]. apply Z.eqb_eq in Heq.
  pose proof (next_id_above (map key l) (key a) (in_map key l a Hin)). lia.
Qed.

Lemma find_app_new {A} (p : A -> bool) (l : list A) (x : A) :
  find p l = None -> p x = true -> find p (l ++ [x]) = Some x.
Proof. intros Hn Hx. rewrite find_app_none by exact Hn. simpl. now rewrite Hx. Qed.

Lemma find_and {A} (p q : A -> bool) (l : list A) (x : A) :
  find p l = Some x -> q x = true -> find (fun a => p a && q a) l = Some x.
Proof.
  induction l as [|a l IH]; simpl; [discriminate|].
  destruct (p a) eqn:Hp; simpl.
  - intros H Hq. injection H as ->. now rewrite Hq.
  - auto.
Qed.

Lemma find_and_l {A} (p q : A -> bool) (l : list A) (x : A) :
  find (fun a => p a && q a) l = Some x -> exists y, find p l = Some y.
Proof.
  intros H. apply find_some in H as [Hin Hpq]. apply andb_prop in Hpq as [Hp _].
  apply existsb_find. apply existsb_exists. eauto.
Qed.

Lemma update_first_and {A} (p q : A -> bool) (f : A -> A) (l : list A) (x : A) :
  find p l = Some x -> q x = true ->
  update_first (fun a => p a && q a) f l = update_first p f l.
Proof.
  induction l as [|a l IH]; simpl; [discriminate|].
  destruct (p a) eqn:Hp; simpl.
  - intros H Hq. injection H as ->. now rewrite Hq.
  - intros H Hq. now rewrite IH.
Qed.

(** An update of the row matching [p] is invisible to a lookup that can
    match no row [p] matches. *)
Lemma find_update_other {A} (p q : A -> bool) (f : A -> A) (l : list A) :
  (forall a, q (f a) = q a) -> (forall a, p a = true -> q a = false) ->
  find q (update_first p f l) = find q l.
Proof.
  intros Hf Hpq. induction l as [|a l IH]; simpl; [reflexivity|].
  destruct (p a) eqn:Hp; simpl.
  - now rewrite Hf, (Hpq a Hp).
  - now rewrite IH.
Qed.

Lemma distinct_find {A} (key : A -> Z) (l : list A) (x : A) :
  distinct (map key l) = true -> In x l ->
  find (fun a => key a =? key x) l = Some x.
Proof.
  induction l as [|a l IH]; simpl; [contradiction|].
  intros Hd Hin. apply andb_prop in Hd as [Hfresh Hd].
  destruct Hin as [-> | Hin]; [now rewrite Z.eqb_refl|].
  destruct (key a =? key x) eqn:E; [|auto].
  apply Z.eqb_eq in E. apply negb_true_iff in Hfresh.
  assert (existsb (Z.eqb (key a)) (map key l) = true); [|congruence].
  apply existsb_exists. exists (key x). split; [now apply in_map|]. now apply Z.eqb_eq.
Qed.

Lemma distinct_app_fresh (l : list Z) :
  distinct l = true -> distinct (l ++ [next_id l]) = true.
Proof.
  intros Hd.
  assert (Hgen : forall n, (forall x, In x l -> x < n) -> distinct (l ++ [n]) = true).
  { clear - Hd. induction l as [|a l IH]; simpl in *; intros n Hn; [reflexivity|].
    apply andb_prop in Hd as [Hfresh Hd].
    rewrite IH by auto. rewrite andb_true_r.
    rewrite existsb_app. simpl. apply negb_true_iff in Hfresh. rewrite Hfresh. simpl.
    rewrite orb_false_r. apply negb_true_iff, Z.eqb_neq.
    specialize (Hn a (or_introl eq_refl)). lia. }
  apply Hgen. apply next_id_above.
Qed.

Lemma join_required_some {A B} (f : A -> option B) (l : list A) :
  (forall a, In a l -> f a <> None) ->
  exists r,
    join_required f l = Some r
    /\ map fst r = l
    /\ Forall (fun p => f (fst p) = Some (snd p)) r.
Proof.
  induction l as [|a l IH]; simpl; intros H.
  - exists []. auto.
  - destruct (f a) as [b|] eqn:Hb; [|exfalso; apply (H a); auto].
    destruct IH as (r & Hr & Hmap & Hall); [auto|].
    exists ((a, b) :: r). rewrite Hr. simpl. rewrite Hmap. auto.
Qed.

Lemma has_user_lookup s id : has_user s id = true -> lookup_user id s <> None.
Proof. intros H. destruct (existsb_find _ _ H) as [u Hu]. unfold lookup_user. congruence. Qed.

Lemma has_item_lookup s id : has_item s id = true -> lookup_item id s <> None.
Proof. intros H. destruct (existsb_find _ _ H) as [u Hu]. unfold lookup_item. congruence. Qed.

Lemma sort_by_In {A} (le : A -> A -> bool) (l : list A) (x : A) :
  In x (sort_by le l) <-> In x l.
Proof.
  split; intros H.
  - exact (Permutation_in _ (sort_by_perm le l) H).
  - exact (Permutation_in _ (Permutation_sym (sort_by_perm le l)) H).
Qed.

(** Sorting a list whose last row is at least as late as every other
    row leaves that row last. *)
Lemma sort_by_last {A} (le : A -> A -> bool) (l : list A) (x : A) :
  (forall a, In a l -> le a x = true) ->
  sort_by le (l ++ [x]) = (sort_by le l ++ [x])%list.
Proof.
  assert (Hins : forall a l', le a x = true ->
                   insert_by le a (l' ++ [x]) = (insert_by le a l' ++ [x])%list).
  { intros a l' Hax. induction l' as [|b l' IH]; simpl; [now rewrite Hax|].
    destruct (le a b); [reflexivity|]. now rewrite IH. }
  induction l as [|a l IH]; intros H; simpl; [reflexivity|].
  rewrite IH by (intros; apply H; now right).
  apply Hins. apply H. now left.
Qed.

(** ** Accounts *)

Lemma register_cases jwt_sign now name email password passwordHash s :
  register jwt_sign now name email password passwordHash s =
    match truthy_str name, truthy_str email, truthy_str password with
    | Some n, Some e, Some _ =>
      match lookup_user_email e s with
      | Some _ => (mkResponse 409 (JError "Email already registered"), s)
      | None =>
        let u := mkUser (next_id (map user_id (users s))) n e passwordHash now in
        (mkResponse 201 (JAuth (jwt_sign now (user_id u) e) (user_id u) n e),
         set_users (users s ++ [u]) s)
      end
    | _, _, _ => (mkResponse 400 (JError "name, email, password required"), s)
    end.
Proof.
  unfold register.
  destruct (truthy_str name) as [n|]; [|reflexivity].
  destruct (truthy_str email) as [e|]; [|reflexivity].
  destruct (truthy_str password) as [p|]; [|reflexivity].
  unfold try_catch, user_create, user_findUnique_email, bind, gets, modify, ret, reply, throw.
  simpl. destruct (lookup_user_email e s) eqn:He; [reflexivity|].
  simpl. now rewrite He.
Qed.

Lemma register_fresh jwt_sign now name email password passwordHash n e p s :
  truthy_str name = Some n ->
  truthy_str email = Some e ->
  truthy_str password = Some p ->
  lookup_user_email e s = None ->
  let u := mkUser (next_id (map user_id (users s))) n e passwordHash now in
  let s' := set_users (users s ++ [u]) s in
  register jwt_sign now name email password passwordHash s
  = (mkResponse 201 (JAuth (jwt_sign now (user_id u) e) (user_id u) n e), s')
  /\ lookup_user_email e s' = Some u
  /\ lookup_user (user_id u) s' = Some u.
Proof.
  intros Hn He Hp Hfree. rewrite register_cases, Hn, He, Hp, Hfree. cbv zeta.
  split; [reflexivity|]. split.
  - unfold lookup_user_email. simpl. apply find_app_new; [exact Hfree|].
    simpl. apply String.eqb_refl.
  - unfold lookup_user. simpl. apply find_app_new; [apply find_fresh|].
    simpl. apply Z.eqb_refl.
Qed.

(** X1: a registration with all three fields and an email no account
    uses is answered 201, stores one user row with that email and the
    given password hash, and makes the email findable; from then on every
    registration with that email is answered 409 and stores nothing. *)
Theorem register_then_conflict jwt_sign now name email password passwordHash n e p s :
  truthy_str name = Some n ->
  truthy_str email = Some e ->
  truthy_str password = Some p ->
  lookup_user_email e s = None ->
  exists u s',
    register jwt_sign now name email password passwordHash s
    = (mkResponse 201 (JAuth (jwt_sign now (user_id u) e) (user_id u) n e), s')
    /\ users s' = (users s ++ [u])%list
    /\ user_name u = n /\ user_email u = e /\ user_passwordHash u = passwordHash
    /\ lookup_user_email e s' = Some u
    /\ lookup_user (user_id u) s' = Some u
    /\ forall now' name' password' passwordHash',
         register jwt_sign now' name' email password' passwordHash' s'
         = (mkResponse 409 (JError "Email already registered"), s')
         \/ register jwt_sign now' name' email password' passwordHash' s'
            = (mkResponse 400 (JError "name, email, password required"), s').
Proof.
  intros Hn He Hp Hfree.
  destruct (register_fresh jwt_sign now name email password passwordHash n e p s
              Hn He Hp Hfree) as (Hrun & Hmail & Hid).
  eexists _, _. split; [exact Hrun|]. simpl.
  repeat split; [exact Hmail|exact Hid|].
  intros now' name' password' passwordHash'.
  rewrite register_cases, He, Hmail.
  destruct (truthy_str name'); [|now right].
  destruct (truthy_str password'); [now left|now right].
Qed.

Lemma register_then_conflict_witness :
  exists u s',
    register demo_sign 1 (Some "Alice") (Some "alice@example.com") (Some "pw-a") "$2a$10$a"
             empty_store
    = (mkResponse 201 (JAuth (demo_sign 1 (user_id u) "alice@example.com") (user_id u)
                             "Alice" "alice@example.com"), s')
    /\ lookup_user_email "alice@example.com" s' = Some u.
Proof.
  destruct (register_then_conflict demo_sign 1 (Some "Alice") (Some "alice@example.com")
              (Some "pw-a") "$2a$10$a" "Alice" "alice@example.com" "pw-a" empty_store
              eq_refl eq_refl eq_refl eq_refl)
    as (u & s' & Hrun & _ & _ & _ & _ & Hmail & _).
  exists u, s'. split; [exact Hrun|exact Hmail].
Defined.

Section LoginFacts.
Variable bcrypt_compare : string -> string -> bool.
Variable jwt_sign : Z -> Z -> string -> string.

Lemma login_cases now email password s :
  login bcrypt_compare jwt_sign now email password s =
    match truthy_str email, truthy_str password with
    | Some e, Some p =>
      match lookup_user_email e s with
      | None => (mkResponse 401 (JError "Invalid credentials"), s)
      | Some u =>
        if negb (bcrypt_compare p (user_passwordHash u))
        then (mkResponse 401 (JError "Invalid credentials"), s)
        else (mkResponse 200 (JAuth (jwt_sign now (user_id u) (user_email u))
                                    (user_id u) (user_name u) (user_email u)), s)
      end
    | _, _ => (mkResponse 400 (JError "email and password required"), s)
    end.
Proof.
  unfold login.
  destruct (truthy_str email) as [e|]; [|reflexivity].
  destruct (truthy_str password) as [p|]; [|reflexivity].
  unfold try_catch, user_findUnique_email, bind, gets, ret, reply.
  simpl. destruct (lookup_user_email e s) as [u|]; [|reflexivity].
  simpl. now destruct (bcrypt_compare p (user_passwordHash u)).
Qed.

(** X2: a login never writes to the store; an unknown email and a wrong
    password get the same 401 reply, so the reply does not tell whether
    the account exists; a password that matches the stored hash gets 200
    with a token signed for that account's id and email. *)
Theorem login_spec now email password e p s :
  truthy_str email = Some e ->
  truthy_str password = Some p ->
  snd (login bcrypt_compare jwt_sign now email password s) = s
  /\ (lookup_user_email e s = None ->
      fst (login bcrypt_compare jwt_sign now email password s)
      = mkResponse 401 (JError "Invalid credentials"))
  /\ (forall u,
        lookup_user_email e s = Some u ->
        (bcrypt_compare p (user_passwordHash u) = false ->
           fst (login bcrypt_compare jwt_sign now email password s)
           = mkResponse 401 (JError "Invalid credentials"))
        /\ (bcrypt_compare p (user_passwordHash u) = true ->
              fst (login bcrypt_compare jwt_sign now email password s)
              = mkResponse 200 (JAuth (jwt_sign now (user_id u) e) (user_id u)
                                      (user_name u) e))).
Proof.
  intros He Hp. rewrite login_cases, He, Hp.
  split; [|split].
  - destruct (lookup_user_email e s) as [u|]; [|reflexivity].
    now destruct (bcrypt_compare p (user_passwordHash u)).
  - now intros ->.
  - intros u Hu. rewrite Hu.
    assert (Hmail : user_email u = e).
    { apply find_some in Hu as [_ Hu]. now apply String.eqb_eq in Hu. }
    split; intros ->; simpl; [reflexivity|now rewrite Hmail].
Qed.

End LoginFacts.

Lemma login_spec_witness :
  fst (login String.eqb demo_sign 9 (Some "bob@example.com") (Some "guess") offered)
  = mkResponse 401 (JError "Invalid credentials")
  /\ fst (login String.eqb demo_sign 9 (Some "eve@example.com") (Some "guess") offered)
     = mkResponse 401 (JError "Invalid credentials").
Proof.
  split.
  - destruct (login_spec String.eqb demo_sign 9 (Some "bob@example.com") (Some "guess")
                "bob@example.com" "guess" offered eq_refl eq_refl) as (_ & _ & Hknown).
    destruct (Hknown bob) as [Hwrong _]; [vm_compute; reflexivity|].
    apply Hwrong. vm_compute. reflexivity.
  - destruct (login_spec String.eqb demo_sign 9 (Some "eve@example.com") (Some "guess")
                "eve@example.com" "guess" offered eq_refl eq_refl) as (_ & Hunknown & _).
    apply Hunknown. vm_compute. reflexivity.
Defined.

Lemma substring_all (t : string) : String.substring 0 (String.length t) t = t.
Proof. induction t as [|c t IH]; simpl; [reflexivity|now rewrite IH]. Qed.

Lemma bearer_token_of (token : string) :
  bearer_token (Some ("Bearer " ++ token)%string) = Some token.
Proof.
  unfold bearer_token. simpl.
  assert (Hp : String.prefix "" token = true) by now destruct token.
  rewrite Hp. simpl. rewrite Nat.sub_0_r. now rewrite substring_all.
Qed.

(** X3: the token a registration returns opens the authenticated
    routes for the new account: when the password matches the hash
    stored, the registered user can log in; and when, at the time of a
    later request, [jwt.verify] accepts the two tokens [jwt.sign] issued
    for the new id, the one at registration and the one at login (they
    have not expired), a request carrying either of them as a bearer
    token reaches its handler as that user. *)
Theorem register_login_authenticate bcrypt_compare jwt_verify jwt_sign
    now now' now'' name email password passwordHash n e p s :
  truthy_str name = Some n ->
  truthy_str email = Some e ->
  truthy_str password = Some p ->
  lookup_user_email e s = None ->
  bcrypt_compare p passwordHash = true ->
  (forall t, t = now \/ t = now' ->
             jwt_sign t (next_id (map user_id (users s))) e <> ""
             /\ jwt_verify now'' (jwt_sign t (next_id (map user_id (users s))) e)
                = JwtPayload (Some (next_id (map user_id (users s)))) e) ->
  exists u token token' s',
    register jwt_sign now name email password passwordHash s
    = (mkResponse 201 (JAuth token (user_id u) n e), s')
    /\ login bcrypt_compare jwt_sign now' email password s'
       = (mkResponse 200 (JAuth token' (user_id u) n e), s')
    /\ authMiddleware jwt_verify now'' (Some ("Bearer " ++ token)%string) s' = Next u
    /\ authMiddleware jwt_verify now'' (Some ("Bearer " ++ token')%string) s' = Next u.
Proof.
  intros Hn He Hp Hfree Hhash Hjwt.
  destruct (register_fresh jwt_sign now name email password passwordHash n e p s
              Hn He Hp Hfree) as (Hrun & HbyMail & HbyId).
  eexists _, _, (jwt_sign now' _ e), _.
  split; [exact Hrun|].
  assert (Hauth : forall t, t = now \/ t = now' ->
            authMiddleware jwt_verify now''
              (Some ("Bearer " ++ jwt_sign t (next_id (map user_id (users s))) e)%string)
              (set_users (users s ++ [mkUser (next_id (map user_id (users s))) n e
                                             passwordHash now]) s)
            = Next (mkUser (next_id (map user_id (users s))) n e passwordHash now)).
  { intros t Ht0. rewrite authMiddleware_cases, bearer_token_of.
    destruct (Hjwt t Ht0) as [Hne Hv].
    assert (Ht : truthy_str (Some (jwt_sign t (next_id (map user_id (users s))) e))
                 = Some (jwt_sign t (next_id (map user_id (users s))) e)).
    { simpl. destruct (jwt_sign t _ e); [congruence|reflexivity]. }
    rewrite Ht, Hv. simpl in HbyId. now rewrite HbyId. }
  split; [|split; apply Hauth; auto].
  rewrite login_cases, He, Hp, HbyMail. simpl. now rewrite Hhash.
Qed.

Lemma register_login_authenticate_witness :
  exists u token token' s',
    register dated_sign 100 (Some "Alice") (Some "alice@example.com") (Some "pw-a") "pw-a"
             empty_store
    = (mkResponse 201 (JAuth token (user_id u) "Alice" "alice@example.com"), s')
    /\ login String.eqb dated_sign 5000 (Some "alice@example.com") (Some "pw-a") s'
       = (mkResponse 200 (JAuth token' (user_id u) "Alice" "alice@example.com"), s')
    /\ authMiddleware dated_verify 600000 (Some ("Bearer " ++ token)%string) s' = Next u
    /\ authMiddleware dated_verify 600000 (Some ("Bearer " ++ token')%string) s' = Next u
    /\ dated_verify (100 + seven_days) token = TokenExpiredError.
Proof.
  destruct (register_login_authenticate String.eqb dated_verify dated_sign 100 5000 600000
              (Some "Alice") (Some "alice@example.com") (Some "pw-a") "pw-a"
              "Alice" "alice@example.com" "pw-a" empty_store
              eq_refl eq_refl eq_refl eq_refl eq_refl)
    as (u & token & token' & s' & Hrun & Hlogin & Hauth & Hauth').
  - intros t [-> | ->]; (split; [vm_compute; discriminate|vm_compute; reflexivity]).
  - exists u, token, token', s'.
    split; [exact Hrun|]. split; [exact Hlogin|]. split; [exact Hauth|].
    split; [exact Hauth'|].
    assert (Htoken : token = dated_sign 100 1 "alice@example.com").
    { vm_compute in Hrun. now inversion Hrun. }
    rewrite Htoken. vm_compute. reflexivity.
Defined.

(** ** Unique emails and category names *)

#[global] Instance keeps_emails_frame : Frame keeps_emails.
Proof. split; unfold keeps_emails; auto. Qed.

#[global] Instance keeps_names_frame : Frame keeps_names.
Proof. split; unfold keeps_names; auto. Qed.

Lemma has_dup_app (l l' : list string) :
  has_dup l = false -> has_dup l' = false ->
  (forall a, In a l -> existsb (String.eqb a) l' = false) ->
  has_dup (l ++ l') = false.
Proof.
  induction l as [|a l IH]; simpl; intros Hl Hl' Hsep; [exact Hl'|].
  apply orb_false_elim in Hl as [Ha Hl].
  rewrite existsb_app, Ha, (Hsep a (or_introl eq_refl)). simpl.
  apply IH; auto.
Qed.

Lemma user_create_emails now name email passwordHash :
  preserves keeps_emails (user_create now name email passwordHash).
Proof.
  intros s. unfold user_create, user_findUnique_email, bind, gets, modify, ret, throw.
  simpl. destruct (lookup_user_email email s) eqn:Hfree; simpl; [exact (fun H => H)|].
  unfold keeps_emails, emails_distinct. simpl. rewrite !negb_true_iff, map_app.
  intros Hd. apply has_dup_app; [exact Hd|reflexivity|].
  intros a Hin. simpl. rewrite orb_false_r.
  apply in_map_iff in Hin as (u & <- & Hin).
  unfold lookup_user_email in Hfree.
  exact (find_none _ _ Hfree u Hin).
Qed.

Lemma fresh_categories_names now id names :
  map cat_name (fresh_categories now id names) = names.
Proof.
  revert id. induction names as [|n names IH]; intros id; simpl; [reflexivity|].
  now rewrite IH.
Qed.

Lemma foodCategory_createMany_names now names :
  preserves keeps_names (foodCategory_createMany now names).
Proof.
  intros s. unfold foodCategory_createMany, bind, gets, modify, ret, throw.
  simpl. destruct (existsb _ names) eqn:Hclash; simpl; [exact (fun H => H)|].
  destruct (has_dup names) eqn:Hdup; simpl; [exact (fun H => H)|].
  unfold keeps_names, names_distinct. simpl.
  rewrite !negb_true_iff, map_app, fresh_categories_names.
  intros Hd. apply has_dup_app; [exact Hd|exact Hdup|].
  intros a Hin. apply in_map_iff in Hin as (c & <- & Hin).
  destruct (existsb (String.eqb (cat_name c)) names) eqn:E; [|reflexivity].
  apply existsb_exists in E as (n & Hn & Hcn).
  assert (existsb (fun n => existsb (fun c => String.eqb (cat_name c) n) (foodCategories s))
                  names = true); [|congruence].
  apply existsb_exists. exists n. split; [exact Hn|].
  apply existsb_exists. eauto.
Qed.

#[global] Hint Resolve user_create_emails foodCategory_createMany_names : frames.

Lemma ensureCategories_names now : preserves keeps_names (ensureCategories now).
Proof. unfold ensureCategories. frame_body. Qed.

#[global] Hint Resolve ensureCategories_names : frames.

Section ReachableUnique.
Variable jwt_verify : Z -> string -> JwtResult.
Variable jwt_sign : Z -> Z -> string -> string.
Variable trim : string -> string.

Lemma api_keeps_emails now req s :
  keeps_emails s (snd (api jwt_verify jwt_sign trim now req s)).
Proof.
  destruct req; simpl;
    try (apply (preserves_authenticated keeps_emails); intros).
  - unfold register. frame_ok.
  - unfold createDonation. frame_ok.
  - unfold listCategories. frame_ok.
  - unfold createItem. frame_ok.
  - unfold setItemStatus. frame_ok.
  - unfold createGroup. frame_ok.
  - unfold addMember. frame_ok.
  - unfold createClaim. frame_ok.
  - unfold decideClaim. frame_ok.
  - unfold listMessages. frame_ok.
  - unfold postMessage. frame_ok.
  - unfold shareItemToGroup. frame_ok.
Qed.

Lemma api_keeps_names now req s :
  keeps_names s (snd (api jwt_verify jwt_sign trim now req s)).
Proof.
  destruct req; simpl;
    try (apply (preserves_authenticated keeps_names); intros).
  - unfold register. frame_ok.
  - unfold createDonation. frame_ok.
  - unfold listCategories. frame_ok.
  - unfold createItem. frame_ok.
  - unfold setItemStatus. frame_ok.
  - unfold createGroup. frame_ok.
  - unfold addMember. frame_ok.
  - unfold createClaim. frame_ok.
  - unfold decideClaim. frame_ok.
  - unfold listMessages. frame_ok.
  - unfold postMessage. frame_ok.
  - unfold shareItemToGroup. frame_ok.
Qed.

(** X4: in every store the server reaches, no two accounts share an
    email and no two categories share a name: the unique indexes on
    User.email and FoodCategory.name are never what stops a request. *)
Theorem reachable_emails_names_distinct s :
  reachable jwt_verify jwt_sign trim s ->
  emails_distinct s = true /\ names_distinct s = true.
Proof.
  induction 1 as [|s now req Hs [IHe IHn]]; [split; reflexivity|].
  split; [now apply api_keeps_emails|now apply api_keeps_names].
Qed.

End ReachableUnique.

Lemma reachable_emails_names_distinct_witness :
  emails_distinct offered = true /\ names_distinct offered = true.
Proof.
  apply (reachable_emails_names_distinct demo_verify demo_sign demo_trim).
  unfold offered, listed. repeat apply reachable_run. constructor.
Defined.

(** ** Seeding the categories *)

Lemma has_dup_NoDup (l : list string) : has_dup l = false -> NoDup l.
Proof.
  induction l as [|a l IH]; simpl; intros H; [constructor|].
  apply orb_false_elim in H as [Ha Hl]. constructor; [|auto].
  intros Hin.
  assert (existsb (String.eqb a) l = true); [|congruence].
  apply existsb_exists. exists a. split; [exact Hin|apply String.eqb_refl].
Qed.

Lemma has_dup_map_filter {A} (key : A -> string) (f : A -> bool) (l : list A) :
  has_dup (map key l) = false -> has_dup (map key (filter f l)) = false.
Proof.
  induction l as [|a l IH]; simpl; [reflexivity|].
  intros H. apply orb_false_elim in H as [Ha Hl].
  destruct (f a); simpl; [|auto].
  rewrite IH by exact Hl. rewrite orb_false_r.
  destruct (existsb (String.eqb (key a)) (map key (filter f l))) eqn:E; [|reflexivity].
  apply existsb_exists in E as (k & Hin & Hk).
  apply in_map_iff in Hin as (b & <- & Hb). apply filter_In in Hb as [Hb _].
  assert (existsb (String.eqb (key a)) (map key l) = true); [|congruence].
  apply existsb_exists. exists (key b). split; [now apply in_map|exact Hk].
Qed.

Lemma named_In (cats : list FoodCategory) (n : string) :
  existsb (fun c => String.eqb (cat_name c) n) cats = true <->
  exists c, In c cats /\ cat_name c = n.
Proof.
  rewrite existsb_exists. split; intros (c & Hin & Hc); exists c; split; auto.
  - now apply String.eqb_eq.
  - now apply String.eqb_eq.
Qed.

(** When every name is stored, nothing is left to create. *)
Lemma missing_names_none (cats : list FoodCategory) (names : list string) :
  (forall n, In n names -> exists c, In c cats /\ cat_name c = n) ->
  filter (fun n => negb (existsb (fun c => String.eqb (cat_name c) n)
                           (filter (fun c => existsb (String.eqb (cat_name c)) names) cats)))
         names = [].
Proof.
  intros Hall.
  destruct (filter _ names) as [|n rest] eqn:Hf; [reflexivity|].
  assert (Hin : In n (n :: rest)) by now left.
  rewrite <- Hf in Hin. apply filter_In in Hin as [Hn Hmiss].
  destruct (Hall n Hn) as (c & Hc & Hcn).
  assert (existsb (fun c => String.eqb (cat_name c) n)
            (filter (fun c => existsb (String.eqb (cat_name c)) names) cats) = true).
  { apply named_In. exists c. split; [|exact Hcn].
    apply filter_In. split; [exact Hc|].
    apply existsb_exists. exists n. split; [exact Hn|now apply String.eqb_eq]. }
  rewrite H in Hmiss. discriminate.
Qed.

(** After the missing names were created, every name is stored. *)
Lemma created_names_present now id (cats : list FoodCategory) (names : list string) n :
  In n names ->
  exists c,
    In c (cats ++ fresh_categories now id
            (filter (fun n => negb (existsb (fun c => String.eqb (cat_name c) n)
                                      (filter (fun c => existsb (String.eqb (cat_name c)) names)
                                              cats)))
                    names))
    /\ cat_name c = n.
Proof.
  intros Hn.
  destruct (existsb (fun c => String.eqb (cat_name c) n)
              (filter (fun c => existsb (String.eqb (cat_name c)) names) cats)) eqn:E.
  - apply named_In in E as (c & Hc & Hcn). apply filter_In in Hc as [Hc _].
    exists c. split; [apply in_or_app; now left|exact Hcn].
  - match goal with
    | |- context [fresh_categories now id ?l] =>
      assert (Hin : In n (map cat_name (fresh_categories now id l)))
    end.
    { rewrite fresh_categories_names. apply filter_In. split; [exact Hn|]. now rewrite E. }
    apply in_map_iff in Hin as (c & Hcn & Hc).
    exists c. split; [apply in_or_app; now right|exact Hcn].
Qed.

(** X5: seeding the default categories never fails and is idempotent:
    a second run, at any later time, changes nothing; and for a store
    that respects the unique index on category names, every default name
    has a category once it has run. *)
Theorem ensureCategories_idempotent now now' s :
  exists s1,
    ensureCategories now s = (Value tt, s1)
    /\ ensureCategories now' s1 = (Value tt, s1)
    /\ (names_distinct s = true ->
        forall n, In n defaults -> exists c, In c (foodCategories s1) /\ cat_name c = n).
Proof.
  unfold ensureCategories, names_distinct.
  assert (Hnodup : has_dup defaults = false) by (vm_compute; reflexivity).
  revert Hnodup. generalize defaults as names. intros names Hnodup.
  unfold foodCategory_findMany_name_in, foodCategory_createMany,
    bind, gets, modify, ret, throw.
  cbv beta iota.
  destruct (Nat.eqb (List.length (filter (fun c => existsb (String.eqb (cat_name c)) names)
                                         (foodCategories s)))
                    (List.length names)) eqn:Hlen.
  - exists s. split; [reflexivity|]. rewrite Hlen. split; [reflexivity|].
    intros Hd n Hn. apply negb_true_iff in Hd.
    apply Nat.eqb_eq in Hlen.
    assert (Hincl : incl names
              (map cat_name (filter (fun c => existsb (String.eqb (cat_name c)) names)
                                    (foodCategories s)))).
    { apply NoDup_length_incl.
      - apply has_dup_NoDup. now apply has_dup_map_filter.
      - rewrite length_map. lia.
      - intros k Hk. apply in_map_iff in Hk as (c & <- & Hc).
        apply filter_In in Hc as [_ Hc]. apply existsb_exists in Hc as (m & Hm & Hcm).
        apply String.eqb_eq in Hcm. now rewrite Hcm. }
    specialize (Hincl n Hn). apply in_map_iff in Hincl as (c & Hcn & Hc).
    apply filter_In in Hc as [Hc _]. eauto.
  - destruct (0 <? List.length _)%nat eqn:Hpos.
    + cbv beta iota. rewrite missing_names_fresh.
      rewrite has_dup_filter by exact Hnodup. cbv beta iota. simpl orb. cbv beta iota.
      eexists. split; [reflexivity|].
      assert (Hall : forall n, In n names ->
                exists c,
                  In c (foodCategories s ++
                        fresh_categories now (next_id (map cat_id (foodCategories s)))
                          (filter (fun n => negb (existsb (fun c => String.eqb (cat_name c) n)
                                     (filter (fun c => existsb (String.eqb (cat_name c)) names)
                                             (foodCategories s))))
                                  names))
                  /\ cat_name c = n).
      { intros n Hn. now apply created_names_present. }
      split; [|intros _; exact Hall].
      cbn [foodCategories set_foodCategories].
      rewrite (missing_names_none _ _ Hall).
      match goal with
      | |- (if ?b then _ else _) _ = _ => destruct b
      end; reflexivity.
    + exists s. split; [reflexivity|]. rewrite Hlen, Hpos. split; [reflexivity|].
      intros _ n Hn.
      apply Nat.ltb_ge in Hpos.
      destruct (filter _ names) as [|m rest] eqn:Hf; [|simpl in Hpos; lia].
      destruct (existsb (fun c => String.eqb (cat_name c) n)
                  (filter (fun c => existsb (String.eqb (cat_name c)) names)
                          (foodCategories s))) eqn:E.
      * apply named_In in E as (c & Hc & Hcn). apply filter_In in Hc as [Hc _]. eauto.
      * assert (Hin : In n []); [|contradiction].
        rewrite <- Hf. apply filter_In. split; [exact Hn|]. now rewrite E.
Qed.

Lemma ensureCategories_idempotent_witness :
  exists s1,
    ensureCategories 3 empty_store = (Value tt, s1)
    /\ ensureCategories 4 s1 = (Value tt, s1)
    /\ exists c, In c (foodCategories s1) /\ cat_name c = "Carne".
Proof.
  destruct (ensureCategories_idempotent 3 4 empty_store) as (s1 & Hrun & Hagain & Hall).
  exists s1. split; [exact Hrun|]. split; [exact Hagain|].
  apply Hall; [reflexivity|]. simpl. auto.
Defined.

(** ** Primary keys and foreign keys in every reachable store *)

#[global] Instance keeps_distinct_frame : Frame keeps_distinct.
Proof. split; unfold keeps_distinct; auto. Qed.

#[global] Instance keeps_joins_frame : Frame keeps_joins.
Proof. split; unfold keeps_joins; auto. Qed.

Lemma update_first_keys {A B} (p : A -> bool) (f : A -> A) (key : A -> B) (l : list A) :
  (forall a, key (f a) = key a) -> map key (update_first p f l) = map key l.
Proof.
  intros Hk. induction l as [|a l IH]; simpl; [reflexivity|].
  destruct (p a); simpl; [now rewrite Hk|now rewrite IH].
Qed.

Lemma distinct_new {A} (key : A -> Z) (l : list A) (x : A) :
  key x = next_id (map key l) ->
  distinct (map key l) = true -> distinct (map key (l ++ [x])) = true.
Proof.
  intros Hx Hd. rewrite map_app. simpl. rewrite Hx. now apply distinct_app_fresh.
Qed.

(** Unfold an operation on a store and split along the rows it found. *)
Ltac op_run :=
  intros s; autounfold with writes; autounfold with reads;
  unfold required, bind, gets, modify, ret, throw; simpl;
  repeat match goal with
         | |- _ _ (snd (match ?x with _ => _ end _)) => destruct x eqn:?; simpl
         | |- _ _ (snd (match ?x with _ => _ end)) => destruct x eqn:?; simpl
         end;
  try exact (fun Hkept => Hkept).

Ltac distinct_step :=
  unfold keeps_distinct, ids_distinct; simpl;
  rewrite !andb_true_iff; intros (((Hu & Hi) & Hc) & Hg);
  repeat split; auto;
  first [ apply distinct_new; [reflexivity|assumption]
        | rewrite update_first_keys by reflexivity; assumption ].

Lemma user_create_distinct now name email passwordHash :
  preserves keeps_distinct (user_create now name email passwordHash).
Proof. op_run. distinct_step. Qed.

Lemma foodItem_create_distinct now title categoryId expiresAt ownerId :
  preserves keeps_distinct (foodItem_create now title categoryId expiresAt ownerId).
Proof.
  intros s.
  unfold foodItem_create, user_findUnique_id, foodCategory_findUnique,
    bind, gets, modify, ret, throw.
  simpl. destruct (lookup_user ownerId s); simpl; [|exact (fun H => H)].
  destruct categoryId as [cid|]; simpl;
    [destruct (lookup_category cid s); simpl; [|exact (fun H => H)]|];
    distinct_step.
Qed.

Lemma foodItem_update_id_ownerId_distinct id ownerId st :
  preserves keeps_distinct (foodItem_update_id_ownerId id ownerId st).
Proof. op_run. distinct_step. Qed.

Lemma foodItem_update_id_distinct id st :
  preserves keeps_distinct (foodItem_update_id id st).
Proof. op_run. distinct_step. Qed.

Lemma friendGroup_create_distinct now name ownerId :
  preserves keeps_distinct (friendGroup_create now name ownerId).
Proof. op_run. distinct_step. Qed.

Lemma claim_create_distinct now itemId claimerId :
  preserves keeps_distinct (claim_create now itemId claimerId).
Proof. op_run. distinct_step. Qed.

Lemma claim_update_decision_distinct id st decidedAt :
  preserves keeps_distinct (claim_update_decision id st decidedAt).
Proof.
  unfold claim_update_decision. autounfold with reads.
  repeat first
    [ frame_step
    | lazymatch goal with
      | |- preserves ?R (modify _) => apply (preserves_modify R)
      end ].
  intros s. distinct_step.
Qed.

#[global] Hint Resolve user_create_distinct foodItem_create_distinct
  foodItem_update_id_ownerId_distinct foodItem_update_id_distinct friendGroup_create_distinct
  claim_create_distinct claim_update_decision_distinct : frames.

Lemma joins_ok_step s s' :
  joins_ok s = true ->
  (forall id, has_user s id = true -> has_user s' id = true) ->
  (forall id, has_item s id = true -> has_item s' id = true) ->
  (forall id, has_category s id = true -> has_category s' id = true) ->
  (forall id, has_group s id = true -> has_group s' id = true) ->
  (forall i, In i (foodItems s') ->
     (exists i0, In i0 (foodItems s) /\ item_ownerId i = item_ownerId i0
                 /\ item_categoryId i = item_categoryId i0)
     \/ (has_user s' (item_ownerId i) = true
         /\ match item_categoryId i with
            | Some c => has_category s' c = true
            | None => True
            end)) ->
  (forall g, In g (friendGroups s') ->
     In g (friendGroups s) \/ has_user s' (group_ownerId g) = true) ->
  (forall m, In m (groupMembers s') ->
     In m (groupMembers s)
     \/ (has_user s' (member_userId m) = true /\ has_group s' (member_groupId m) = true)) ->
  (forall sh, In sh (groupShares s') ->
     In sh (groupShares s)
     \/ (has_item s' (share_itemId sh) = true /\ has_group s' (share_groupId sh) = true)) ->
  joins_ok s' = true.
Proof.
  unfold joins_ok. intros Hok Hu Hi Hc Hg Hitems Hgroups Hmembers Hshares.
  rewrite !andb_true_iff in Hok. destruct Hok as (((Hit & Hgr) & Hme) & Hsh).
  rewrite forallb_forall in Hit, Hgr, Hme, Hsh.
  rewrite !andb_true_iff, !forallb_forall. repeat split.
  - intros i Hin. destruct (Hitems i Hin) as [(i0 & Hin0 & -> & ->) | [H1 H2]].
    + apply Hit in Hin0. apply andb_prop in Hin0 as [H1 H2].
      rewrite (Hu _ H1). simpl. destruct (item_categoryId i0); auto.
    + rewrite H1. simpl. destruct (item_categoryId i); auto.
  - intros g Hin. destruct (Hgroups g Hin) as [Hin0 | H]; auto.
  - intros m Hin. destruct (Hmembers m Hin) as [Hin0 | [H1 H2]].
    + apply Hme in Hin0. apply andb_prop in Hin0 as [H1 H2].
      now rewrite (Hu _ H1), (Hg _ H2).
    + now rewrite H1, H2.
  - intros sh Hin. destruct (Hshares sh Hin) as [Hin0 | [H1 H2]].
    + apply Hsh in Hin0. apply andb_prop in Hin0 as [H1 H2].
      now rewrite (Hi _ H1), (Hg _ H2).
    + now rewrite H1, H2.
Qed.

(** The obligations of [joins_ok_step] for the tables a write leaves alone. *)
Ltac joins_step s :=
  intros Hok; apply (joins_ok_step s);
  [ exact Hok
  | try (intros ? Hsame; exact Hsame)
  | try (intros ? Hsame; exact Hsame)
  | try (intros ? Hsame; exact Hsame)
  | try (intros ? Hsame; exact Hsame)
  | try (simpl; intros ? ?; left; solve [eauto])
  | try (simpl; intros ? ?; left; assumption)
  | try (simpl; intros ? ?; left; assumption)
  | try (simpl; intros ? ?; left; assumption) ].

Ltac grown := intros ?; unfold has_user, has_item, has_category, has_group; simpl;
              apply existsb_app_l.

Ltac added Hin := simpl; intros ? Hin; apply in_app_or in Hin as [Hin | [<- | []]];
                  [left; solve [eauto]|right; simpl].

Lemma user_create_joins now name email passwordHash :
  preserves keeps_joins (user_create now name email passwordHash).
Proof. op_run. joins_step s. grown. Qed.

Lemma foodCategory_createMany_joins now names :
  preserves keeps_joins (foodCategory_createMany now names).
Proof.
  intros s. unfold foodCategory_createMany, bind, gets, modify, ret, throw. simpl.
  destruct (_ || _); simpl; [exact (fun H => H)|]. joins_step s. grown.
Qed.

Lemma foodItem_create_joins now title categoryId expiresAt ownerId :
  preserves keeps_joins (foodItem_create now title categoryId expiresAt ownerId).
Proof.
  intros s.
  unfold foodItem_create, user_findUnique_id, foodCategory_findUnique,
    bind, gets, modify, ret, throw.
  simpl. destruct (lookup_user ownerId s) eqn:Hu; simpl; [|exact (fun H => H)].
  destruct categoryId as [cid|]; simpl;
    [destruct (lookup_category cid s) eqn:Hc; simpl; [|exact (fun H => H)]|];
    (joins_step s; [grown|added Hin]);
    (split; [eapply find_existsb; exact Hu|]); [eapply find_existsb; exact Hc|exact I].
Qed.

Lemma foodItem_update_items_joins s p st :
  keeps_joins s (set_foodItems (update_first p (with_item_status st) (foodItems s)) s).
Proof.
  joins_step s.
  - intros id. unfold has_item. simpl. now rewrite update_first_existsb.
  - simpl. intros i Hin. left.
    apply update_first_In in Hin as [Hin | (y & Hy & ->)]; eauto.
Qed.

Lemma foodItem_update_id_ownerId_joins id ownerId st :
  preserves keeps_joins (foodItem_update_id_ownerId id ownerId st).
Proof. op_run. apply foodItem_update_items_joins. Qed.

Lemma foodItem_update_id_joins id st : preserves keeps_joins (foodItem_update_id id st).
Proof. op_run. apply foodItem_update_items_joins. Qed.

Lemma friendGroup_create_joins now name ownerId :
  preserves keeps_joins (friendGroup_create now name ownerId).
Proof.
  op_run. joins_step s; [grown|added Hin].
  eapply find_existsb; eauto.
Qed.

Lemma groupMember_create_joins now groupId userId tag :
  preserves keeps_joins (groupMember_create now groupId userId tag).
Proof.
  op_run. joins_step s. added Hin.
  split; eapply find_existsb; eauto.
Qed.

Lemma groupShare_upsert_joins now itemId groupId :
  preserves keeps_joins (groupShare_upsert now itemId groupId).
Proof.
  op_run. joins_step s. added Hin.
  split; eapply find_existsb; eauto.
Qed.

#[global] Hint Resolve user_create_joins foodCategory_createMany_joins foodItem_create_joins
  foodItem_update_id_ownerId_joins foodItem_update_id_joins friendGroup_create_joins
  groupMember_create_joins groupShare_upsert_joins : frames.

Lemma ensureCategories_joins now : preserves keeps_joins (ensureCategories now).
Proof. unfold ensureCategories. frame_body. Qed.

#[global] Hint Resolve ensureCategories_joins : frames.

Section ReachableKeys.
Variable jwt_verify : Z -> string -> JwtResult.
Variable jwt_sign : Z -> Z -> string -> string.
Variable trim : string -> string.

Lemma api_keeps_distinct now req s :
  keeps_distinct s (snd (api jwt_verify jwt_sign trim now req s)).
Proof.
  destruct req; simpl;
    try (apply (preserves_authenticated keeps_distinct); intros).
  - unfold register. frame_ok.
  - unfold createDonation. frame_ok.
  - unfold listCategories. frame_ok.
  - unfold createItem. frame_ok.
  - unfold setItemStatus. frame_ok.
  - unfold createGroup. frame_ok.
  - unfold addMember. frame_ok.
  - unfold createClaim. frame_ok.
  - unfold decideClaim. frame_ok.
  - unfold listMessages. frame_ok.
  - unfold postMessage. frame_ok.
  - unfold shareItemToGroup. frame_ok.
Qed.

Lemma api_keeps_joins now req s :
  keeps_joins s (snd (api jwt_verify jwt_sign trim now req s)).
Proof.
  destruct req; simpl;
    try (apply (preserves_authenticated keeps_joins); intros).
  - unfold register. frame_ok.
  - unfold createDonation. frame_ok.
  - unfold listCategories. frame_ok.
  - unfold createItem. frame_ok.
  - unfold setItemStatus. frame_ok.
  - unfold createGroup. frame_ok.
  - unfold addMember. frame_ok.
  - unfold createClaim. frame_ok.
  - unfold decideClaim. frame_ok.
  - unfold listMessages. frame_ok.
  - unfold postMessage. frame_ok.
  - unfold shareItemToGroup. frame_ok.
Qed.

(** X6: in every store the server reaches, the ids of users, items,
    claims and groups never repeat, and every item's owner and category,
    every group's owner, every membership's user and group and every
    share's item and group exist: no request leaves a dangling
    reference. *)
Theorem reachable_keys s :
  reachable jwt_verify jwt_sign trim s ->
  ids_distinct s = true /\ joins_ok s = true.
Proof.
  induction 1 as [|s now req Hs [IHd IHj]]; [split; reflexivity|].
  split; [now apply api_keeps_distinct|now apply api_keeps_joins].
Qed.

End ReachableKeys.

Lemma reachable_keys_witness : ids_distinct flat = true /\ joins_ok flat = true.
Proof.
  apply (reachable_keys demo_verify demo_sign demo_trim).
  unfold flat, offered, listed. repeat apply reachable_run. constructor.
Defined.

(** ** Nothing is ever deleted *)

Section Extends.
Context {A : Type} (K : A -> A -> Prop).
Hypothesis K_refl : forall a, K a a.
Hypothesis K_trans : forall a b c, K a b -> K b c -> K a c.

Lemma extends_refl l : extends K l l.
Proof. exists l, []. rewrite app_nil_r. split; [reflexivity|now apply Forall2_same]. Qed.

Lemma extends_app l added : extends K l (l ++ added).
Proof. exists l, added. split; [reflexivity|now apply Forall2_same]. Qed.

Lemma extends_update p f l : (forall a, K a (f a)) -> extends K l (update_first p f l).
Proof.
  intros Hf. exists (update_first p f l), []. rewrite app_nil_r. split; [reflexivity|].
  induction l as [|a l IH]; simpl; [constructor|].
  destruct (p a); constructor; auto. now apply Forall2_same.
Qed.

Lemma extends_trans l1 l2 l3 : extends K l1 l2 -> extends K l2 l3 -> extends K l1 l3.
Proof.
  intros (r1 & a1 & -> & H1) (r2 & a2 & -> & H2).
  apply Forall2_app_inv_l in H2 as (r2a & r2b & H2a & H2b & ->).
  exists r2a, (r2b ++ a2)%list. rewrite app_assoc. split; [reflexivity|].
  clear - K_trans H1 H2a. revert r2a H2a.
  induction H1; intros r2a H2a; inversion H2a; subst; constructor; eauto.
Qed.

End Extends.

Lemma item_kept_refl a : item_kept a a.
Proof. now destruct a. Qed.

Lemma item_kept_trans a b c : item_kept a b -> item_kept b c -> item_kept a c.
Proof. unfold item_kept. intros -> ->. reflexivity. Qed.

Lemma item_kept_status st a : item_kept a (with_item_status st a).
Proof. reflexivity. Qed.

Lemma claim_kept_refl a : claim_kept a a.
Proof. unfold claim_kept. auto. Qed.

Lemma claim_kept_trans a b c : claim_kept a b -> claim_kept b c -> claim_kept a c.
Proof. unfold claim_kept. intuition congruence. Qed.

Lemma claim_kept_decision st t a : claim_kept a (with_claim_decision st t a).
Proof. unfold claim_kept. auto. Qed.

Create HintDb grow.
#[global] Hint Resolve item_kept_refl item_kept_status claim_kept_refl claim_kept_decision
  : grow.
#[global] Hint Extern 1 (extends _ ?l ?l) => apply extends_refl : grow.
#[global] Hint Extern 1 (extends _ ?l (?l ++ _)) => apply extends_app : grow.
#[global] Hint Extern 1 (extends _ ?l (update_first _ _ ?l)) => apply extends_update : grow.

#[global] Instance grows_frame : Frame grows.
Proof.
  split.
  - intros s. unfold grows. repeat split; auto with grow.
  - intros a b c Hab Hbc. unfold grows in *.
    destruct Hab as (U1 & C1 & I1 & G1 & M1 & L1 & S1 & N1 & D1).
    destruct Hbc as (U2 & C2 & I2 & G2 & M2 & L2 & S2 & N2 & D2).
    repeat split;
      first [ eapply (extends_trans eq); [intros; congruence|eassumption|eassumption]
            | eapply (extends_trans item_kept);
              [exact item_kept_trans|eassumption|eassumption]
            | eapply (extends_trans claim_kept);
              [exact claim_kept_trans|eassumption|eassumption] ].
Qed.

Ltac frame_grows :=
  frame_handler;
  autounfold with writes; autounfold with reads;
  repeat first
    [ frame_step
    | lazymatch goal with
      | |- preserves ?R (modify _) =>
        apply (preserves_modify R); intros ?; unfold grows; simpl;
        repeat split; auto with grow
      end ].

Section Grows.
Variable jwt_verify : Z -> string -> JwtResult.
Variable jwt_sign : Z -> Z -> string -> string.
Variable trim : string -> string.

Lemma api_grows now req s : grows s (snd (api jwt_verify jwt_sign trim now req s)).
Proof.
  destruct req; simpl;
    try (apply (preserves_authenticated grows); intros).
  - unfold register. frame_grows.
  - unfold createDonation. frame_grows.
  - unfold listCategories. frame_grows.
  - unfold createItem. frame_grows.
  - unfold setItemStatus. frame_grows.
  - unfold createGroup. frame_grows.
  - unfold addMember. frame_grows.
  - unfold createClaim. frame_grows.
  - unfold decideClaim. frame_grows.
  - unfold listMessages. frame_grows.
  - unfold postMessage. frame_grows.
  - unfold shareItemToGroup. frame_grows.
Qed.

(** X7: whatever requests are served, in whatever order, no row of any
    table is removed or moved; users, categories, groups, memberships,
    shares, messages and donations are never modified once stored; an
    item keeps everything but its status (in particular its owner), and a
    claim keeps its id, item, claimer and creation time. *)
Theorem serve_grows reqs s : grows s (serve jwt_verify jwt_sign trim reqs s).
Proof.
  revert s. induction reqs as [|[now req] reqs IH]; intros s; simpl.
  - apply frame_refl.
  - eapply frame_trans; [apply api_grows|apply IH].
Qed.

End Grows.

(** ** Groups and memberships *)

Lemma lookup_group_id id s g : lookup_group id s = Some g -> group_id g = id.
Proof. intros H. apply find_some in H. lia. Qed.

Lemma createGroup_cases now user name s :
  createGroup now user name s =
    match truthy_str name with
    | None => (mkResponse 400 (JError "name required"), s)
    | Some n =>
      match lookup_user (user_id user) s with
      | None => (mkResponse 500 (JError "Failed to create group"), s)
      | Some _ =>
        let g := mkFriendGroup (next_id (map group_id (friendGroups s))) n (user_id user) now in
        (mkResponse 201 (JGroup g), set_friendGroups (friendGroups s ++ [g]) s)
      end
    end.
Proof.
  unfold createGroup. destruct (truthy_str name) as [n|]; [|reflexivity].
  unfold try_catch, friendGroup_create, user_findUnique_id, bind, gets, modify, ret, throw.
  simpl. now destruct (lookup_user (user_id user) s).
Qed.

Lemma joins_ok_member_group s m :
  joins_ok s = true -> In m (groupMembers s) -> has_group s (member_groupId m) = true.
Proof.
  unfold joins_ok. rewrite !andb_true_iff, !forallb_forall.
  intros (((_ & _) & Hm) & _) Hin. apply Hm in Hin. now apply andb_prop in Hin.
Qed.

(** X8: a group request with a name, by a stored user, is answered 201
    and stores a group owned by the caller under a fresh id; the caller
    can then act in the group, and while the memberships respect their
    foreign keys no other user can. *)
Theorem createGroup_owner_only now user name n s :
  truthy_str name = Some n ->
  lookup_user (user_id user) s = Some user ->
  exists g s',
    createGroup now user name s = (mkResponse 201 (JGroup g), s')
    /\ group_name g = n /\ group_ownerId g = user_id user
    /\ lookup_group (group_id g) s = None
    /\ lookup_group (group_id g) s' = Some g
    /\ may_access user (group_id g) s' = true
    /\ (joins_ok s = true ->
        forall other, user_id other <> user_id user ->
                      may_access other (group_id g) s' = false).
Proof.
  intros Hn Hu. rewrite createGroup_cases, Hn, Hu. cbv zeta.
  eexists _, _. split; [reflexivity|]. simpl.
  assert (Hnew : lookup_group (next_id (map group_id (friendGroups s))) s = None)
    by apply find_fresh.
  assert (Hfound : lookup_group (next_id (map group_id (friendGroups s)))
                     (set_friendGroups
                        (friendGroups s ++
                         [mkFriendGroup (next_id (map group_id (friendGroups s))) n
                                        (user_id user) now]) s)
                   = Some (mkFriendGroup (next_id (map group_id (friendGroups s))) n
                                         (user_id user) now)).
  { unfold lookup_group. simpl. apply find_app_new; [exact Hnew|]. simpl. apply Z.eqb_refl. }
  repeat split; [exact Hnew|exact Hfound| |].
  - unfold may_access. rewrite Hfound. unfold isOwner. simpl. now rewrite Z.eqb_refl.
  - intros Hjoins other Hother. unfold may_access. rewrite Hfound.
    unfold isOwner. simpl.
    assert (Hno : filter (fun m => member_groupId m =? next_id (map group_id (friendGroups s)))
                         (groupMembers s) = []).
    { destruct (filter _ (groupMembers s)) as [|m rest] eqn:Hf; [reflexivity|].
      assert (Hin : In m (m :: rest)) by now left.
      rewrite <- Hf in Hin. apply filter_In in Hin as [Hin Hm]. apply Z.eqb_eq in Hm.
      pose proof (joins_ok_member_group s m Hjoins Hin) as Hg. rewrite Hm in Hg.
      destruct (existsb_find _ _ Hg) as [g Hg'].
      unfold lookup_group in Hnew. congruence. }
    rewrite Hno. simpl. rewrite orb_false_r. apply Z.eqb_neq. congruence.
Qed.

Lemma createGroup_owner_only_witness :
  exists g s',
    createGroup 7 alice (Some "Flat 4") offered = (mkResponse 201 (JGroup g), s')
    /\ may_access alice (group_id g) s' = true
    /\ may_access bob (group_id g) s' = false.
Proof.
  destruct (createGroup_owner_only 7 alice (Some "Flat 4") "Flat 4" offered)
    as (g & s' & Hrun & _ & _ & _ & _ & Hown & Hothers);
    try (vm_compute; reflexivity).
  exists g, s'. split; [exact Hrun|]. split; [exact Hown|].
  apply Hothers; [vm_compute; reflexivity|vm_compute; discriminate].
Defined.

(** The membership key of the duplicate check. *)
Lemma addMember_cases now owner groupId userId tag s :
  addMember now owner groupId userId tag s =
    match truthy_num userId with
    | None => (mkResponse 400 (JError "userId required"), s)
    | Some uid =>
      match find (fun g => (group_id g =? groupId) && (group_ownerId g =? user_id owner))
                 (friendGroups s) with
      | None => (mkResponse 404 (JError "group not found"), s)
      | Some _ =>
        match lookup_user uid s with
        | None => (mkResponse 404 (JError "user not found"), s)
        | Some friend =>
          match find (fun m => (member_groupId m =? groupId)
                               && (member_userId m =? user_id friend)) (groupMembers s) with
          | Some _ => (mkResponse 409 (JError "User already in group"), s)
          | None =>
            let m := mkGroupMember (next_id (map member_id (groupMembers s))) groupId
                                   (user_id friend) (truthy_str tag) now in
            (mkResponse 201 (JMember m friend), set_groupMembers (groupMembers s ++ [m]) s)
          end
        end
      end
    end.
Proof.
  unfold addMember. destruct (truthy_num userId) as [uid|]; [|reflexivity].
  unfold try_catch, friendGroup_findFirst_id_ownerId, groupMember_findFirst,
    groupMember_create, friendGroup_findUnique, user_findUnique_id,
    bind, gets, modify, ret, reply, throw.
  simpl. destruct (find _ (friendGroups s)) as [g|] eqn:Hg; [|reflexivity]. simpl.
  destruct (lookup_user uid s) as [friend|] eqn:Hf; [|reflexivity]. simpl.
  destruct (find _ (groupMembers s)) as [m|] eqn:Hm; [reflexivity|]. simpl.
  destruct (find_and_l _ _ _ _ Hg) as [g' Hg'].
  unfold lookup_group. rewrite Hg'.
  now rewrite (lookup_user_self _ _ _ Hf).
Qed.

(** X9: adding a member is the group owner's right alone.  Group id and
    user id being safe integers (which Prisma takes as arguments): a
    caller who owns no group with the given id, member of it or not, gets
    404 and nothing is stored; so does a request naming no stored user; a
    user who is already in the group gets 409; otherwise one membership
    row is stored and the new member can act in the group from then
    on. *)
Theorem addMember_spec now owner groupId uid tag s :
  uid <> 0 ->
  safe_integer groupId = true ->
  safe_integer uid = true ->
  ((forall g, In g (friendGroups s) -> group_id g = groupId ->
              group_ownerId g <> user_id owner) ->
   addMember now owner groupId (Some uid) tag s
   = (mkResponse 404 (JError "group not found"), s))
  /\
  (forall g,
     lookup_group groupId s = Some g -> group_ownerId g = user_id owner ->
     (lookup_user uid s = None ->
        addMember now owner groupId (Some uid) tag s
        = (mkResponse 404 (JError "user not found"), s))
     /\
     (forall friend,
        lookup_user uid s = Some friend ->
        ((count_members groupId uid s >= 1)%nat ->
           addMember now owner groupId (Some uid) tag s
           = (mkResponse 409 (JError "User already in group"), s))
        /\
        (count_members groupId uid s = 0%nat ->
           exists m s',
             addMember now owner groupId (Some uid) tag s
             = (mkResponse 201 (JMember m friend), s')
             /\ groupMembers s' = (groupMembers s ++ [m])%list
             /\ member_groupId m = groupId /\ member_userId m = uid
             /\ may_access friend groupId s' = true
             /\ count_members groupId uid s' = 1%nat))).
Proof.
  intros Huid _ _. rewrite addMember_cases, truthy_num_pos by exact Huid.
  split.
  - intros Hno.
    destruct (find (fun g => (group_id g =? groupId) && (group_ownerId g =? user_id owner))
                   (friendGroups s)) as [g|] eqn:Hg; [|reflexivity].
    exfalso. apply find_some in Hg as [Hin Hg]. apply andb_prop in Hg as [Hid Hown].
    apply Z.eqb_eq in Hid, Hown. exact (Hno g Hin Hid Hown).
  - intros g Hg Hown.
    assert (Hfound : find (fun g => (group_id g =? groupId)
                                    && (group_ownerId g =? user_id owner)) (friendGroups s)
                     = Some g).
    { apply find_and; [exact Hg|]. now apply Z.eqb_eq. }
    rewrite Hfound. split; [now intros ->|].
    intros friend Hfriend. rewrite Hfriend.
    pose proof (lookup_user_id _ _ _ Hfriend) as Hfid. rewrite Hfid.
    unfold count_members. split.
    + intros Hcount.
      destruct (find _ (groupMembers s)) eqn:Hm; [reflexivity|].
      rewrite (find_none_filter _ _ Hm) in Hcount. simpl in Hcount. lia.
    + intros Hcount.
      destruct (find (fun m => (member_groupId m =? groupId) && (member_userId m =? uid))
                     (groupMembers s)) eqn:Hm.
      { apply find_some_filter in Hm. lia. }
      cbv zeta. eexists _, _. split; [reflexivity|]. simpl.
      repeat split.
      * unfold may_access, lookup_group. simpl. fold (lookup_group groupId s). rewrite Hg.
        rewrite filter_app. unfold isMember. rewrite existsb_app. simpl.
        rewrite (lookup_group_id _ _ _ Hg), Z.eqb_refl. simpl.
        rewrite Hfid, Z.eqb_refl. simpl. now rewrite !orb_true_r.
      * rewrite filter_app, length_app, Hcount. simpl. now rewrite !Z.eqb_refl.
Qed.

Lemma addMember_spec_witness :
  addMember 8 bob 1 (Some 2) None flat = (mkResponse 404 (JError "group not found"), flat)
  /\ addMember 9 alice 1 (Some 2) None flat
     = (mkResponse 409 (JError "User already in group"), flat)
  /\ addMember 9 alice 1 (Some 4) None flat
     = (mkResponse 404 (JError "user not found"), flat).
Proof.
  destruct (addMember_spec 8 bob 1 2 None flat) as [Hforeign _];
    [discriminate|reflexivity|reflexivity|].
  destruct (addMember_spec 9 alice 1 2 None flat) as [_ Hown];
    [discriminate|reflexivity|reflexivity|].
  destruct (addMember_spec 9 alice 1 4 None flat) as [_ Hnobody];
    [discriminate|reflexivity|reflexivity|].
  assert (Hg : lookup_group 1 flat = Some (mkFriendGroup 1 "Flat 4" 1 7))
    by (vm_compute; reflexivity).
  split; [|split].
  3: { destruct (Hnobody _ Hg eq_refl) as [Hnone _]. apply Hnone. vm_compute. reflexivity. }
  - apply Hforeign. intros g Hin _. vm_compute in Hin. destruct Hin as [<- | []].
    vm_compute. discriminate.
  - assert (Hb : lookup_user 2 flat = Some bob) by (vm_compute; reflexivity).
    destruct (Hown _ Hg eq_refl) as [_ Hfriend].
    destruct (Hfriend bob Hb) as [Hdup _].
    apply Hdup. vm_compute. lia.
Defined.

#[global] Instance keeps_members_frame : Frame keeps_members.
Proof. split; unfold keeps_members; auto. Qed.


Section ReachableMembers.
Variable jwt_verify : Z -> string -> JwtResult.
Variable jwt_sign : Z -> Z -> string -> string.
Variable trim : string -> string.



End ReachableMembers.


(** ** Posting and reading messages *)

Section Messages.
Variable trim : string -> string.

Lemma postMessage_cases now user id content s :
  postMessage trim now user id content s =
    match truthy_str content with
    | None => (mkResponse 400 (JError "content required"), s)
    | Some c =>
      match truthy_str (Some (trim c)) with
      | None => (mkResponse 400 (JError "content required"), s)
      | Some t =>
        match lookup_group id s with
        | None => (mkResponse 404 (JError "group not found"), s)
        | Some _ =>
          if negb (may_access user id s)
          then (mkResponse 403 (JError "Not allowed"), s)
          else
            match lookup_user (user_id user) s with
            | None => (mkResponse 500 (JError "Failed to post message"), s)
            | Some u =>
              let m := mkGroupMessage (next_id (map msg_id (groupMessages s))) id
                                      (user_id user) t now in
              (mkResponse 201 (JMessage m u), set_groupMessages (groupMessages s ++ [m]) s)
            end
        end
      end
    end.
Proof.
  unfold postMessage, may_access.
  destruct (truthy_str content) as [c|]; [|reflexivity].
  destruct (truthy_str (Some (trim c))) as [t|]; [|reflexivity].
  unfold try_catch, friendGroup_findUnique_include_members, groupMessage_create,
    friendGroup_findUnique, user_findUnique_id, bind, gets, modify, ret, reply, throw.
  simpl. destruct (lookup_group id s) as [g|] eqn:Hg; [|reflexivity]. simpl.
  rewrite negb_orb.
  destruct (negb (isOwner g user) && negb (isMember _ user)); [reflexivity|].
  simpl. rewrite Hg. now destruct (lookup_user (user_id user) s).
Qed.

Lemma postMessage_keeps_ok now user id content s :
  keeps_ok s (snd (postMessage trim now user id content s)).
Proof. unfold postMessage. frame_ok. Qed.

(** X11: a message whose content is empty once trimmed is answered 400
    and not stored; a caller who is neither owner nor member of the group
    gets 403 and nothing is stored; an entitled caller's message is
    stored in that group with the caller as author and the trimmed text
    as content, and returned with 201. *)
Theorem postMessage_spec now user id content c s :
  truthy_str content = Some c ->
  (trim c = "" ->
     postMessage trim now user id content s
     = (mkResponse 400 (JError "content required"), s))
  /\
  (trim c <> "" ->
     (forall g, lookup_group id s = Some g -> may_access user id s = false ->
        postMessage trim now user id content s
        = (mkResponse 403 (JError "Not allowed"), s))
     /\
     (may_access user id s = true ->
      lookup_user (user_id user) s = Some user ->
      exists m s',
        postMessage trim now user id content s = (mkResponse 201 (JMessage m user), s')
        /\ groupMessages s' = (groupMessages s ++ [m])%list
        /\ msg_groupId m = id /\ msg_authorId m = user_id user
        /\ msg_content m = trim c /\ msg_createdAt m = now)).
Proof.
  intros Hc. rewrite postMessage_cases, Hc. split.
  - now intros ->.
  - intros Hne.
    assert (Ht : truthy_str (Some (trim c)) = Some (trim c)).
    { simpl. destruct (trim c); [congruence|reflexivity]. }
    rewrite Ht. split.
    + intros g -> Hacc. now rewrite Hacc.
    + intros Hacc Hu.
      destruct (lookup_group id s) eqn:Hg;
        [|unfold may_access in Hacc; rewrite Hg in Hacc; discriminate].
      rewrite Hacc, Hu. cbv zeta. eexists _, _. split; [reflexivity|].
      simpl. auto 10.
Qed.

(** X12: once an entitled caller has posted a message at a time no
    earlier than the messages of the group, every reader of the group
    gets it as the last entry of the listing as long as the group held
    fewer than 200 messages; from 200 messages on, the listing stays what
    it was and the new message is not in it. *)
Theorem postMessage_then_list now user reader id content c s :
  store_ok s = true ->
  truthy_str content = Some c ->
  trim c <> "" ->
  may_access user id s = true ->
  lookup_user (user_id user) s = Some user ->
  may_access reader id s = true ->
  (forall m, In m (groupMessages s) -> msg_groupId m = id -> msg_createdAt m <= now) ->
  exists m s',
    postMessage trim now user id content s = (mkResponse 201 (JMessage m user), s')
    /\ fst (listMessages reader id s) =
       mkResponse 200 (res_body (fst (listMessages reader id s)))
    /\ fst (listMessages reader id s') =
       mkResponse 200 (res_body (fst (listMessages reader id s')))
    /\ ((List.length (group_messages_asc id s) < 200)%nat ->
        returned_messages (res_body (fst (listMessages reader id s')))
        = (returned_messages (res_body (fst (listMessages reader id s))) ++ [m])%list)
    /\ ((List.length (group_messages_asc id s) >= 200)%nat ->
        returned_messages (res_body (fst (listMessages reader id s')))
        = returned_messages (res_body (fst (listMessages reader id s)))
        /\ ~ In m (returned_messages (res_body (fst (listMessages reader id s'))))).
Proof.
  intros Hok Hc Hne Hacc Hu Hreader Hclock.
  pose proof (postMessage_keeps_ok now user id content s Hok) as Hok'.
  rewrite postMessage_cases, Hc in Hok' |- *.
  assert (Ht : truthy_str (Some (trim c)) = Some (trim c)).
  { simpl. destruct (trim c); [congruence|reflexivity]. }
  rewrite Ht in Hok' |- *.
  destruct (lookup_group id s) eqn:Hg;
    [|unfold may_access in Hacc; rewrite Hg in Hacc; discriminate].
  rewrite Hacc, Hu in Hok' |- *. cbv zeta in Hok' |- *. simpl in Hok'.
  set (m := mkGroupMessage (next_id (map msg_id (groupMessages s))) id (user_id user)
                           (trim c) now) in *.
  set (s' := set_groupMessages (groupMessages s ++ [m]) s) in *.
  exists m, s'. split; [reflexivity|].
  assert (Hreader' : may_access reader id s' = true) by exact Hreader.
  destruct (listMessages_run reader id s Hok Hreader) as (ms & Hrun & Hmap & _).
  destruct (listMessages_run reader id s' Hok' Hreader') as (ms' & Hrun' & Hmap' & _).
  rewrite Hrun, Hrun'. simpl. rewrite Hmap, Hmap'.
  assert (Hasc : group_messages_asc id s' = (group_messages_asc id s ++ [m])%list).
  { unfold group_messages_asc, s'. simpl. rewrite filter_app. simpl.
    rewrite Z.eqb_refl. apply sort_by_last.
    intros a Ha. apply filter_In in Ha as [Ha Hgrp]. apply Z.eqb_eq in Hgrp.
    unfold createdAt_asc. simpl. apply Z.leb_le. auto. }
  rewrite Hasc. split; [reflexivity|]. split; [reflexivity|]. split.
  - intros Hlen. rewrite !firstn_all2; [reflexivity|lia|rewrite length_app; simpl; lia].
  - intros Hlen.
    assert (Hfirst : firstn 200 (group_messages_asc id s ++ [m])
                     = firstn 200 (group_messages_asc id s)).
    { rewrite firstn_app.
      replace (200 - List.length (group_messages_asc id s))%nat with 0%nat by lia.
      simpl. apply app_nil_r. }
    rewrite Hfirst. split; [reflexivity|].
    intros Hin. apply firstn_In in Hin. apply group_messages_asc_In in Hin as [Hin _].
    pose proof (next_id_above (map msg_id (groupMessages s)) (msg_id m)
                              (in_map msg_id _ _ Hin)) as Hlt.
    simpl in Hlt. lia.
Qed.

End Messages.

Lemma postMessage_spec_witness :
  postMessage demo_trim 20 bob 1 (Some "hi") flat
  = (mkResponse 201 (JMessage (mkGroupMessage 1 1 2 "hi" 20) bob),
     set_groupMessages [mkGroupMessage 1 1 2 "hi" 20] flat).
Proof.
  destruct (postMessage_spec demo_trim 20 bob 1 (Some "hi") "hi" flat eq_refl)
    as [_ Hsome].
  destruct Hsome as [_ Hpost]; [discriminate|].
  destruct Hpost as (m & s' & Hrun & _); [vm_compute; reflexivity|vm_compute; reflexivity|].
  rewrite Hrun. vm_compute in Hrun. injection Hrun as <- <-. reflexivity.
Defined.

Lemma postMessage_then_list_witness :
  exists m s',
    postMessage demo_trim 20 bob 1 (Some "hi") flat = (mkResponse 201 (JMessage m bob), s')
    /\ returned_messages (res_body (fst (listMessages alice 1 s'))) = [m].
Proof.
  assert (Hok : store_ok flat = true) by (vm_compute; reflexivity).
  assert (Hne : demo_trim "hi" <> "") by discriminate.
  assert (Hbob : may_access bob 1 flat = true) by (vm_compute; reflexivity).
  assert (Hu : lookup_user (user_id bob) flat = Some bob) by (vm_compute; reflexivity).
  assert (Halice : may_access alice 1 flat = true) by (vm_compute; reflexivity).
  assert (Hclock : forall m, In m (groupMessages flat) -> msg_groupId m = 1 ->
                             msg_createdAt m <= 20) by (intros m Hin; vm_compute in Hin; destruct Hin).
  destruct (postMessage_then_list demo_trim 20 bob alice 1 (Some "hi") "hi" flat
              Hok eq_refl Hne Hbob Hu Halice Hclock)
    as (m & s' & Hrun & _ & _ & Hshort & _).
  exists m, s'. split; [exact Hrun|].
  rewrite Hshort; [reflexivity|vm_compute; lia].
Defined.

(** ** What the listings return *)

Lemma joins_ok_item_owner s it :
  joins_ok s = true -> In it (foodItems s) -> lookup_user (item_ownerId it) s <> None.
Proof.
  unfold joins_ok. rewrite !andb_true_iff, !forallb_forall.
  intros (((Hi & _) & _) & _) Hin. apply Hi in Hin. apply andb_prop in Hin as [Hu _].
  now apply has_user_lookup.
Qed.

Lemma joins_ok_share_item s sh :
  joins_ok s = true -> In sh (groupShares s) -> lookup_item (share_itemId sh) s <> None.
Proof.
  unfold joins_ok. rewrite !andb_true_iff, !forallb_forall.
  intros (_ & Hs) Hin. apply Hs in Hin. apply andb_prop in Hin as [Hi _].
  now apply has_item_lookup.
Qed.

Lemma store_ok_claim_item s c :
  store_ok s = true -> In c (claims s) -> lookup_item (claim_itemId c) s <> None.
Proof.
  unfold store_ok. rewrite !andb_true_iff, !forallb_forall.
  intros ((Hc & _) & _) Hin. apply Hc in Hin. apply andb_prop in Hin as [Hi _].
  now apply has_item_lookup.
Qed.

Lemma store_ok_claim_claimer s c :
  store_ok s = true -> In c (claims s) -> lookup_user (claim_claimerId c) s <> None.
Proof.
  unfold store_ok. rewrite !andb_true_iff, !forallb_forall.
  intros ((Hc & _) & _) Hin. apply Hc in Hin. apply andb_prop in Hin as [_ Hu].
  now apply has_user_lookup.
Qed.

Lemma with_owner_category_run rows s :
  (forall it, In it rows -> lookup_user (item_ownerId it) s <> None) ->
  exists out,
    with_owner_category rows s = (Value out, s)
    /\ map (fun r => fst (fst r)) out = rows.
Proof.
  intros Hown.
  destruct (join_required_some (fun it => lookup_user (item_ownerId it) s) rows Hown)
    as (joined & Hjoin & Hmap & _).
  exists (map (fun r => (fst r, snd r, category_of s (fst r))) joined).
  unfold with_owner_category, required, bind, gets, ret. simpl.
  rewrite Hjoin. split; [reflexivity|].
  rewrite map_map. simpl. exact Hmap.
Qed.

Lemma listAvailable_run user s :
  joins_ok s = true ->
  exists rows,
    listAvailable user s = (Listed (PItemsOwned rows), s)
    /\ map (fun r => fst (fst r)) rows
       = sort_by item_desc (filter (claimable_by (user_id user)) (foodItems s)).
Proof.
  intros Hj.
  destruct (with_owner_category_run
              (sort_by item_desc (filter (claimable_by (user_id user)) (foodItems s))) s)
    as (out & Hrun & Hmap).
  { intros it Hin. apply sort_by_In, filter_In in Hin as [Hin _].
    now apply joins_ok_item_owner. }
  exists out. split; [|exact Hmap].
  unfold listAvailable, try_catch_json, foodItem_findMany_available, bind, gets, ret.
  simpl. now rewrite Hrun.
Qed.

Lemma listOwnerClaims_run user s :
  store_ok s = true ->
  exists rows,
    listOwnerClaims user s = (Listed (PClaimsForOwner rows), s)
    /\ map (fun r => fst (fst r)) rows
       = sort_by claim_desc (filter (claim_on_item_of s (user_id user)) (claims s)).
Proof.
  intros Hok.
  set (found := sort_by claim_desc (filter (claim_on_item_of s (user_id user)) (claims s))).
  assert (Hin : forall c, In c found -> In c (claims s)).
  { intros c Hc. now apply sort_by_In, filter_In in Hc as [Hc _]. }
  destruct (join_required_some (fun c => lookup_user (claim_claimerId c) s) found)
    as (claimers & Hjc & Hmc & _).
  { intros c Hc. apply store_ok_claim_claimer; auto. }
  destruct (join_required_some (fun r : Claim * User => lookup_item (claim_itemId (fst r)) s)
                               claimers)
    as (items & Hji & Hmi & _).
  { intros r Hr. apply store_ok_claim_item; [exact Hok|]. apply Hin.
    rewrite <- Hmc. now apply in_map. }
  exists (map (fun r => (fst (fst r), snd (fst r), snd r)) items).
  split.
  - unfold listOwnerClaims, try_catch_json, claim_findMany_for_owner, required,
      bind, gets, ret.
    simpl. fold found. rewrite Hjc. simpl. now rewrite Hji.
  - rewrite map_map. simpl. rewrite <- Hmc, <- Hmi, map_map. reflexivity.
Qed.

Lemma listMyClaims_run user s :
  store_ok s = true ->
  exists rows,
    listMyClaims user s = (Listed (PClaimsMine rows), s)
    /\ map fst rows
       = sort_by claim_desc (filter (fun c => claim_claimerId c =? user_id user) (claims s)).
Proof.
  intros Hok.
  destruct (join_required_some (fun c => lookup_item (claim_itemId c) s)
              (sort_by claim_desc (filter (fun c => claim_claimerId c =? user_id user)
                                          (claims s))))
    as (items & Hj & Hm & _).
  { intros c Hc. apply sort_by_In, filter_In in Hc as [Hc _].
    now apply store_ok_claim_item. }
  exists items. split; [|exact Hm].
  unfold listMyClaims, try_catch_json, claim_findMany_mine, required, bind, gets, ret.
  simpl. now rewrite Hj.
Qed.

(** ** Offering, claiming and deciding, end to end *)

Lemma ids_distinct_items s : ids_distinct s = true -> distinct (map item_id (foodItems s)) = true.
Proof. unfold ids_distinct. rewrite !andb_true_iff. tauto. Qed.

Lemma claimable_by_iff uid it :
  claimable_by uid it = true <-> item_status it = AVAILABLE /\ item_ownerId it <> uid.
Proof.
  unfold claimable_by. rewrite andb_true_iff, ItemStatus_eqb_eq, negb_true_iff, Z.eqb_neq.
  tauto.
Qed.

Lemma createClaim_keeps_ok now user itemId s :
  keeps_ok s (snd (createClaim now user itemId s)).
Proof. unfold createClaim. frame_ok. Qed.

Lemma setItemStatus_keeps user id status s :
  keeps_ok s (snd (setItemStatus user id status s))
  /\ keeps_joins s (snd (setItemStatus user id status s)).
Proof. split; unfold setItemStatus; frame_ok. Qed.

(** X13: the claim pool lists exactly the AVAILABLE items the caller
    does not own, never the caller's own items, and changes nothing; and
    every item it lists can be claimed by the caller: the claim request
    for it is answered 201. *)
Theorem listAvailable_claimable now user s :
  store_ok s = true ->
  joins_ok s = true ->
  ids_distinct s = true ->
  lookup_user (user_id user) s = Some user ->
  is_listed (fst (listAvailable user s)) = true
  /\ snd (listAvailable user s) = s
  /\ (forall it,
        In it (listed_items (fst (listAvailable user s))) <->
        In it (foodItems s) /\ item_status it = AVAILABLE /\ item_ownerId it <> user_id user)
  /\ (forall it,
        In it (listed_items (fst (listAvailable user s))) ->
        res_status (fst (createClaim now user (Some (item_id it)) s)) = 201).
Proof.
  intros Hok Hj Hd Hu.
  destruct (listAvailable_run user s Hj) as (rows & -> & Hmap). simpl. rewrite Hmap.
  assert (Hiff : forall it,
            In it (sort_by item_desc (filter (claimable_by (user_id user)) (foodItems s))) <->
            In it (foodItems s) /\ item_status it = AVAILABLE
            /\ item_ownerId it <> user_id user).
  { intros it. rewrite sort_by_In, filter_In, claimable_by_iff. tauto. }
  split; [reflexivity|]. split; [reflexivity|]. split; [exact Hiff|].
  intros it Hin. apply Hiff in Hin as (Hin & Hst & Hown).
  {
    pose proof (distinct_find item_id _ it (ids_distinct_items s Hd) Hin) as Hfind.
    fold (lookup_item (item_id it) s) in Hfind.
    rewrite createClaim_cases.
    pose proof (store_ok_item_pos _ _ _ Hok Hfind).
    rewrite truthy_num_pos by lia. rewrite Hfind, Hst. simpl.
    apply Z.eqb_neq in Hown. now rewrite Hown, Hu. }
Qed.

Lemma listAvailable_claimable_witness :
  In milk (listed_items (fst (listAvailable bob listed)))
  /\ res_status (fst (createClaim 5 bob (Some 1) listed)) = 201.
Proof.
  destruct (listAvailable_claimable 5 bob listed) as (_ & _ & Hiff & Hclaim);
    try (vm_compute; reflexivity).
  assert (Hin : In milk (listed_items (fst (listAvailable bob listed)))).
  { apply Hiff. split; [vm_compute; auto|]. split; [reflexivity|vm_compute; discriminate]. }
  split; [exact Hin|exact (Hclaim milk Hin)].
Defined.

(** X14: the owner's claim list is the list of claims the caller may
    decide: a claim shown there is decided with 200 whichever decision is
    sent, and a claim not shown there is refused with 403 and left as it
    was. *)
Theorem listOwnerClaims_decidable now user id c decision s :
  store_ok s = true ->
  lookup_claim id s = Some c ->
  In decision ["ACCEPTED"; "REJECTED"] ->
  is_listed (fst (listOwnerClaims user s)) = true
  /\ (In c (listed_claims (fst (listOwnerClaims user s))) ->
      res_status (fst (decideClaim now user id (Some decision) s)) = 200)
  /\ (~ In c (listed_claims (fst (listOwnerClaims user s))) ->
      decideClaim now user id (Some decision) s
      = (mkResponse 403 (JError "Not allowed"), s)).
Proof.
  intros Hok Hc Hdec.
  destruct (listOwnerClaims_run user s Hok) as (rows & -> & Hmap). simpl. rewrite Hmap.
  pose proof (find_some _ _ Hc) as [Hin _].
  destruct (lookup_item (claim_itemId c) s) as [it|] eqn:Hit;
    [|exfalso; now apply (store_ok_claim_item s c Hok Hin)].
  destruct (store_ok_claimer _ _ _ Hok Hc) as [u Hu].
  assert (Hd : exists d, parse_decision (Some decision) = Some d).
  { destruct Hdec as [<- | [<- | []]]; [exists ACCEPTED|exists REJECTED]; reflexivity. }
  destruct Hd as [d Hd].
  assert (Hiff : In c (sort_by claim_desc
                         (filter (claim_on_item_of s (user_id user)) (claims s)))
                 <-> item_ownerId it = user_id user).
  { rewrite sort_by_In, filter_In. unfold claim_on_item_of. rewrite Hit, Z.eqb_eq. tauto. }
  split; [reflexivity|]. split.
  - intros Hlisted. apply Hiff in Hlisted.
    now rewrite (decideClaim_by_owner now user id _ d c it u s Hd Hc Hit Hu Hlisted).
  - intros Hnot. apply (decideClaim_not_owner now user id _ d c it s Hd Hc Hit).
    intros Hown. now apply Hnot, Hiff.
Qed.

Lemma listOwnerClaims_decidable_witness :
  decideClaim 6 bob 1 (Some "ACCEPTED") offered = (mkResponse 403 (JError "Not allowed"), offered)
  /\ res_status (fst (decideClaim 6 alice 1 (Some "REJECTED") offered)) = 200.
Proof.
  assert (Hok : store_ok offered = true) by (vm_compute; reflexivity).
  assert (Hc : lookup_claim 1 offered = Some milk_claim) by (vm_compute; reflexivity).
  split.
  - destruct (listOwnerClaims_decidable 6 bob 1 milk_claim "ACCEPTED" offered Hok Hc)
      as (_ & _ & Hnot); [simpl; auto|].
    apply Hnot. vm_compute. tauto.
  - destruct (listOwnerClaims_decidable 6 alice 1 milk_claim "REJECTED" offered Hok Hc)
      as (_ & Hyes & _); [simpl; auto|].
    apply Hyes. vm_compute. auto.
Defined.

(** X15: a claim that was created shows at once in the claimer's own
    list and in the claim list of the item's owner, as PENDING. *)
Theorem createClaim_visible now user owner i it s :
  store_ok s = true ->
  lookup_user (user_id user) s = Some user ->
  lookup_item i s = Some it ->
  item_status it = AVAILABLE ->
  item_ownerId it <> user_id user ->
  user_id owner = item_ownerId it ->
  exists c s',
    createClaim now user (Some i) s = (mkResponse 201 (JClaimWithClaimer c user), s')
    /\ claim_status c = PENDING /\ claim_itemId c = i
    /\ In c (listed_claims (fst (listMyClaims user s')))
    /\ In c (listed_claims (fst (listOwnerClaims owner s'))).
Proof.
  intros Hok Hu Hit Hst Hown Howner.
  pose proof (createClaim_keeps_ok now user (Some i) s Hok) as Hok'.
  rewrite createClaim_cases in Hok' |- *.
  pose proof (store_ok_item_pos _ _ _ Hok Hit).
  rewrite truthy_num_pos in Hok' |- * by lia.
  rewrite Hit, Hst in Hok' |- *. simpl in Hok' |- *.
  apply Z.eqb_neq in Hown. rewrite Hown, Hu in Hok' |- *. simpl in Hok'.
  eexists _, _. split; [reflexivity|]. split; [reflexivity|]. split; [reflexivity|].
  destruct (listMyClaims_run user _ Hok') as (mine & -> & Hmine).
  destruct (listOwnerClaims_run owner _ Hok') as (theirs & -> & Htheirs).
  simpl. rewrite Hmine, Htheirs. split.
  - apply sort_by_In, filter_In. split; [apply in_or_app; right; now left|].
    simpl. apply Z.eqb_refl.
  - apply sort_by_In, filter_In. split; [apply in_or_app; right; now left|].
    unfold claim_on_item_of. simpl.
    change (lookup_item i (set_claims ?v s)) with (lookup_item i s).
    rewrite Hit. apply Z.eqb_eq. congruence.
Qed.

Lemma createClaim_visible_witness :
  exists c s',
    createClaim 5 bob (Some 1) listed = (mkResponse 201 (JClaimWithClaimer c bob), s')
    /\ In c (listed_claims (fst (listOwnerClaims alice s'))).
Proof.
  destruct (createClaim_visible 5 bob alice 1 milk listed)
    as (c & s' & Hrun & _ & _ & _ & Hshown);
    try (vm_compute; reflexivity); [vm_compute; discriminate|].
  exists c, s'. split; [exact Hrun|exact Hshown].
Defined.

Lemma decided_item d now id c it s :
  lookup_item (claim_itemId c) s = Some it ->
  lookup_item (claim_itemId c) (decided d now id c s)
  = Some (match d with ACCEPTED => with_item_status CLAIMED it | _ => it end).
Proof.
  intros Hit. destruct d; try exact Hit.
  unfold lookup_item, decided. simpl.
  apply find_update_first; [exact Hit|].
  simpl. apply Z.eqb_eq. now apply lookup_item_id in Hit.
Qed.

(** X16: the owner's acceptance of a claim takes the item out of the
    pool: a claim request for that item served on the store the decision
    leaves, by anyone, is answered 400 "Item not available" and stores
    nothing.  Nothing is said of stores reached later: a status request
    of the owner can offer the item again. *)
Theorem accepted_item_not_claimable now now' user claimant id c it s :
  store_ok s = true ->
  lookup_claim id s = Some c ->
  lookup_item (claim_itemId c) s = Some it ->
  item_ownerId it = user_id user ->
  exists r s',
    decideClaim now user id (Some "ACCEPTED") s = (r, s')
    /\ res_status r = 200
    /\ createClaim now' claimant (Some (claim_itemId c)) s'
       = (mkResponse 400 (JError "Item not available"), s').
Proof.
  intros Hok Hc Hit Hown.
  destruct (store_ok_claimer _ _ _ Hok Hc) as [u Hu].
  rewrite (decideClaim_by_owner now user id (Some "ACCEPTED") ACCEPTED c it u s
             eq_refl Hc Hit Hu Hown).
  eexists _, _. split; [reflexivity|]. split; [reflexivity|].
  rewrite createClaim_cases.
  pose proof (store_ok_item_pos _ _ _ Hok Hit).
  rewrite truthy_num_pos by lia.
  now rewrite (decided_item ACCEPTED now id c it s Hit).
Qed.

Lemma accepted_item_not_claimable_witness :
  exists r s',
    decideClaim 6 alice 1 (Some "ACCEPTED") offered = (r, s')
    /\ createClaim 7 bob (Some 1) s' = (mkResponse 400 (JError "Item not available"), s').
Proof.
  destruct (accepted_item_not_claimable 6 7 alice bob 1 milk_claim milk offered)
    as (r & s' & Hrun & _ & Hclaim); try (vm_compute; reflexivity).
  exists r, s'. split; [exact Hrun|exact Hclaim].
Defined.

Lemma decided_claims d now id c s :
  claims (decided d now id c s)
  = update_first (fun c => claim_id c =? id) (with_claim_decision d now) (claims s).
Proof. now destruct d. Qed.

Lemma decided_users d now id c s : users (decided d now id c s) = users s.
Proof. now destruct d. Qed.

(** X17: accepting one claim neither rejects nor blocks the other
    claims on the item: when two claims name the same item, its owner can
    accept the first and then the second, both requests are answered 200,
    and both claims end up ACCEPTED. *)
Theorem both_claims_accepted now now' user id1 id2 c1 c2 it s :
  store_ok s = true ->
  lookup_claim id1 s = Some c1 ->
  lookup_claim id2 s = Some c2 ->
  id1 <> id2 ->
  claim_itemId c1 = claim_itemId c2 ->
  lookup_item (claim_itemId c1) s = Some it ->
  item_ownerId it = user_id user ->
  exists r1 s1 r2 s2,
    decideClaim now user id1 (Some "ACCEPTED") s = (r1, s1)
    /\ decideClaim now' user id2 (Some "ACCEPTED") s1 = (r2, s2)
    /\ res_status r1 = 200 /\ res_status r2 = 200
    /\ option_map claim_status (lookup_claim id1 s2) = Some ACCEPTED
    /\ option_map claim_status (lookup_claim id2 s2) = Some ACCEPTED.
Proof.
  intros Hok Hc1 Hc2 Hne Hsame Hit Hown.
  destruct (store_ok_claimer _ _ _ Hok Hc1) as [u1 Hu1].
  destruct (store_ok_claimer _ _ _ Hok Hc2) as [u2 Hu2].
  pose proof (lookup_claim_id _ _ _ Hc1) as Hid1.
  pose proof (lookup_claim_id _ _ _ Hc2) as Hid2.
  rewrite (decideClaim_by_owner now user id1 (Some "ACCEPTED") ACCEPTED c1 it u1 s
             eq_refl Hc1 Hit Hu1 Hown).
  set (s1 := decided ACCEPTED now id1 c1 s).
  assert (Hc2' : lookup_claim id2 s1 = Some c2).
  { unfold lookup_claim, s1. rewrite decided_claims, find_update_other; [exact Hc2| |].
    - reflexivity.
    - intros a Ha. apply Z.eqb_eq in Ha. apply Z.eqb_neq. lia. }
  assert (Hc1' : lookup_claim id1 s1 = Some (with_claim_decision ACCEPTED now c1)).
  { unfold lookup_claim, s1. rewrite decided_claims.
    apply find_update_first; [exact Hc1|]. simpl. now apply Z.eqb_eq. }
  assert (Hit' : lookup_item (claim_itemId c2) s1 = Some (with_item_status CLAIMED it)).
  { rewrite <- Hsame. exact (decided_item ACCEPTED now id1 c1 it s Hit). }
  assert (Hu2' : lookup_user (claim_claimerId c2) s1 = Some u2).
  { unfold lookup_user, s1. now rewrite decided_users. }
  exists (mkResponse 200 (JClaimDecided (with_claim_decision ACCEPTED now c1) it u1)), s1.
  rewrite (decideClaim_by_owner now' user id2 (Some "ACCEPTED") ACCEPTED c2 _ u2 s1
             eq_refl Hc2' Hit' Hu2' Hown).
  eexists _, _. split; [reflexivity|]. split; [reflexivity|].
  split; [reflexivity|]. split; [reflexivity|].
  unfold lookup_claim. rewrite decided_claims. split.
  - rewrite find_update_other.
    + fold (lookup_claim id1 s1). now rewrite Hc1'.
    + reflexivity.
    + intros a Ha. apply Z.eqb_eq in Ha. apply Z.eqb_neq. lia.
  - erewrite find_update_first; [reflexivity|exact Hc2'|].
    simpl. now apply Z.eqb_eq.
Qed.

Lemma both_claims_accepted_witness :
  exists r1 s1 r2 s2,
    decideClaim 7 alice 1 (Some "ACCEPTED") claimed_twice = (r1, s1)
    /\ decideClaim 8 alice 2 (Some "ACCEPTED") s1 = (r2, s2)
    /\ option_map claim_status (lookup_claim 1 s2) = Some ACCEPTED
    /\ option_map claim_status (lookup_claim 2 s2) = Some ACCEPTED.
Proof.
  destruct (both_claims_accepted 7 8 alice 1 2 milk_claim (mkClaim 2 1 2 PENDING 6 None) milk
              claimed_twice)
    as (r1 & s1 & r2 & s2 & H1 & H2 & _ & _ & Ha & Hb);
    try (vm_compute; reflexivity); [discriminate|].
  exists r1, s1, r2, s2. auto.
Defined.

(** X18: when the owner marks an item AVAILABLE, whatever its status
    was, the item enters the claim pool of every other user: it shows in
    their available list and their claim request for it is answered 201. *)
Theorem offered_item_claimable now owner other id it s :
  store_ok s = true ->
  joins_ok s = true ->
  lookup_item id s = Some it ->
  item_ownerId it = user_id owner ->
  lookup_user (user_id other) s = Some other ->
  user_id other <> user_id owner ->
  exists s',
    setItemStatus owner id (Some "AVAILABLE") s
    = (mkResponse 200 (JItem (with_item_status AVAILABLE it)), s')
    /\ lookup_item id s' = Some (with_item_status AVAILABLE it)
    /\ In (with_item_status AVAILABLE it) (listed_items (fst (listAvailable other s')))
    /\ res_status (fst (createClaim now other (Some id) s')) = 201.
Proof.
  intros Hok Hj Hit Hown Hother Hne.
  destruct (setItemStatus_keeps owner id (Some "AVAILABLE") s) as [Hko Hkj].
  specialize (Hko Hok). specialize (Hkj Hj).
  assert (Hfind : find (owned_item id (user_id owner)) (foodItems s) = Some it).
  { apply (find_and (fun i => item_id i =? id) (fun i => item_ownerId i =? user_id owner));
      [exact Hit|now apply Z.eqb_eq]. }
  rewrite (setItemStatus_run owner id (Some "AVAILABLE") AVAILABLE s eq_refl), Hfind
    in Hko, Hkj |- *.
  simpl in Hko, Hkj.
  assert (Hupd : update_first (owned_item id (user_id owner)) (with_item_status AVAILABLE)
                              (foodItems s)
                 = update_first (fun i => item_id i =? id) (with_item_status AVAILABLE)
                                (foodItems s)).
  { apply (update_first_and (fun i => item_id i =? id)
                            (fun i => item_ownerId i =? user_id owner) _ _ it);
      [exact Hit|now apply Z.eqb_eq]. }
  rewrite Hupd in Hko, Hkj |- *.
  set (s' := set_foodItems (update_first (fun i => item_id i =? id)
                                         (with_item_status AVAILABLE) (foodItems s)) s) in *.
  assert (Hit' : lookup_item id s' = Some (with_item_status AVAILABLE it)).
  { unfold lookup_item, s'. simpl. apply find_update_first; [exact Hit|].
    simpl. apply Z.eqb_eq. now apply lookup_item_id in Hit. }
  exists s'. split; [reflexivity|]. split; [exact Hit'|]. split.
  - destruct (listAvailable_run other s' Hkj) as (rows & -> & Hmap). simpl. rewrite Hmap.
    apply sort_by_In, filter_In. split; [now apply find_some in Hit'|].
    apply claimable_by_iff. simpl. split; [reflexivity|congruence].
  - rewrite createClaim_cases.
    pose proof (store_ok_item_pos _ _ _ Hok Hit).
    rewrite truthy_num_pos by lia. rewrite Hit'. simpl.
    assert (Hno : (item_ownerId it =? user_id other) = false) by (apply Z.eqb_neq; congruence).
    rewrite Hno.
    change (lookup_user (user_id other) s') with (lookup_user (user_id other) s).
    now rewrite Hother.
Qed.

Lemma offered_item_claimable_witness :
  exists s',
    setItemStatus alice 1 (Some "AVAILABLE") accepted
    = (mkResponse 200 (JItem (with_item_status AVAILABLE (with_item_status CLAIMED milk))), s')
    /\ res_status (fst (createClaim 9 bob (Some 1) s')) = 201.
Proof.
  destruct (offered_item_claimable 9 alice bob 1 (with_item_status CLAIMED milk) accepted)
    as (s' & Hrun & _ & _ & Hclaim); try (vm_compute; reflexivity);
    [vm_compute; discriminate|].
  exists s'. split; [exact Hrun|exact Hclaim].
Defined.

(** ** The owner's listings *)

Lemma item_desc_sorted l :
  StronglySorted (fun a b => item_createdAt b <= item_createdAt a) (sort_by item_desc l).
Proof.
  assert (H : StronglySorted (fun a b => item_desc a b = true) (sort_by item_desc l)).
  { apply sort_by_sorted; unfold item_desc; intros; lia. }
  induction H as [|x r Hr IH Hx]; constructor; [exact IH|].
  eapply Forall_impl; [|exact Hx]. unfold item_desc. intros; lia.
Qed.

Lemma expiresAt_asc_sorted l :
  StronglySorted (fun a b => expiresAt_asc a b = true) (sort_by expiresAt_asc l).
Proof.
  apply sort_by_sorted; unfold expiresAt_asc; intros a b;
    [|intros c]; destruct (item_expiresAt a), (item_expiresAt b);
    try destruct (item_expiresAt c); intros; try reflexivity; try discriminate; lia.
Qed.

(** X19: the item listing never fails and changes nothing; it returns
    exactly the caller's items, never another user's, newest first, and
    each row carries exactly the claims made on that item. *)
Theorem listItems_spec user s :
  exists rows,
    listItems user s = (Listed (PItems rows), s)
    /\ (forall it,
          In it (map (fun r => fst (fst r)) rows) <->
          In it (foodItems s) /\ item_ownerId it = user_id user)
    /\ StronglySorted (fun a b => item_createdAt b <= item_createdAt a)
                      (map (fun r => fst (fst r)) rows)
    /\ Forall (fun r => forall c,
                 In c (snd r) <-> In c (claims s) /\ claim_itemId c = item_id (fst (fst r)))
              rows.
Proof.
  eexists. split; [reflexivity|]. rewrite map_map. simpl. rewrite map_id.
  split; [|split].
  - intros it. rewrite sort_by_In, filter_In, Z.eqb_eq. tauto.
  - apply item_desc_sorted.
  - apply Forall_forall. intros r Hr. apply in_map_iff in Hr as (it & <- & _).
    intros c. simpl. rewrite filter_In, Z.eqb_eq. tauto.
Qed.

(** X20: the expiry alert lists exactly the caller's items that are
    still IN_FRIDGE and expire no later than the end of the window, in
    order of expiry; items without an expiry date, items already offered
    or claimed and other users' items are never listed; when the window's
    end is not a valid date the reply is 500. *)
Theorem listExpiring_spec user until s :
  listExpiring user None s
  = (Refused (mkResponse 500 (JError "Failed to fetch expiring items")), s)
  /\ exists rows,
       listExpiring user (Some until) s = (Listed (PExpiring rows), s)
       /\ (forall it,
             In it rows <->
             In it (foodItems s) /\ item_ownerId it = user_id user
             /\ item_status it = IN_FRIDGE
             /\ exists e, item_expiresAt it = Some e /\ e <= until)
       /\ StronglySorted (fun a b => expiresAt_asc a b = true) rows.
Proof.
  split; [reflexivity|].
  eexists. split; [reflexivity|]. split; [|apply expiresAt_asc_sorted].
  intros it. rewrite sort_by_In, filter_In. unfold expiring.
  rewrite !andb_true_iff, Z.eqb_eq, ItemStatus_eqb_eq.
  destruct (item_expiresAt it) as [e|].
  - rewrite Z.leb_le. split.
    + intros (Hin & (Hown & Hle) & Hst). repeat split; auto. exists e. auto.
    + intros (Hin & Hown & Hst & e' & He & Hle). injection He as <-. auto.
  - split; [intros (_ & (_ & H) & _); discriminate|].
    intros (_ & _ & _ & e & He & _). discriminate.
Qed.

(** ** Sharing into a group and who may look *)

Lemma joins_ok_member_user s m :
  joins_ok s = true -> In m (groupMembers s) -> lookup_user (member_userId m) s <> None.
Proof.
  unfold joins_ok. rewrite !andb_true_iff, !forallb_forall.
  intros (((_ & _) & Hm) & _) Hin. apply Hm in Hin. apply andb_prop in Hin as [Hu _].
  now apply has_user_lookup.
Qed.

Lemma joins_ok_group_owner s g :
  joins_ok s = true -> In g (friendGroups s) -> lookup_user (group_ownerId g) s <> None.
Proof.
  unfold joins_ok. rewrite !andb_true_iff, !forallb_forall.
  intros (((_ & Hg) & _) & _) Hin. apply Hg in Hin. now apply has_user_lookup.
Qed.

Lemma getGroup_cases user id s :
  joins_ok s = true ->
  fst (getGroup user id s) =
    match lookup_group id s with
    | None => Refused (mkResponse 404 (JError "group not found"))
    | Some g =>
      if negb (may_access user id s)
      then Refused (mkResponse 403 (JError "Not allowed"))
      else fst (getGroup user id s)
    end
  /\ snd (getGroup user id s) = s
  /\ (may_access user id s = true -> is_listed (fst (getGroup user id s)) = true).
Proof.
  intros Hj. unfold getGroup, try_catch_json, friendGroup_findUnique_full,
    friendGroup_findUnique, user_findUnique_id, required, bind, gets, ret, reply, throw.
  unfold may_access. simpl.
  destruct (lookup_group id s) as [g|] eqn:Hg; [|simpl; split; [reflexivity|split; [reflexivity|discriminate]]].
  simpl.
  destruct (join_required_some (fun m => lookup_user (member_userId m) s)
              (filter (fun m => member_groupId m =? group_id g) (groupMembers s)))
    as (joined & Hjoin & Hmap & _).
  { intros m Hm. apply filter_In in Hm as [Hm _]. now apply joins_ok_member_user. }
  rewrite Hjoin. simpl.
  destruct (lookup_user (group_ownerId g) s) as [o|] eqn:Ho;
    [|exfalso; apply (joins_ok_group_owner s g Hj); [now apply find_some in Hg|exact Ho]].
  simpl. rewrite Hmap, <- negb_orb.
  destruct (isOwner g user || isMember _ user); simpl; auto.
Qed.

Lemma listGroupItems_cases user id s :
  joins_ok s = true ->
  exists rows,
    listGroupItems user id s =
      (match lookup_group id s with
       | None => Refused (mkResponse 404 (JError "group not found"))
       | Some g =>
         if negb (may_access user id s)
         then Refused (mkResponse 403 (JError "Not allowed"))
         else Listed (PItemsOwned rows)
       end, s)
    /\ forall sh it,
         In sh (groupShares s) -> share_groupId sh = id ->
         lookup_item (share_itemId sh) s = Some it ->
         In it (map (fun r => fst (fst r)) rows).
Proof.
  intros Hj.
  set (shares := sort_by share_desc (filter (fun sh => share_groupId sh =? id)
                                            (groupShares s))).
  assert (Hin : forall sh, In sh shares <-> In sh (groupShares s) /\ share_groupId sh = id).
  { intros sh. unfold shares. rewrite sort_by_In, filter_In, Z.eqb_eq. tauto. }
  destruct (join_required_some (fun sh => lookup_item (share_itemId sh) s) shares)
    as (items & Hjoin & Hmap & Hall).
  { intros sh Hsh. apply Hin in Hsh as [Hsh _]. now apply joins_ok_share_item. }
  destruct (with_owner_category_run (map snd items) s) as (rows & Hrun & Hrows).
  { intros it Hit. apply in_map_iff in Hit as (p & <- & Hp).
    rewrite Forall_forall in Hall. specialize (Hall p Hp).
    apply joins_ok_item_owner; [exact Hj|]. now apply find_some in Hall. }
  exists rows. split.
  - unfold listGroupItems, try_catch_json, friendGroup_findUnique_include_members,
      groupShare_findMany_items, friendGroup_findUnique, required,
      bind, gets, ret, reply, throw.
    unfold may_access. simpl.
    destruct (lookup_group id s) as [g|]; [|reflexivity]. simpl.
    rewrite <- negb_orb.
    destruct (isOwner g user || isMember _ user); simpl; [|reflexivity].
    fold shares. rewrite Hjoin. simpl. now rewrite Hrun.
  - intros sh it Hsh Hgrp Hit. rewrite Hrows.
    assert (Hs : In sh (map fst items)) by (rewrite Hmap; apply Hin; auto).
    apply in_map_iff in Hs as (p & Hp & Hpin).
    rewrite Forall_forall in Hall. pose proof (Hall p Hpin) as Hlook.
    rewrite Hp, Hit in Hlook. injection Hlook as Hsnd.
    apply in_map_iff. exists p. auto.
Qed.

Lemma shareItemToGroup_keeps_joins now user id itemId s :
  keeps_joins s (snd (shareItemToGroup now user id itemId s)).
Proof. unfold shareItemToGroup. frame_ok. Qed.

(** X21: once its owner has shared an item to a group, every owner or
    member of the group who lists the group's items gets it. *)
Theorem shared_item_listed now user reader id itemId it s :
  store_ok s = true ->
  joins_ok s = true ->
  may_access user id s = true ->
  lookup_item itemId s = Some it ->
  item_ownerId it = user_id user ->
  may_access reader id s = true ->
  exists s1,
    shareItemToGroup now user id (Some itemId) s = (mkResponse 201 JOk, s1)
    /\ is_listed (fst (listGroupItems reader id s1)) = true
    /\ In it (listed_items (fst (listGroupItems reader id s1))).
Proof.
  intros Hok Hj Hacc Hit Hown Hreader.
  pose proof (shareItemToGroup_keeps_joins now user id (Some itemId) s Hj) as Hj1.
  rewrite shareItemToGroup_cases in Hj1 |- *.
  pose proof (store_ok_item_pos _ _ _ Hok Hit).
  rewrite truthy_num_pos in Hj1 |- * by lia.
  destruct (lookup_group id s) as [g|] eqn:Hg;
    [|unfold may_access in Hacc; rewrite Hg in Hacc; discriminate].
  apply Z.eqb_eq in Hown.
  rewrite Hacc, Hit, Hown in Hj1 |- *. simpl in Hj1. simpl.
  exists (shared now itemId id s). split; [reflexivity|].
  destruct (shared_frame now itemId id s) as (Hu & Hi & Hgs & Hms).
  assert (Hreader' : may_access reader id (shared now itemId id s) = true).
  { unfold may_access, lookup_group in *. now rewrite Hgs, Hms. }
  assert (Hg' : lookup_group id (shared now itemId id s) = Some g).
  { unfold lookup_group in *. now rewrite Hgs. }
  destruct (listGroupItems_cases reader id _ Hj1) as (rows & Hrun & Hrows).
  rewrite Hrun, Hg', Hreader'. simpl. split; [reflexivity|].
  destruct (shared_found now itemId id s) as [sh Hsh].
  pose proof (find_some _ _ Hsh) as [Hin Hkey].
  unfold shares_key in Hkey. apply andb_prop in Hkey as [Hki Hkg].
  apply Z.eqb_eq in Hki, Hkg.
  apply (Hrows sh it Hin Hkg).
  rewrite Hki. unfold lookup_item in *. now rewrite Hi.
Qed.

Lemma shared_item_listed_witness :
  exists s1,
    shareItemToGroup 9 alice 1 (Some 1) flat = (mkResponse 201 JOk, s1)
    /\ In milk (listed_items (fst (listGroupItems bob 1 s1))).
Proof.
  destruct (shared_item_listed 9 alice bob 1 1 milk flat) as (s1 & Hrun & _ & Hin);
    try (vm_compute; reflexivity).
  exists s1. split; [exact Hrun|exact Hin].
Defined.

Section GroupAccess.
Variable trim : string -> string.

(** X22: the five group routes apply one and the same rule to a group
    id that is a safe integer (which Prisma takes as an argument): for a
    group that does not exist each of them answers 404, and for a caller
    who is neither the owner nor a member of an existing group each of
    them answers 403 "Not allowed"; in both cases nothing is stored. *)
Theorem group_routes_uniform now user id itemId content c s :
  joins_ok s = true ->
  itemId <> 0 ->
  truthy_str content = Some c ->
  trim c <> "" ->
  safe_integer id = true ->
  may_access user id s = false ->
  let refused :=
    match lookup_group id s with
    | None => mkResponse 404 (JError "group not found")
    | Some _ => mkResponse 403 (JError "Not allowed")
    end in
  getGroup user id s = (Refused refused, s)
  /\ listGroupItems user id s = (Refused refused, s)
  /\ listMessages user id s = (refused, s)
  /\ postMessage trim now user id content s = (refused, s)
  /\ shareItemToGroup now user id (Some itemId) s = (refused, s).
Proof.
  intros Hj Hitem Hc Hne _ Hacc. cbv zeta.
  assert (Ht : truthy_str (Some (trim c)) = Some (trim c)).
  { simpl. destruct (trim c); [congruence|reflexivity]. }
  split; [|split; [|split; [|split]]].
  - destruct (getGroup_cases user id s Hj) as (Hfst & Hsnd & _).
    rewrite (surjective_pairing (getGroup user id s)), Hsnd, Hfst, Hacc.
    now destruct (lookup_group id s).
  - destruct (listGroupItems_cases user id s Hj) as (rows & -> & _).
    rewrite Hacc. now destruct (lookup_group id s).
  - unfold listMessages, try_catch, friendGroup_findUnique_include_members,
      friendGroup_findUnique, bind, gets, ret, reply.
    unfold may_access in Hacc. cbv beta iota.
    destruct (lookup_group id s) as [g|]; [|reflexivity].
    cbv beta iota. rewrite <- negb_orb, Hacc. reflexivity.
  - rewrite postMessage_cases, Hc, Ht, Hacc. now destruct (lookup_group id s).
  - rewrite shareItemToGroup_cases, truthy_num_pos by exact Hitem.
    rewrite Hacc. now destruct (lookup_group id s).
Qed.

End GroupAccess.

Lemma group_routes_uniform_witness :
  listGroupItems carol_row 1 flat = (Refused (mkResponse 403 (JError "Not allowed")), flat)
  /\ postMessage demo_trim 9 carol_row 1 (Some "hi") flat
     = (mkResponse 403 (JError "Not allowed"), flat)
  /\ getGroup bob 5 flat = (Refused (mkResponse 404 (JError "group not found")), flat).
Proof.
  assert (Hj : joins_ok flat = true) by (vm_compute; reflexivity).
  assert (Hitem : 1 <> 0) by discriminate.
  assert (Hne : demo_trim "hi" <> "") by discriminate.
  assert (Hcarol : may_access carol_row 1 flat = false) by (vm_compute; reflexivity).
  assert (Hbob : may_access bob 5 flat = false) by (vm_compute; reflexivity).
  destruct (group_routes_uniform demo_trim 9 carol_row 1 1 (Some "hi") "hi" flat
              Hj Hitem eq_refl Hne eq_refl Hcarol) as (_ & Hitems & _ & Hpost & _).
  destruct (group_routes_uniform demo_trim 9 bob 5 1 (Some "hi") "hi" flat
              Hj Hitem eq_refl Hne eq_refl Hbob) as (Hget & _).
  split; [exact Hitems|split; [exact Hpost|exact Hget]].
Defined.

(** ** The groups of a user *)

Lemma existsb_and_filter {A} (p q : A -> bool) (l : list A) :
  existsb (fun a => p a && q a) l = existsb q (filter p l).
Proof.
  induction l as [|a l IH]; simpl; [reflexivity|].
  destruct (p a); simpl; now rewrite IH.
Qed.

Lemma group_desc_sorted l :
  StronglySorted (fun a b => group_createdAt b <= group_createdAt a) (sort_by group_desc l).
Proof.
  assert (H : StronglySorted (fun a b => group_desc a b = true) (sort_by group_desc l)).
  { apply sort_by_sorted; unfold group_desc; intros; lia. }
  induction H as [|x r Hr IH Hx]; constructor; [exact IH|].
  eapply Forall_impl; [|exact Hx]. unfold group_desc. intros; lia.
Qed.

Lemma group_full_some s g :
  joins_ok s = true -> In g (friendGroups s) ->
  exists ms owner, group_full s g = Some (g, ms, owner).
Proof.
  intros Hj Hin. unfold group_full.
  destruct (join_required_some (fun m => lookup_user (member_userId m) s)
              (filter (fun m => member_groupId m =? group_id g) (groupMembers s)))
    as (joined & Hjoin & _).
  { intros m Hm. apply filter_In in Hm as [Hm _]. now apply joins_ok_member_user. }
  rewrite Hjoin.
  destruct (lookup_user (group_ownerId g) s) as [o|] eqn:Ho;
    [|exfalso; now apply (joins_ok_group_owner s g Hj)].
  eauto.
Qed.

Lemma group_full_rows s rows :
  Forall (fun p => group_full s (fst p) = Some (snd p)) rows ->
  map (fun r => fst (fst r)) (map snd rows) = map fst rows.
Proof.
  induction 1 as [|[g r] rows Hg _ IH]; simpl; [reflexivity|].
  f_equal; [|exact IH]. simpl in Hg. unfold group_full in Hg.
  destruct (join_required _ _); [|discriminate].
  destruct (lookup_user _ _); [|discriminate].
  now inversion Hg.
Qed.

(** X25: in a store whose relations resolve and whose ids are distinct,
    the groups listing leaves the store as it is and returns, newest
    first, exactly the groups the caller owns or is a member of; each of
    them is a group that the single-group route opens for the caller. *)
Theorem listGroups_accessible user s :
  joins_ok s = true ->
  ids_distinct s = true ->
  exists rows,
    listGroups user s = (Listed (PGroups rows), s)
    /\ (forall g, In g (map (fun r => fst (fst r)) rows) <->
                  In g (friendGroups s) /\ may_access user (group_id g) s = true)
    /\ StronglySorted (fun a b => group_createdAt b <= group_createdAt a)
                      (map (fun r => fst (fst r)) rows)
    /\ (forall g, In g (map (fun r => fst (fst r)) rows) ->
                  is_listed (fst (getGroup user (group_id g) s)) = true).
Proof.
  intros Hj Hd.
  set (mine := fun g =>
         (group_ownerId g =? user_id user)
         || existsb (fun m => (member_groupId m =? group_id g)
                              && (member_userId m =? user_id user))
                    (groupMembers s)).
  destruct (join_required_some (group_full s) (sort_by group_desc (filter mine (friendGroups s))))
    as (joined & Hjoin & Hmap & Hall).
  { intros g Hg. apply sort_by_In, filter_In in Hg as [Hg _].
    destruct (group_full_some s g Hj Hg) as (ms & o & ->). discriminate. }
  assert (Hrows : map (fun r => fst (fst r)) (map snd joined)
                  = sort_by group_desc (filter mine (friendGroups s))).
  { rewrite (group_full_rows s joined Hall). exact Hmap. }
  assert (Hiff : forall g, In g (map (fun r => fst (fst r)) (map snd joined)) <->
                           In g (friendGroups s) /\ may_access user (group_id g) s = true).
  { intros g. rewrite Hrows, sort_by_In, filter_In.
    split; intros [Hin Hacc]; (split; [exact Hin|]).
    - unfold may_access, lookup_group.
      rewrite (distinct_find group_id (friendGroups s) g); [|unfold ids_distinct in Hd|exact Hin].
      + unfold isOwner, isMember. rewrite <- existsb_and_filter. exact Hacc.
      + apply andb_prop in Hd as [_ Hd]. exact Hd.
    - unfold may_access, lookup_group in Hacc.
      rewrite (distinct_find group_id (friendGroups s) g) in Hacc;
        [|unfold ids_distinct in Hd; apply andb_prop in Hd as [_ Hd]; exact Hd|exact Hin].
      unfold isOwner, isMember in Hacc. rewrite <- existsb_and_filter in Hacc. exact Hacc. }
  exists (map snd joined). split; [|split; [exact Hiff|split]].
  - unfold listGroups, try_catch_json, friendGroup_findMany_mine, required, bind, gets, ret.
    fold mine. rewrite Hjoin. reflexivity.
  - rewrite Hrows. apply group_desc_sorted.
  - intros g Hg. apply Hiff in Hg as [_ Hacc].
    now apply (getGroup_cases user (group_id g) s Hj).
Qed.

Lemma listGroups_accessible_witness :
  exists rows,
    listGroups bob flat = (Listed (PGroups rows), flat)
    /\ In (mkFriendGroup 1 "Flat 4" 1 7) (map (fun r => fst (fst r)) rows).
Proof.
  assert (Hj : joins_ok flat = true) by (vm_compute; reflexivity).
  assert (Hd : ids_distinct flat = true) by (vm_compute; reflexivity).
  destruct (listGroups_accessible bob flat Hj Hd) as (rows & Hrun & Hiff & _).
  exists rows. split; [exact Hrun|].
  apply Hiff. split; vm_compute; [left|]; reflexivity.
Defined.

(** ** Donations *)

Lemma donation_desc_sorted l :
  StronglySorted (fun a b => don_createdAt b <= don_createdAt a) (sort_by donation_desc l).
Proof.
  assert (H : StronglySorted (fun a b => donation_desc a b = true) (sort_by donation_desc l)).
  { apply sort_by_sorted; unfold donation_desc; intros; lia. }
  induction H as [|x r Hr IH Hx]; constructor; [exact IH|].
  eapply Forall_impl; [|exact Hx]. unfold donation_desc. intros; lia.
Qed.

(** X23: a donation request lacking one of its three fields is
    answered 400 and stores nothing; a complete one is stored as sent and
    answered 201, and the public listing then returns it together with
    every donation stored before, newest first. *)
Theorem donation_round_trip now item quantity location s :
  (truthy_str item = None \/ truthy_str quantity = None \/ truthy_str location = None ->
   createDonation now item quantity location s
   = (mkResponse 400 (JError "item, quantity, and location are required"), s))
  /\
  (forall i q l,
     truthy_str item = Some i -> truthy_str quantity = Some q ->
     truthy_str location = Some l ->
     exists d s' rows,
       createDonation now item quantity location s = (mkResponse 201 (JDonation d), s')
       /\ don_item d = i /\ don_quantity d = q /\ don_location d = l
       /\ listDonations s' = (Listed (PDonations rows), s')
       /\ (forall x, In x rows <-> In x (donations s) \/ x = d)
       /\ StronglySorted (fun a b => don_createdAt b <= don_createdAt a) rows).
Proof.
  unfold createDonation. split.
  - intros H.
    destruct (truthy_str item); [|reflexivity].
    destruct (truthy_str quantity); [|reflexivity].
    destruct (truthy_str location); [|reflexivity].
    destruct H as [H | [H | H]]; discriminate.
  - intros i q l -> -> ->.
    set (d := mkDonation (next_id (map don_id (donations s))) i q l now).
    exists d, (set_donations (donations s ++ [d]) s),
           (sort_by donation_desc (donations s ++ [d])).
    split; [reflexivity|]. split; [reflexivity|]. split; [reflexivity|].
    split; [reflexivity|]. split; [reflexivity|].
    split; [|apply donation_desc_sorted].
    intros x. rewrite sort_by_In, in_app_iff. simpl. intuition.
Qed.

Lemma donation_round_trip_witness :
  createDonation 3 (Some "Bread") (Some "") (Some "Cluj") empty_store
  = (mkResponse 400 (JError "item, quantity, and location are required"), empty_store)
  /\ exists d s',
       createDonation 3 (Some "Bread") (Some "2") (Some "Cluj") empty_store
       = (mkResponse 201 (JDonation d), s')
       /\ don_item d = "Bread".
Proof.
  split.
  - destruct (donation_round_trip 3 (Some "Bread") (Some "") (Some "Cluj") empty_store)
      as [Hmissing _].
    apply Hmissing. right; left. reflexivity.
  - destruct (donation_round_trip 3 (Some "Bread") (Some "2") (Some "Cluj") empty_store)
      as [_ Hfull].
    destruct (Hfull "Bread" "2" "Cluj" eq_refl eq_refl eq_refl)
      as (d & s' & rows & Hrun & Hitem & _).
    exists d, s'. split; [exact Hrun|exact Hitem].
Defined.

(** ** Claims, messages and shares in every reachable store *)

(** X24: in every store the server reaches, every claim's item and
    claimer and every message's author exist, item ids are positive, and
    no item is shared twice to the same group. *)
Theorem reachable_claims_messages_shares jwt_verify jwt_sign trim s :
  reachable jwt_verify jwt_sign trim s ->
  store_ok s = true /\ shares_unique s.
Proof.
  intros Hs. split.
  - exact (reachable_store_ok jwt_verify jwt_sign trim s Hs).
  - exact (reachable_shares_unique jwt_verify jwt_sign trim s Hs).
Qed.

Lemma reachable_claims_messages_shares_witness :
  store_ok accepted = true /\ (count_shares 1 1 accepted <= 1)%nat.
Proof.
  assert (Hreach : reachable demo_verify demo_sign demo_trim accepted).
  { unfold accepted, offered, listed. do 3 apply reachable_run. constructor. }
  destruct (reachable_claims_messages_shares demo_verify demo_sign demo_trim accepted Hreach)
    as [Hok Hshares].
  split; [exact Hok|apply Hshares].
Defined.
